(** * kmfddm, DynamoDB storage backend: a shallow embedding and its properties

    The development follows the Go package [storage/dynamo]:
    - [GoStrings]: the functions of Go's [strings] package the code calls,
      over byte strings;
    - the status-value helpers of [status.go] ([containsValue],
      [mergeStatusValues], [filterPathPrefix]);
    - [Csv]: the writer and reader of Go's [encoding/csv] as configured by
      the code (comma separator, no CRLF, no lazy quotes);
    - the table ([AddItem], [GetSingleItemPKSK], [GetItemsSKBeginsWith],
      [GetReverseItems], [deleteSingleItem]) over an explicit world that
      carries the table contents, a fault schedule for the backing store,
      the random source, the clock and the log of requests;
    - the declaration, set, enrollment, DDM and status operations.

    Go strings are byte sequences: they are modelled by [string], whose
    characters are the 256 byte values. *)

From Stdlib Require Import String Ascii List Bool Arith ZArith Lia DecimalString.
Import ListNotations.

Local Open Scope string_scope.
Local Open Scope list_scope.

Infix "+++" := String.append (right associativity, at level 60).

(** ** Go's [strings] package *)

Module GoStrings.

(** [strings.HasPrefix(s, prefix)] *)
Fixpoint HasPrefix (s prefix : string) {struct prefix} : bool :=
  match prefix with
  | EmptyString => true
  | String c prefix' =>
      match s with
      | EmptyString => false
      | String d s' => Ascii.eqb d c && HasPrefix s' prefix'
      end
  end.

(** [s[i:j]]; [None] is the run-time panic on bounds out of range. *)
Definition slice (s : string) (i j : nat) : option string :=
  if ((i <=? j) && (j <=? String.length s))%nat
  then Some (substring i (j - i) s) else None.

(** [s[i:]], only used where [i <= len(s)] is known. *)
Definition sliceFrom (s : string) (i : nat) : string :=
  substring i (String.length s - i) s.

(** [strings.HasSuffix(s, suffix)]:
    [len(s) >= len(suffix) && s[len(s)-len(suffix):] == suffix] *)
Definition HasSuffix (s suffix : string) : bool :=
  (String.length suffix <=? String.length s)%nat
  && String.eqb (sliceFrom s (String.length s - String.length suffix)) suffix.

(** [strings.Contains(s, substr)]: some position of [s] starts [substr]. *)
Fixpoint Contains (s substr : string) : bool :=
  HasPrefix s substr
  || match s with
     | EmptyString => false
     | String _ s' => Contains s' substr
     end.

(** [strings.TrimPrefix(s, prefix)] *)
Definition TrimPrefix (s prefix : string) : string :=
  if HasPrefix s prefix then sliceFrom s (String.length prefix) else s.

End GoStrings.
Import GoStrings.

(** ** Status values ([status.go])

    [ddm.StatusValue] as the package uses it: the four fields that are
    written to, read from and compared in the stored value set. [Value] is a
    byte slice; [string(v.Value)] and [[]byte(s)] are the identity here. *)

Record StatusValue : Type := mkStatusValue {
  Path : string;
  ContainerType : string;
  ValueType : string;
  Value : string
}.

(** The test of [containsValue]'s loop body. *)
Definition sameValue (v value : StatusValue) : bool :=
  String.eqb (Path v) (Path value)
  && String.eqb (ValueType v) (ValueType value)
  && String.eqb (ContainerType v) (ContainerType value)
  && String.eqb (Value v) (Value value).

(** [containsValue]: the index of the first match, or -1. *)
Fixpoint containsValue_from (i : Z) (values : list StatusValue)
    (v : StatusValue) : Z :=
  match values with
  | [] => (-1)%Z
  | value :: rest =>
      if sameValue v value then i else containsValue_from (i + 1)%Z rest v
  end.

Definition containsValue (values : list StatusValue) (v : StatusValue) : Z :=
  containsValue_from 0%Z values v.

(** [mergeStatusValues]: a copy of [dst], then every [src] value that the
    result so far does not contain. *)
Definition mergeStatusValues (dst src : list StatusValue) : list StatusValue :=
  fold_left
    (fun ret srcValue =>
       if (containsValue ret srcValue <? 0)%Z then ret ++ [srcValue] else ret)
    src dst.

(** The body of [filterPathPrefix]'s loop: the value of [found] for one path.
    [None] is the panic of a slice expression whose bounds are out of range. *)
Definition pathFound (pathPrefix path : string) : option bool :=
  let hasPre := HasPrefix pathPrefix "%" in
  let hasSuf := HasSuffix pathPrefix "%" in
  if (3 <=? String.length path)%nat && hasPre && hasSuf then
    match slice pathPrefix 1 (String.length pathPrefix - 1) with
    | Some sub => Some (Contains path sub)
    | None => None
    end
  else if hasPre then
    match slice pathPrefix 1 (String.length pathPrefix) with
    | Some suf => Some (HasSuffix path suf)
    | None => None
    end
  else if hasSuf then
    match slice pathPrefix 0 (String.length pathPrefix - 1) with
    | Some pre => Some (HasPrefix path pre)
    | None => None
    end
  else Some (String.eqb path pathPrefix).

Fixpoint filterPathPrefix_loop (values : list StatusValue)
    (pathPrefix : string) (ret : list StatusValue)
    : option (list StatusValue) :=
  match values with
  | [] => Some ret
  | v :: values' =>
      match pathFound pathPrefix (Path v) with
      | None => None
      | Some found =>
          filterPathPrefix_loop values' pathPrefix
            (if found then ret ++ [v] else ret)
      end
  end.

Definition filterPathPrefix (values : list StatusValue) (pathPrefix : string)
    : option (list StatusValue) :=
  filterPathPrefix_loop values pathPrefix [].

(** ** Go's [encoding/csv], as [status.go] configures it

    [csv.NewWriter] and [csv.NewReader] with their defaults: separator
    [','], [UseCRLF], [LazyQuotes] and [TrimLeadingSpace] off, no comment
    character, [FieldsPerRecord] initially 0. The writer goes to a
    [bytes.Buffer] and the reader comes from a [strings.Reader], so the only
    read error is [io.EOF]. *)

Module Csv.

Definition LF : ascii := "010"%char.
Definition CR : ascii := "013"%char.
Definition DQUOTE : ascii := "034"%char.
Definition COMMA : ascii := ","%char.

Fixpoint anyByte (p : ascii -> bool) (s : string) : bool :=
  match s with
  | EmptyString => false
  | String c s' => p c || anyByte p s'
  end.

Definition byteAt (s : string) (i : nat) : nat :=
  match String.get i s with
  | Some c => nat_of_ascii c
  | None => 256
  end.

(** [unicode.IsSpace] of the first rune of [field], on its UTF-8 bytes:
    U+0009..U+000D, U+0020, U+0085, U+00A0, U+1680, U+2000..U+200A, U+2028,
    U+2029, U+202F, U+205F, U+3000. *)
Definition firstRuneIsSpace (field : string) : bool :=
  let b0 := byteAt field 0 in
  let b1 := byteAt field 1 in
  let b2 := byteAt field 2 in
  (if b0 <? 128 then (9 <=? b0) && (b0 <=? 13) || (b0 =? 32)
   else if b0 =? 194 then (b1 =? 133) || (b1 =? 160)
   else if b0 =? 225 then (b1 =? 154) && (b2 =? 128)
   else if b0 =? 226 then
     (b1 =? 128)
       && ((128 <=? b2) && (b2 <=? 138)
           || (b2 =? 168) || (b2 =? 169) || (b2 =? 175))
     || (b1 =? 129) && (b2 =? 159)
   else if b0 =? 227 then (b1 =? 128) && (b2 =? 128)
   else false)%nat.

Definition isSpecial (c : ascii) : bool :=
  Ascii.eqb c LF || Ascii.eqb c CR || Ascii.eqb c DQUOTE || Ascii.eqb c COMMA.

(** [Writer.fieldNeedsQuotes] *)
Definition fieldNeedsQuotes (field : string) : bool :=
  if String.eqb field "" then false
  else if String.eqb field "\." then true
  else if anyByte isSpecial field then true
  else firstRuneIsSpace field.

(** The loop of [Writer.Write] between the two quotes: a quote is
    doubled; a carriage return and a line feed are written as they are
    ([UseCRLF] is off); every other byte is copied. *)
Fixpoint writeQuoted (field : string) : string :=
  match field with
  | EmptyString => ""
  | String c field' =>
      if Ascii.eqb c DQUOTE
      then String DQUOTE (String DQUOTE (writeQuoted field'))
      else String c (writeQuoted field')
  end.

Definition writeField (field : string) : string :=
  if fieldNeedsQuotes field
  then String DQUOTE (writeQuoted field +++ String DQUOTE "")
  else field.

Fixpoint writeFields (n : nat) (record : list string) : string :=
  match record with
  | [] => ""
  | field :: rest =>
      (if (0 <? n)%nat then String COMMA "" else "")
        +++ writeField field +++ writeFields (S n) rest
  end.

(** [Writer.Write] *)
Definition Write (record : list string) : string :=
  writeFields 0 record +++ String LF "".

(** [Writer.WriteAll], then the contents of the buffer. *)
Fixpoint WriteAll (records : list (list string)) : string :=
  match records with
  | [] => ""
  | record :: rest => Write record +++ WriteAll rest
  end.

(** [bufio.Reader.ReadSlice('\n')]: the bytes up to and including the first
    line feed, the unread rest, and whether the input ended first. *)
Fixpoint ReadSlice (inp : string) : string * string * bool :=
  match inp with
  | EmptyString => ("", "", true)
  | String c inp' =>
      if Ascii.eqb c LF then (String LF "", inp', false)
      else let '(line, rest, eof) := ReadSlice inp' in (String c line, rest, eof)
  end.

Definition byteIs (s : string) (i : nat) (c : ascii) : bool :=
  match String.get i s with
  | Some d => Ascii.eqb d c
  | None => false
  end.

Definition dropLast (s : string) : string :=
  substring 0 (String.length s - 1) s.

(** [lengthNL] *)
Definition lengthNL (b : string) : nat :=
  if (0 <? String.length b)%nat && byteIs b (String.length b - 1) LF
  then 1 else 0.

(** [Reader.readLine]: the line, whether the error is [io.EOF], and the
    unread rest. A carriage return before the end of input is dropped and a
    final CR LF becomes LF. *)
Definition readLine (inp : string) : string * bool * string :=
  let '(line, rest, eof) := ReadSlice inp in
  let readSize := String.length line in
  let '(line, err) :=
    if (0 <? readSize)%nat && eof
    then ((if byteIs line (readSize - 1) CR then dropLast line else line),
          false)
    else (line, eof) in
  let n := String.length line in
  let line :=
    if (2 <=? n)%nat && byteIs line (n - 2) CR && byteIs line (n - 1) LF
    then dropLast (dropLast line) +++ String LF ""
    else line in
  (line, err, rest).

Inductive ParseErr : Type := ErrBareQuote | ErrQuote | ErrFieldCount.

Inductive ReadErr : Type := EOF | ParseError (e : ParseErr).

(** [bytes.IndexByte] *)
Fixpoint IndexByte (s : string) (c : ascii) : option nat :=
  match s with
  | EmptyString => None
  | String d s' =>
      if Ascii.eqb d c then Some 0
      else match IndexByte s' c with
           | Some i => Some (S i)
           | None => None
           end
  end.

(** The first loop of [readRecord]: read lines until one is not empty.
    [None] only when [fuel] runs out. *)
Fixpoint firstLine (fuel : nat) (inp : string)
    : option (string * bool * string) :=
  match fuel with
  | O => None
  | S fuel' =>
      let '(line, errRead, rest) := readLine inp in
      if negb errRead && (String.length line =? lengthNL line)%nat
      then firstLine fuel' rest
      else Some (line, errRead, rest)
  end.

(** What the branch for a field that does not start with a quote does. *)
Inductive FieldStep : Type :=
| ContinueParse (line : string) (fields : list string)
| BreakParse (fields : list string) (err : option ParseErr).

Definition unquotedField (line : string) (fields : list string) : FieldStep :=
  let i := IndexByte line COMMA in
  let field :=
    match i with
    | Some i => substring 0 i line
    | None => substring 0 (String.length line - lengthNL line) line
    end in
  match IndexByte field DQUOTE with
  | Some _ => BreakParse fields (Some ErrBareQuote)
  | None =>
      match i with
      | Some i => ContinueParse (sliceFrom line (i + 1)) (fields ++ [field])
      | None => BreakParse (fields ++ [field]) None
      end
  end.

(** The [parseField] loop of [readRecord] and, for a field that starts with
    a quote, its inner loop. [line] is what is left of the current line,
    [inp] the unread input, [buf] the bytes of the field under construction,
    [fields] the fields completed so far. The result is the record, the
    parse error if any, and the unread input. After the first line the
    reader's [errRead] is always nil: the inner loop resets [io.EOF]. *)
Fixpoint parseField (fuel : nat) (line inp : string) (fields : list string)
    {struct fuel} : option (list string * option ParseErr * string) :=
  match fuel with
  | O => None
  | S fuel' =>
      let unquoted :=
        match unquotedField line fields with
        | ContinueParse line' fields' => parseField fuel' line' inp fields'
        | BreakParse fields' err => Some (fields', err, inp)
        end in
      match line with
      | EmptyString => unquoted
      | String c line' =>
          if Ascii.eqb c DQUOTE
          then quotedField fuel' line' inp "" fields
          else unquoted
      end
  end
with quotedField (fuel : nat) (line inp buf : string) (fields : list string)
    {struct fuel} : option (list string * option ParseErr * string) :=
  match fuel with
  | O => None
  | S fuel' =>
      match IndexByte line DQUOTE with
      | Some i =>
          let buf := buf +++ substring 0 i line in
          let line := sliceFrom line (i + 1) in
          match line with
          | EmptyString => Some (fields ++ [buf], None, inp)
          | String c line' =>
              if Ascii.eqb c DQUOTE then
                quotedField fuel' line' inp (buf +++ String DQUOTE "") fields
              else if Ascii.eqb c COMMA then
                parseField fuel' line' inp (fields ++ [buf])
              else if (lengthNL line =? String.length line)%nat then
                Some (fields ++ [buf], None, inp)
              else Some (fields, Some ErrQuote, inp)
          end
      | None =>
          if (0 <? String.length line)%nat then
            let '(line', _, inp') := readLine inp in
            quotedField fuel' line' inp' (buf +++ line) fields
          else Some (fields, Some ErrQuote, inp)
      end
  end.

(** The reader: the unread input and [FieldsPerRecord]. *)
Record Reader : Type := mkReader {
  unread : string;
  FieldsPerRecord : nat
}.

Definition NewReader (s : string) : Reader := mkReader s 0.

(** [Reader.Read]. [None] only when the fuel, taken from the length of
    the unread input, runs out. *)
Definition Read (r : Reader)
    : option (list string * option ReadErr * Reader) :=
  match firstLine (S (String.length (unread r))) (unread r) with
  | None => None
  | Some (line, errRead, rest) =>
      if errRead then Some ([], Some EOF, mkReader rest (FieldsPerRecord r))
      else
        match parseField (S (String.length line + String.length rest))
                line rest [] with
        | None => None
        | Some (dst, err, rest') =>
            if (0 <? FieldsPerRecord r)%nat then
              let err' :=
                match err with
                | None =>
                    if negb (List.length dst =? FieldsPerRecord r)%nat
                    then Some ErrFieldCount else None
                | Some _ => err
                end in
              Some (dst, option_map ParseError err',
                    mkReader rest' (FieldsPerRecord r))
            else
              Some (dst, option_map ParseError err,
                    mkReader rest' (List.length dst))
        end
  end.

End Csv.

(** ** Errors

    A Go [error] value is an [option error]; [None] is [nil]. *)

Inductive error : Type :=
| ErrBackingStore                          (* the DynamoDB client call failed *)
| ErrUnmarshalType                         (* attributevalue.UnmarshalTypeError *)
| ErrJSON                                  (* encoding/json rejected the text *)
| ErrParseDeclaration                      (* ddm.ParseDeclaration failed *)
| ErrMarshalTime                           (* time.Time.MarshalText failed *)
| ErrCSV (e : Csv.ParseErr)                (* csv.ParseError *)
| ErrRecordFields (n : nat)                (* fmt.Errorf of a record length *)
| ErrWrap (msg : string) (e : error)        (* fmt.Errorf with a wrapped error *)
| ErrWrapNil (msg : string).               (* fmt.Errorf wrapping a nil error *)

Definition wrap (msg : string) (e : option error) : error :=
  match e with
  | Some e' => ErrWrap msg e'
  | None => ErrWrapNil msg
  end.

(** ** The table

    An item is a map from attribute names to attribute values; the package
    writes strings and one boolean. The table holds one item per
    (pk, sk) pair and is kept ordered by that pair, the order in which a
    query on the table (fixed pk, ascending sk) and a query on the
    reverse-sk-pk index (fixed sk, ascending pk) return items. *)

Inductive AttributeValue : Type :=
| AvS (s : string)
| AvBOOL (b : bool).

(** An item: its two key attributes, which the schema of the table makes
    strings present in every item, and its other attributes by name. *)
Record Item : Type := mkItem {
  pk : string;
  sk : string;
  attrs : list (string * AttributeValue)
}.

Fixpoint attr (name : string) (l : list (string * AttributeValue))
    : option AttributeValue :=
  match l with
  | [] => None
  | (n, v) :: l' => if String.eqb n name then Some v else attr name l'
  end.

Definition Key : Type := (string * string)%type.

Definition keyOf (it : Item) : Key := (pk it, sk it).

Definition key_compare (k1 k2 : Key) : comparison :=
  match String.compare (fst k1) (fst k2) with
  | Eq => String.compare (snd k1) (snd k2)
  | c => c
  end.

Definition key_eqb (k1 k2 : Key) : bool :=
  String.eqb (fst k1) (fst k2) && String.eqb (snd k1) (snd k2).

Definition Table : Type := list Item.

Fixpoint lookup (t : Table) (k : Key) : option Item :=
  match t with
  | [] => None
  | it :: t' => if key_eqb (keyOf it) k then Some it else lookup t' k
  end.

Fixpoint put (it : Item) (t : Table) : Table :=
  match t with
  | [] => [it]
  | it' :: t' =>
      match key_compare (keyOf it) (keyOf it') with
      | Eq => it :: t'
      | Lt => it :: it' :: t'
      | Gt => it' :: put it t'
      end
  end.

Definition remove (k : Key) (t : Table) : Table :=
  filter (fun it => negb (key_eqb (keyOf it) k)) t.

(** pk = [p] and begins_with(sk, [beginsWith]), on the table. *)
Definition query (t : Table) (p beginsWith : string) : list Item :=
  filter (fun it => String.eqb (pk it) p && HasPrefix (sk it) beginsWith) t.

(** sk = [s] and begins_with(pk, [beginsWith]), on the reverse index. *)
Definition queryReverse (t : Table) (s beginsWith : string) : list Item :=
  filter (fun it => String.eqb (sk it) s && HasPrefix (pk it) beginsWith) t.

(** ** The world

    What the methods of [DSDynamoTable] act on: the contents of the table;
    the schedule of failures of the backing store (one flag per client
    call, [true] makes that call fail; an exhausted schedule means no more
    failures); the number of blocks drawn from the random source; the
    number of clock readings taken; the requests sent to the client. *)

Inductive Request : Type :=
| ReqPutItem (it : Item)
| ReqDeleteItem (key : Item)
| ReqGetItem (pk sk : string)
| ReqQuery (pk beginsWith : string)
| ReqQueryReverse (sk beginsWith : string).

Record World : Type := mkWorld {
  tbl : Table;
  faults : list bool;
  drawn : nat;
  ticks : nat;
  trace : list Request
}.

(** A computation on the world; [None] is a run-time panic. *)
Definition M (A : Type) : Type := World -> option A * World.

Definition ret {A} (a : A) : M A := fun w => (Some a, w).

Definition bind {A B} (m : M A) (f : A -> M B) : M B :=
  fun w =>
    match m w with
    | (Some a, w') => f a w'
    | (None, w') => (None, w')
    end.

Definition panic {A} : M A := fun w => (None, w).

Notation "x <- m ;; f" := (bind m (fun x => f))
  (at level 61, m at next level, right associativity).
Notation "' pat <- m ;; f" := (bind m (fun x => match x with pat => f end))
  (at level 61, pat pattern, m at next level, right associativity).

(** One call of the DynamoDB client: the request is logged and the next
    flag of the schedule says whether the call fails. *)
Definition logged (r : Request) (w : World) : World :=
  mkWorld (tbl w) (tl (faults w)) (drawn w) (ticks w) (trace w ++ [r]).

Definition call (r : Request) : M bool :=
  fun w => (Some (hd false (faults w)), logged r w).

Definition withDrawn (w : World) : World :=
  mkWorld (tbl w) (faults w) (S (drawn w)) (ticks w) (trace w).

Definition withTick (w : World) : World :=
  mkWorld (tbl w) (faults w) (drawn w) (S (ticks w)) (trace w).

Definition withTable (t : Table) (w : World) : World :=
  mkWorld t (faults w) (drawn w) (ticks w) (trace w).

Definition getTable : M Table := fun w => (Some (tbl w), w).

Definition setTable (t : Table) : M unit :=
  fun w => (Some tt, withTable t w).

(** ** Marshalling ([attributevalue])

    [MarshalMap] writes the tagged fields of a struct, leaving out an
    [omitempty] field that is empty. [UnmarshalMap] sets the fields whose
    attribute is present and fails on an attribute of the wrong type; a
    target is not changed by a failing decode here (which fields Go sets
    before the failure depends on map order; no caller reads them).
    [UnmarshalListOfMaps] decodes a list: into a slice it decodes every
    element, and into anything that is not a slice, an array or an interface
    (a struct, for one) it fails with [UnmarshalTypeError] whatever the
    list holds. *)

Class Marshal (T : Type) : Type := MarshalMap : T -> Item.

Class Unmarshal (T : Type) : Type :=
  UnmarshalMap : Item -> T -> T * option error.

Class UnmarshalList (T : Type) : Type :=
  UnmarshalListOfMaps : list Item -> T -> T * option error.

Definition S_ (name value : string) : list (string * AttributeValue) :=
  [(name, AvS value)].

Definition S_omitempty (name value : string)
    : list (string * AttributeValue) :=
  if String.eqb value "" then [] else [(name, AvS value)].

Definition decodeS (it : Item) (name : string) (cur : string) : option string :=
  match attr name (attrs it) with
  | None => Some cur
  | Some (AvS s) => Some s
  | Some (AvBOOL _) => None
  end.

Fixpoint decodeEach {T} `{Unmarshal T} (zero : T) (l : list Item)
    : option (list T) :=
  match l with
  | [] => Some []
  | it :: l' =>
      match UnmarshalMap it zero, decodeEach zero l' with
      | (x, None), Some xs => Some (x :: xs)
      | _, _ => None
      end
  end.

Class Zero (T : Type) : Type := zero : T.

#[export] Instance UnmarshalList_slice {T} `{Zero T} `{Unmarshal T}
    : UnmarshalList (list T) :=
  fun l cur =>
    match decodeEach zero l with
    | Some xs => (xs, None)
    | None => (cur, Some ErrUnmarshalType)
    end.

(** ** The records of the package *)

Module dsGenericItem.
Record t : Type := mk { PK : string; SK : string; Body : string }.
End dsGenericItem.

Module dsDeclaration.
Record t : Type := mk {
    PK : string; SK : string; JSON : string;
    Token : string; Type_ : string; Salt : string
  }.
End dsDeclaration.

Module dsDeclarationStatus.
Record t : Type := mk {
    PK : string; SK : string; Time : string; Identifier : string;
    Active : bool; Valid : string; ServerToken : string;
    ManifestType : string; ReasonsJSON : string
  }.
End dsDeclarationStatus.

Module dsDecError.
Record t : Type := mk {
    PK : string; SK : string; Time : string; Path : string; Body : string
  }.
End dsDecError.

#[export] Instance Zero_dsGenericItem : Zero dsGenericItem.t :=
  dsGenericItem.mk "" "" "".

#[export] Instance Zero_dsDeclaration : Zero dsDeclaration.t :=
  dsDeclaration.mk "" "" "" "" "" "".

#[export] Instance Marshal_dsGenericItem : Marshal dsGenericItem.t :=
  fun x =>
    mkItem (dsGenericItem.PK x) (dsGenericItem.SK x)
      (S_omitempty "body" (dsGenericItem.Body x)).

#[export] Instance Marshal_dsDeclaration : Marshal dsDeclaration.t :=
  fun x =>
    mkItem (dsDeclaration.PK x) (dsDeclaration.SK x)
      (S_ "json" (dsDeclaration.JSON x)
       ++ S_ "dec_token" (dsDeclaration.Token x)
       ++ S_ "dec_type" (dsDeclaration.Type_ x)
       ++ S_ "salt" (dsDeclaration.Salt x)).

#[export] Instance Marshal_dsDeclarationStatus : Marshal dsDeclarationStatus.t :=
  fun x =>
    mkItem (dsDeclarationStatus.PK x) (dsDeclarationStatus.SK x)
      (S_ "statusTime" (dsDeclarationStatus.Time x)
       ++ S_ "statusID" (dsDeclarationStatus.Identifier x)
       ++ [("statusActive", AvBOOL (dsDeclarationStatus.Active x))]
       ++ S_ "statusValid" (dsDeclarationStatus.Valid x)
       ++ S_ "server-token" (dsDeclarationStatus.ServerToken x)
       ++ S_omitempty "statusType" (dsDeclarationStatus.ManifestType x)
       ++ S_omitempty "statusResons" (dsDeclarationStatus.ReasonsJSON x)).

#[export] Instance Marshal_dsDecError : Marshal dsDecError.t :=
  fun x =>
    mkItem (dsDecError.PK x) (dsDecError.SK x)
      (S_ "statusTime" (dsDecError.Time x)
       ++ S_ "path" (dsDecError.Path x)
       ++ S_ "body" (dsDecError.Body x)).

#[export] Instance Unmarshal_dsGenericItem : Unmarshal dsGenericItem.t :=
  fun it cur =>
    match decodeS it "body" (dsGenericItem.Body cur) with
    | Some body => (dsGenericItem.mk (pk it) (sk it) body, None)
    | None => (cur, Some ErrUnmarshalType)
    end.

#[export] Instance Unmarshal_dsDeclaration : Unmarshal dsDeclaration.t :=
  fun it cur =>
    match decodeS it "json" (dsDeclaration.JSON cur),
          decodeS it "dec_token" (dsDeclaration.Token cur),
          decodeS it "dec_type" (dsDeclaration.Type_ cur),
          decodeS it "salt" (dsDeclaration.Salt cur) with
    | Some json, Some token, Some ty, Some salt =>
        (dsDeclaration.mk (pk it) (sk it) json token ty salt, None)
    | _, _, _, _ => (cur, Some ErrUnmarshalType)
    end.

(** [StoreDeclaration] hands [GetItemsSKBeginsWith] a pointer to one
    [dsDeclaration], not to a slice: the list of items does not decode into
    a struct, so the call reports [UnmarshalTypeError] and leaves the struct
    as it was. *)
#[export] Instance UnmarshalList_dsDeclaration
    : UnmarshalList dsDeclaration.t :=
  fun _ cur => (cur, Some ErrUnmarshalType).

(** ** The methods of the table ([DSDynamoTable])

    The client is the contract of the backing store: put, get, delete and
    the two prefix queries. A key attribute may not be empty. A delete
    request carries the whole marshalled item as its key; the model deletes
    the item stored under its pk and sk. *)

Definition validKey (it : Item) : bool :=
  negb (String.eqb (pk it) "") && negb (String.eqb (sk it) "").

Definition AddItem {T} `{Marshal T} (item : T) : M (option error) :=
  let newitem := MarshalMap item in
  failed <- call (ReqPutItem newitem) ;;
  if (failed : bool) || negb (validKey newitem) then ret (Some ErrBackingStore)
  else
    t <- getTable ;;
    _ <- setTable (put newitem t) ;;
    ret None.

Definition deleteSingleItem {T} `{Marshal T} (item : T) : M bool :=
  let deleteItem := MarshalMap item in
  failed <- call (ReqDeleteItem deleteItem) ;;
  if (failed : bool) || negb (validKey deleteItem) then ret false
  else
    t <- getTable ;;
    _ <- setTable (remove (keyOf deleteItem) t) ;;
    ret true.

(** A key that is not in the table yields an empty map, which sets no field
    of the result. *)
Definition GetSingleItemPKSK {T} `{Unmarshal T} (pk sk : string) (result : T)
    : M (T * option error) :=
  failed <- call (ReqGetItem pk sk) ;;
  if (failed : bool) then ret (result, Some ErrBackingStore)
  else
    t <- getTable ;;
    match lookup t (pk, sk) with
    | Some it => ret (UnmarshalMap it result)
    | None => ret (result, None)
    end.

Definition GetReverseItems {T} `{UnmarshalList T} (sk beginsWith : string)
    (result : T) : M (T * option error) :=
  failed <- call (ReqQueryReverse sk beginsWith) ;;
  if (failed : bool) then ret (result, Some ErrBackingStore)
  else
    t <- getTable ;;
    ret (UnmarshalListOfMaps (queryReverse t sk beginsWith) result).

Definition GetItemsSKBeginsWith {T} `{UnmarshalList T} (pk beginsWith : string)
    (result : T) : M (T * option error) :=
  failed <- call (ReqQuery pk beginsWith) ;;
  if (failed : bool) then ret (result, Some ErrBackingStore)
  else
    t <- getTable ;;
    ret (UnmarshalListOfMaps (query t pk beginsWith) result).

(** ** The types of package [ddm] the storage uses *)

Module Declaration.
Record t : Type := mk { Identifier : string; Type_ : string; Raw : string }.
End Declaration.

Module DeclarationStatus.
Record t : Type := mk {
    Identifier : string; Active : bool; Valid : string;
    ServerToken : string; ManifestType : string; ReasonsJSON : string
  }.
End DeclarationStatus.

Module StatusError.
Record t : Type := mk { Path : string; ErrorJSON : string }.
End StatusError.

Module StatusReport.
Record t : Type := mk {
    Raw : string;
    Declarations : list DeclarationStatus.t;
    Values : list StatusValue;
    Errors : list StatusError.t
  }.
End StatusReport.

(** [readStatusValues], after the item is fetched: the records of the body.
    [None] only when the fuel, taken from the length of the body, runs
    out. *)
Fixpoint readRecords (fuel : nat) (reader : Csv.Reader)
    (ret : list StatusValue) : option (list StatusValue * option error) :=
  match fuel with
  | O => None
  | S fuel' =>
      match Csv.Read reader with
      | None => None
      | Some (_, Some Csv.EOF, _) => Some (ret, None)
      | Some (_, Some (Csv.ParseError e), _) =>
          Some ([], Some (ErrWrap "reading CSV record" (ErrCSV e)))
      | Some (record, None, reader') =>
          match record with
          | [r0; r1; r2; r3] =>
              readRecords fuel' reader' (ret ++ [mkStatusValue r0 r1 r2 r3])
          | _ => Some ([], Some (ErrRecordFields (List.length record)))
          end
      end
  end.

Definition parseStatusValues (body : string)
    : option (list StatusValue * option error) :=
  readRecords (S (String.length body)) (Csv.NewReader body) [].

(** [storeStatusValues], between the merge and the write: the body. *)
Definition formatStatusValues (values : list StatusValue) : string :=
  Csv.WriteAll
    (map (fun v => [Path v; ContainerType v; ValueType v; Value v]) values).

Section Storage.

(** What the package takes from outside. [newHash] is the hex digest of the
    configured hash over the bytes written; the JSON object of a payload is
    an association list whose values are [JV], with [JString] the string
    value; [json_Unmarshal] is [json.Unmarshal] into a nil
    [map[string]interface{}]: [None] is its error, [Some None] the map left
    nil (the payload is the JSON [null]), [Some (Some m)] the object
    decoded; [json_Marshal] is [json.Marshal] of a map that is not nil;
    [ParseDeclaration] is [ddm.ParseDeclaration]; the two builders
    are [ddm.NewDIBuilder] and [ddm.NewTokensBuilder] fed the declarations,
    finalized and marshalled; [rand_Read n] is the n-th block of 32 bytes
    of [math/rand], whose [Read] never fails; [MarshalText n] is the text
    of the n-th clock reading. *)
Variable newHash : string -> string.
Variable JV : Type.
Variable JString : string -> JV.
Variable json_Unmarshal : string -> option (option (list (string * JV))).
Variable json_Marshal : list (string * JV) -> string.
Variable ParseDeclaration : string -> option Declaration.t.
Variable DeclarationItemsJSON : list Declaration.t -> string.
Variable TokensJSON : list Declaration.t -> string.
Variable rand_Read : nat -> string.
Variable MarshalText : nat -> option string.

(** [delete(m, key)] and [m[key] = v] on a Go map that is not nil. *)
Definition map_delete (key : string) (m : list (string * JV))
    : list (string * JV) :=
  filter (fun e => negb (String.eqb (fst e) key)) m.

Definition map_set (key : string) (v : JV) (m : list (string * JV))
    : list (string * JV) :=
  map_delete key m ++ [(key, v)].

Definition readRandom : M string :=
  fun w => (Some (rand_Read (drawn w)), withDrawn w).

Definition timeNow : M nat :=
  fun w => (Some (ticks w), withTick w).

(** *** Declarations, first part *)

(** [RetrieveDeclaration]; the declaration is [None] for Go's nil pointer. *)
Definition RetrieveDeclaration (declarationID : string)
    : M (option Declaration.t * option error) :=
  '(declaration, err) <-
    GetSingleItemPKSK ("dec#" +++ declarationID) "dec#"
      (zero : dsDeclaration.t) ;;
  match err with
  | Some e => ret (None, Some e)
  | None =>
      match ParseDeclaration (dsDeclaration.JSON declaration) with
      | None => ret (None, Some (ErrWrap "parsing declaration" ErrParseDeclaration))
      | Some d => ret (Some d, None)
      end
  end.

(** *** DDM documents ([ddm.go]) *)

(** A key set of a Go map, in the order of first insertion (the builders
    are fed in Go's map order, which is unspecified). *)
Definition setAdd (k : string) (s : list string) : list string :=
  if existsb (String.eqb k) s then s else s ++ [k].

Fixpoint collectDeclarations (enrollmentSets : list string)
    (enrollmentDeclarations : list string) : M (list string * option error) :=
  match enrollmentSets with
  | [] => ret (enrollmentDeclarations, None)
  | setName :: rest =>
      '(declarations, err) <-
        GetItemsSKBeginsWith ("set#" +++ setName) "dec#"
          ([] : list dsDeclaration.t) ;;
      match err with
      | Some e => ret (enrollmentDeclarations, Some e)
      | None =>
          collectDeclarations rest
            (fold_left
               (fun acc declarationID =>
                  setAdd (TrimPrefix (dsDeclaration.SK declarationID) "dec#")
                    acc)
               declarations enrollmentDeclarations)
      end
  end.

Fixpoint addDeclarations (ids : list string) (added : list Declaration.t)
    : M (list Declaration.t * option error) :=
  match ids with
  | [] => ret (added, None)
  | declarationID :: rest =>
      '(dec, _) <- RetrieveDeclaration declarationID ;;
      match dec with
      | None => panic          (* dec.Raw on a nil pointer *)
      | Some dec' =>
          match ParseDeclaration (Declaration.Raw dec') with
          | None =>
              ret (added,
                   Some (ErrWrap "parsing declaration" ErrParseDeclaration))
          | Some d => addDeclarations rest (added ++ [d])
          end
      end
  end.

(** [writeEnrollmentDDM] *)
Definition writeEnrollmentDDM (enrollmentID : string) : M (option error) :=
  '(sets, err) <-
    GetItemsSKBeginsWith ("enroll#" +++ enrollmentID) "set#"
      ([] : list dsGenericItem.t) ;;
  match err with
  | Some e => ret (Some e)
  | None =>
      let enrollmentSets :=
        map (fun set => TrimPrefix (dsGenericItem.SK set) "set#") sets in
      '(enrollmentDeclarations, err) <-
        collectDeclarations enrollmentSets [] ;;
      match err with
      | Some e => ret (Some e)
      | None =>
          '(added, err) <- addDeclarations enrollmentDeclarations [] ;;
          match err with
          | Some e => ret (Some e)
          | None =>
              let jsonItem :=
                dsGenericItem.mk ("enroll#" +++ enrollmentID) "json"
                  (DeclarationItemsJSON added) in
              err <- AddItem jsonItem ;;
              match err with
              | Some e => ret (Some e)
              | None =>
                  let tokenItem :=
                    dsGenericItem.mk ("enroll#" +++ enrollmentID) "tokens"
                      (TokensJSON added) in
                  err <- AddItem tokenItem ;;
                  match err with
                  | Some e => ret (Some e)
                  | None => ret None
                  end
              end
          end
      end
  end.

(** The loop of [writeDeclarationDDM] and of [writeSetDDM]: one
    [writeEnrollmentDDM] per identifier, returning at the first error. *)
Fixpoint writeEach (ids : list string) : M (option error) :=
  match ids with
  | [] => ret None
  | id :: rest =>
      err <- writeEnrollmentDDM id ;;
      match err with
      | Some e => ret (Some e)
      | None => writeEach rest
      end
  end.

(** The loop of [declarationEnrollmentIDs]. *)
Fixpoint enrollmentsOfItems (items : list dsGenericItem.t)
    (enrollments : list string) : M (list string) :=
  match items with
  | [] => ret enrollments
  | item :: rest =>
      '(found, err) <-
        GetReverseItems (dsGenericItem.PK item) "enroll#"
          ([] : list dsGenericItem.t) ;;
      match err with
      | None =>
          enrollmentsOfItems rest
            (enrollments
             ++ map (fun enroll => TrimPrefix (dsGenericItem.PK enroll) "enroll#")
                  found)
      | Some _ => enrollmentsOfItems rest enrollments
      end
  end.

(** [declarationEnrollmentIDs] *)
Definition declarationEnrollmentIDs (declarationID : string)
    : M (list string * option error) :=
  '(items, err) <-
    GetItemsSKBeginsWith ("dec#" +++ declarationID) "set#"
      ([] : list dsGenericItem.t) ;;
  match err with
  | Some e => ret ([], Some e)
  | None =>
      enrollments <- enrollmentsOfItems items [] ;;
      ret (enrollments, None)
  end.

Definition RetrieveDeclarationEnrollmentIDs (declarationID : string)
    : M (list string * option error) :=
  declarationEnrollmentIDs declarationID.

(** [RetrieveSetEnrollmentIDs] *)
Definition RetrieveSetEnrollmentIDs (setName : string)
    : M (list string * option error) :=
  '(items, err) <-
    GetReverseItems ("set#" +++ setName) "enroll#"
      ([] : list dsGenericItem.t) ;;
  match err with
  | Some e => ret ([], Some e)
  | None =>
      ret (map (fun item => TrimPrefix (dsGenericItem.PK item) "enroll#") items,
           None)
  end.

(** [writeDeclarationDDM] *)
Definition writeDeclarationDDM (declarationID : string) : M (option error) :=
  '(declarationIDs, err) <- declarationEnrollmentIDs declarationID ;;
  match err with
  | Some e => ret (Some e)
  | None => writeEach declarationIDs
  end.

(** [writeSetDDM] *)
Definition writeSetDDM (setName : string) : M (option error) :=
  '(items, err) <-
    GetItemsSKBeginsWith ("set#" +++ setName) "enroll#"
      ([] : list dsGenericItem.t) ;;
  match err with
  | Some e => ret (Some e)
  | None =>
      writeEach
        (map (fun item => TrimPrefix (dsGenericItem.SK item) "enroll#") items)
  end.

(** *** Declarations, second part *)

(** [json.Marshal] of a map: a nil map marshals as [null]. *)
Definition marshalMap (m : option (list (string * JV))) : string :=
  match m with
  | Some m' => json_Marshal m'
  | None => "null"
  end.

(** [StoreDeclaration]. The error of the first read is overwritten by the
    nil error of [rand.Read] when the token or the salt of [item] is empty;
    [json.Marshal] of the decoded map and the hasher's [Write] do not
    fail. The payload [null] leaves [declaration] nil: [delete] on a nil
    map does nothing, and the assignment of the token to an entry of a nil
    map panics. *)
Definition StoreDeclaration (d : Declaration.t) : M (bool * option error) :=
  '(item, err) <-
    GetItemsSKBeginsWith ("dec#" +++ Declaration.Identifier d) "dec#"
      (zero : dsDeclaration.t) ;;
  '(token, creationSalt, tokenMissing, err) <-
    (if negb (String.eqb (dsDeclaration.Token item) "")
        && negb (String.eqb (dsDeclaration.Salt item) "")
     then ret (dsDeclaration.Token item, dsDeclaration.Salt item, false, err)
     else
       creationSalt <- readRandom ;;
       ret ("", creationSalt, true, None)) ;;
  match err with
  | Some e => ret (false, Some (ErrWrap "reading declaration" e))
  | None =>
      match json_Unmarshal (Declaration.Raw d) with
      | None => ret (false, Some ErrJSON)
      | Some declaration =>
          let declaration :=
            option_map (map_delete "ServerToken") declaration in
          let dBytes := marshalMap declaration in
          let dHash := newHash (dBytes +++ creationSalt) in
          if negb tokenMissing && String.eqb dHash token then
            ret (false, None)
          else
            let token := dHash in
            match declaration with
            | None => panic      (* assignment to entry in nil map *)
            | Some declaration =>
                let declaration :=
                  map_set "ServerToken" (JString token) declaration in
                let dBytes := json_Marshal declaration in
                let newDeclaration :=
                  dsDeclaration.mk
                    ("dec#" +++ Declaration.Identifier d) "dec#" dBytes token
                    (Declaration.Type_ d)
                    (if tokenMissing then creationSalt
                     else dsDeclaration.Salt item) in
                err <- AddItem newDeclaration ;;
                match err with
                | Some e => ret (false, Some e)
                | None =>
                    err <- writeDeclarationDDM (Declaration.Identifier d) ;;
                    match err with
                    | Some e => ret (false, Some e)
                    | None => ret (true, None)
                    end
                end
            end
      end
  end.

(** The record that [StoreDeclaration] writes for the payload object
    [declaration] when it has drawn [creationSalt]. *)
Definition newDeclarationRecord (d : Declaration.t)
    (declaration : list (string * JV)) (creationSalt : string)
    : dsDeclaration.t :=
  let stripped := map_delete "ServerToken" declaration in
  let token := newHash (json_Marshal stripped +++ creationSalt) in
  dsDeclaration.mk
    ("dec#" +++ Declaration.Identifier d) "dec#"
    (json_Marshal (map_set "ServerToken" (JString token) stripped))
    token (Declaration.Type_ d) creationSalt.

(** What is left of [StoreDeclaration] once the record is built. *)
Definition afterRecord (d : Declaration.t) (record : dsDeclaration.t)
    : M (bool * option error) :=
  err <- AddItem record ;;
  match err with
  | Some e => ret (false, Some e)
  | None =>
      err <- writeDeclarationDDM (Declaration.Identifier d) ;;
      match err with
      | Some e => ret (false, Some e)
      | None => ret (true, None)
      end
  end.

Fixpoint deleteEach (items : list dsGenericItem.t) : M unit :=
  match items with
  | [] => ret tt
  | item :: rest => _ <- deleteSingleItem item ;; deleteEach rest
  end.

(** [DeleteDeclaration] *)
Definition DeleteDeclaration (identifier : string) : M (bool * option error) :=
  '(declaration, err) <-
    GetSingleItemPKSK ("dec#" +++ identifier) "dec#"
      (zero : dsDeclaration.t) ;;
  match err with
  | Some e => ret (false, Some e)
  | None =>
      _ <- deleteSingleItem declaration ;;
      '(items, err) <-
        GetReverseItems ("dec#" +++ identifier) "set#"
          ([] : list dsGenericItem.t) ;;
      match err with
      | Some e => ret (false, Some e)
      | None => _ <- deleteEach items ;; ret (true, None)
      end
  end.

(** *** Sets *)

(** [StoreSetDeclaration] *)
Definition StoreSetDeclaration (setName declarationID : string)
    : M (bool * option error) :=
  '(decItem, err) <-
    GetSingleItemPKSK ("dec#" +++ declarationID) "dec#"
      (zero : dsDeclaration.t) ;;
  match err, String.eqb (dsDeclaration.JSON decItem) "" with
  | None, false =>
      let declarationSetItem :=
        dsGenericItem.mk ("set#" +++ setName) ("dec#" +++ declarationID) "" in
      err <- AddItem declarationSetItem ;;
      ret (true, err)
  | _, _ => ret (false, Some (wrap "checking declaration" err))
  end.

(** [RemoveSetDeclaration] *)
Definition RemoveSetDeclaration (setName declarationID : string)
    : M (bool * option error) :=
  let item :=
    dsGenericItem.mk ("set#" +++ setName) ("dec#" +++ declarationID) "" in
  _ <- deleteSingleItem item ;;
  ret (true, None).

(** [RetrieveDeclarationSets] *)
Definition RetrieveDeclarationSets (declarationID : string)
    : M (list string * option error) :=
  '(items, err) <-
    GetReverseItems ("dec#" +++ declarationID) "set#"
      ([] : list dsGenericItem.t) ;;
  match err with
  | Some e => ret ([], Some e)
  | None =>
      ret (map (fun item => TrimPrefix (dsGenericItem.PK item) "set#") items,
           None)
  end.

(** *** Enrollments *)

(** [StoreEnrollmentSet] *)
Definition StoreEnrollmentSet (enrollmentID setName : string)
    : M (bool * option error) :=
  let item :=
    dsGenericItem.mk ("enroll#" +++ enrollmentID) ("set#" +++ setName) "" in
  err <- AddItem item ;;
  match err with
  | Some e => ret (false, Some e)
  | None =>
      err <- writeEnrollmentDDM enrollmentID ;;
      ret (true, err)
  end.

(** [RemoveEnrollmentSet] *)
Definition RemoveEnrollmentSet (enrollmentID setName : string)
    : M (bool * option error) :=
  let item :=
    dsGenericItem.mk ("enroll#" +++ enrollmentID) ("set#" +++ setName) "" in
  change <- deleteSingleItem item ;;
  err <- writeEnrollmentDDM enrollmentID ;;
  ret (change, err).

(** *** Status ([status.go]) *)

(** [readStatusValues]. The records always come out of the reader: see
    [parseStatusValues_total]. *)
Definition readStatusValues (enrollmentID : string)
    : M (list StatusValue * option error) :=
  '(item, err) <-
    GetSingleItemPKSK ("enroll#" +++ enrollmentID) "status#values"
      (zero : dsGenericItem.t) ;;
  match err with
  | Some e => ret ([], Some e)
  | None =>
      match parseStatusValues (dsGenericItem.Body item) with
      | Some r => ret r
      | None => panic
      end
  end.

(** [storeStatusValues] *)
Definition storeStatusValues (enrollmentID : string)
    (values : list StatusValue) : M (option error) :=
  if (List.length values <? 1)%nat then ret None
  else
    '(curValues, err) <- readStatusValues enrollmentID ;;
    match err with
    | Some e => ret (Some (ErrWrap "reading values" e))
    | None =>
        let values := mergeStatusValues curValues values in
        if (List.length values <? 1)%nat then ret None
        else
          let item :=
            dsGenericItem.mk ("enroll#" +++ enrollmentID) "status#values"
              (formatStatusValues values) in
          AddItem item
    end.

(** The item of [storeStatusDeclarations] for one entry of the report. *)
Definition declarationStatusItem (enrollmentID nowText : string)
    (dec : DeclarationStatus.t) : dsDeclarationStatus.t :=
  dsDeclarationStatus.mk
    ("enroll#" +++ enrollmentID)
    ("status#dec#" +++ DeclarationStatus.Identifier dec)
    nowText
    (DeclarationStatus.Identifier dec)
    (DeclarationStatus.Active dec)
    (DeclarationStatus.Valid dec)
    (DeclarationStatus.ServerToken dec)
    (DeclarationStatus.ManifestType dec)
    (DeclarationStatus.ReasonsJSON dec).

(** [storeStatusDeclarations] *)
Fixpoint storeStatusDeclarations (enrollmentID : string)
    (declarations : list DeclarationStatus.t) : M (option error) :=
  match declarations with
  | [] => ret None
  | dec :: rest =>
      now <- timeNow ;;
      match MarshalText now with
      | None => ret (Some (ErrWrap "marshal time to text" ErrMarshalTime))
      | Some nowText =>
          let item := declarationStatusItem enrollmentID nowText dec in
          err <- AddItem item ;;
          match err with
          | Some e => ret (Some e)
          | None => storeStatusDeclarations enrollmentID rest
          end
      end
  end.

(** The item of [storeStatusErrors] for one error of the report. *)
Definition statusErrorItem (enrollmentID nowText : string)
    (statusError : StatusError.t) : dsDecError.t :=
  dsDecError.mk
    ("enroll#" +++ enrollmentID)
    ("status#error#" +++ StatusError.Path statusError +++ "#" +++ nowText)
    nowText
    (StatusError.Path statusError)
    (StatusError.ErrorJSON statusError).

(** [storeStatusErrors] *)
Fixpoint storeStatusErrors (enrollmentID : string)
    (ddmErrors : list StatusError.t) : M (option error) :=
  match ddmErrors with
  | [] => ret None
  | statusError :: rest =>
      now <- timeNow ;;
      match MarshalText now with
      | None => ret (Some (ErrWrap "marshal time to text" ErrMarshalTime))
      | Some nowText =>
          let item := statusErrorItem enrollmentID nowText statusError in
          err <- AddItem item ;;
          match err with
          | Some e => ret (Some e)
          | None => storeStatusErrors enrollmentID rest
          end
      end
  end.

(** The items a report without values puts, in order, when the clock has
    been read [n] times before: the raw report, one item per declaration
    status, one item per error. *)
Definition clockText (n : nat) : string :=
  match MarshalText n with
  | Some nowText => nowText
  | None => ""
  end.

Fixpoint declarationStatusItems (enrollmentID : string) (n : nat)
    (declarations : list DeclarationStatus.t) : list Item :=
  match declarations with
  | [] => []
  | dec :: rest =>
      MarshalMap (declarationStatusItem enrollmentID (clockText n) dec)
      :: declarationStatusItems enrollmentID (S n) rest
  end.

Fixpoint statusErrorItems (enrollmentID : string) (n : nat)
    (ddmErrors : list StatusError.t) : list Item :=
  match ddmErrors with
  | [] => []
  | statusError :: rest =>
      MarshalMap (statusErrorItem enrollmentID (clockText n) statusError)
      :: statusErrorItems enrollmentID (S n) rest
  end.

Definition reportItems (enrollmentID : string) (status : StatusReport.t)
    (n : nat) : list Item :=
  MarshalMap
    (dsGenericItem.mk ("enroll#" +++ enrollmentID) "status#last"
       (StatusReport.Raw status))
  :: declarationStatusItems enrollmentID n (StatusReport.Declarations status)
  ++ statusErrorItems enrollmentID
       (n + List.length (StatusReport.Declarations status))
       (StatusReport.Errors status).

(** [StoreDeclarationStatus] *)
Definition StoreDeclarationStatus (enrollmentID : string)
    (status : StatusReport.t) : M (option error) :=
  let rawReport :=
    dsGenericItem.mk ("enroll#" +++ enrollmentID) "status#last"
      (StatusReport.Raw status) in
  err <- AddItem rawReport ;;
  match err with
  | Some e => ret (Some e)
  | None =>
      err <- storeStatusDeclarations enrollmentID
               (StatusReport.Declarations status) ;;
      match err with
      | Some e => ret (Some (ErrWrap "storing declaration status" e))
      | None =>
          err <- storeStatusValues enrollmentID (StatusReport.Values status) ;;
          match err with
          | Some e => ret (Some (ErrWrap "storing status values" e))
          | None =>
              err <- storeStatusErrors enrollmentID
                       (StatusReport.Errors status) ;;
              match err with
              | Some e => ret (Some (ErrWrap "storing status errors" e))
              | None => ret None
              end
          end
      end
  end.

End Storage.

(** ** A scenario

    Stand-ins for what the package takes from outside, to run the
    operations on concrete inputs: payloads are lists of [name=value]
    members separated by [;], the digest is a checksum, the builders
    list the identifiers, respectively the tokens, of the declarations they
    are fed. *)

Module Scenario.

Fixpoint splitOn (sep : ascii) (s : string) : list string :=
  match s with
  | EmptyString => [""]
  | String c s' =>
      if Ascii.eqb c sep then "" :: splitOn sep s'
      else match splitOn sep s' with
           | [] => [String c ""]
           | x :: xs => String c x :: xs
           end
  end.

Definition member (s : string) : option (string * string) :=
  match splitOn "="%char s with
  | [name; value] => Some (name, value)
  | _ => None
  end.

Fixpoint members (l : list string) : option (list (string * string)) :=
  match l with
  | [] => Some []
  | s :: l' =>
      match member s, members l' with
      | Some m, Some ms => Some (m :: ms)
      | _, _ => None
      end
  end.

Definition unmarshal (raw : string) : option (list (string * string)) :=
  members (splitOn ";"%char raw).

Definition marshal (m : list (string * string)) : string :=
  String.concat ";" (map (fun e => fst e +++ "=" +++ snd e) m).

Fixpoint member_of (name : string) (m : list (string * string)) : string :=
  match m with
  | [] => ""
  | (n, v) :: m' => if String.eqb n name then v else member_of name m'
  end.

Definition parse (raw : string) : option Declaration.t :=
  match unmarshal raw with
  | Some m =>
      if String.eqb (member_of "Identifier" m) "" then None
      else Some (Declaration.mk (member_of "Identifier" m)
                   (member_of "Type" m) raw)
  | None => None
  end.

Fixpoint checksum (acc : nat) (s : string) : nat :=
  match s with
  | EmptyString => acc
  | String c s' => checksum ((acc * 31 + nat_of_ascii c) mod 4093) s'
  end.

Definition digest (s : string) : string :=
  "h" +++ DecimalString.NilEmpty.string_of_uint (Nat.to_uint (checksum 7 s)).

Definition items (ds : list Declaration.t) : string :=
  String.concat "," (map Declaration.Identifier ds).

Definition tokens (ds : list Declaration.t) : string :=
  String.concat ","
    (map (fun d =>
            match unmarshal (Declaration.Raw d) with
            | Some m => member_of "ServerToken" m
            | None => ""
            end) ds).

Definition salt (n : nat) : string :=
  "salt" +++ String (ascii_of_nat (48 + n)) "".

Definition timeText (n : nat) : option string :=
  Some ("T" +++ String (ascii_of_nat (48 + n)) "").

Definition emptyWorld : World := mkWorld [] [] 0 0 [].

Definition run {A} (m : M A) (w : World) : World := snd (m w).

(** [json.Unmarshal] into a nil map: the payload [null] leaves it nil. *)
Definition decode (raw : string)
    : option (option (list (string * string))) :=
  if String.eqb raw "null" then Some None else option_map Some (unmarshal raw).

Definition storeDeclaration :=
  StoreDeclaration digest string (fun s => s) decode marshal parse
    items tokens salt.
Definition storeEnrollmentSet := StoreEnrollmentSet parse items tokens.
Definition recompute := writeEnrollmentDDM parse items tokens.
Definition setCascade := writeSetDDM parse items tokens.

Definition D1 : Declaration.t :=
  Declaration.mk "D1" "t" "Identifier=D1;Type=t;Payload=x".

(** The body of the document stored under an enrollment. *)
Definition document (w : World) (enrollmentID kind : string) : option string :=
  match lookup (tbl w) ("enroll#" +++ enrollmentID, kind) with
  | Some it =>
      match attr "body" (attrs it) with
      | Some (AvS s) => Some s
      | _ => Some ""
      end
  | None => None
  end.

Definition storedSalt (w : World) (declarationID : string) : option string :=
  match lookup (tbl w) ("dec#" +++ declarationID, "dec#") with
  | Some it =>
      match attr "salt" (attrs it) with
      | Some (AvS s) => Some s
      | _ => None
      end
  | None => None
  end.

(** D1 stored, linked to G1, and EN1 enrolled in G1. *)
Definition linked : World :=
  run (storeEnrollmentSet "EN1" "G1")
    (run (StoreSetDeclaration "G1" "D1")
       (run (storeDeclaration D1) emptyWorld)).

(** D1 stored, EN1 enrolled in G1, G1 still empty. *)
Definition enrolled : World :=
  run (storeEnrollmentSet "EN1" "G1")
    (run (storeDeclaration D1) emptyWorld).

(** A table in which the query of [writeSetDDM] finds three members of S,
    and a backing store whose fifth call fails: the first call is the
    query of the cascade, the next three are the recompute of E1, the fifth
    is the first of the recompute of E2. *)
Definition cascadeWorld : World :=
  mkWorld
    [mkItem "set#S" "enroll#E1" []; mkItem "set#S" "enroll#E2" [];
     mkItem "set#S" "enroll#E3" []]
    [false; false; false; false; true] 0 0 [].

(** A report without values. *)
Definition quietReport : StatusReport.t :=
  StatusReport.mk "raw"
    [DeclarationStatus.mk "D1" true "valid" "tok" "" ""]
    []
    [StatusError.mk ".p" "boom"].

Definition storeDeclarationStatus := StoreDeclarationStatus timeText.

End Scenario.

(** Sample status values. *)
Definition shortValue : StatusValue := mkStatusValue "ab" "" "" "".

Definition sampleValues : list StatusValue :=
  [mkStatusValue "abc" "" "" ""; mkStatusValue "xab" "" "" "";
   mkStatusValue "ab" "" "" "1"].

Definition storedValues : list StatusValue :=
  [mkStatusValue ".a" "" "string" "1"].

Definition reportedValues : list StatusValue :=
  [mkStatusValue ".a" "" "string" "1"; mkStatusValue ".a" "" "string" "2"].

(** The frame that watches nothing and allows every request. *)
Definition anyKey (k : Key) : bool := false.
Definition anyRequest (r : Request) : bool := true.

(** Every key but the two documents of one enrollment. *)
Definition notDocumentOf (enrollmentID : string) (k : Key) : bool :=
  negb (key_eqb k ("enroll#" +++ enrollmentID, "json")
        || key_eqb k ("enroll#" +++ enrollmentID, "tokens")).

(** The number of entries of [values] that match [v] on all four fields. *)
Definition countMatches (v : StatusValue) (values : list StatusValue) : nat :=
  List.length (filter (sameValue v) values).

(** ** Frames

    [frame K T w w']: from [w] to [w'] the table is the same under every
    key of [K], and the requests sent in between all satisfy [T]. *)

Definition frame (K : Key -> bool) (T : Request -> bool) (w w' : World)
    : Prop :=
  (forall k, K k = true -> lookup (tbl w') k = lookup (tbl w) k)
  /\ exists l, trace w' = trace w ++ l /\ forallb T l = true.

(** [framedQ K T m Q]: [m] keeps the frame, and what it returns satisfies
    [Q]. *)
Definition framedQ (K : Key -> bool) (T : Request -> bool) {A} (m : M A)
    (Q : A -> Prop) : Prop :=
  forall w, frame K T w (snd (m w)) /\ forall a, fst (m w) = Some a -> Q a.

Definition framed (K : Key -> bool) (T : Request -> bool) {A} (m : M A)
    : Prop :=
  framedQ K T m (fun _ => True).

(** The derived documents of the enrollments: the items whose sk is [json]
    or [tokens]. *)
Definition derivedDocument (k : Key) : bool :=
  String.eqb (snd k) "json" || String.eqb (snd k) "tokens".

(** The stored value sets: the items whose sk is [status#values]. *)
Definition valueSet (k : Key) : bool := String.eqb (snd k) "status#values".

(** Requests that write no item under a key of [K]. *)
Definition writesOutside (K : Key -> bool) (r : Request) : bool :=
  match r with
  | ReqPutItem it | ReqDeleteItem it => negb (K (keyOf it))
  | _ => true
  end.

(** Requests that put an item under a key outside [K], and nothing else. *)
Definition putsOutside (K : Key -> bool) (r : Request) : bool :=
  match r with
  | ReqPutItem it => negb (K (keyOf it))
  | _ => false
  end.

(** ** Streams of CSV text

    What the round trip through the writer and the reader is stated with. *)

Definition startsLF (s : string) : bool :=
  match s with
  | String d _ => Ascii.eqb d Csv.LF
  | EmptyString => false
  end.

(** No carriage return is immediately followed by a line feed. *)
Fixpoint noCRLF (s : string) : bool :=
  match s with
  | EmptyString => true
  | String c s' => negb (Ascii.eqb c Csv.CR && startsLF s') && noCRLF s'
  end.

Definition cleanValue (v : StatusValue) : bool :=
  noCRLF (Path v) && noCRLF (ContainerType v) && noCRLF (ValueType v)
  && noCRLF (Value v).

(** The record [storeStatusValues] writes for a value. *)
Definition valueRecord (v : StatusValue) : list string :=
  [Path v; ContainerType v; ValueType v; Value v].

Definition hasLF (s : string) : bool :=
  Csv.anyByte (fun c => Ascii.eqb c Csv.LF) s.

(** The two loops of the reader started on the first line of a stream. *)
Definition parseStream (fuel : nat) (stream : string) (fields : list string)
    : option (list string * option Csv.ParseErr * string) :=
  let '(line, inp, _) := Csv.ReadSlice stream in
  Csv.parseField fuel line inp fields.

Definition quotedStream (fuel : nat) (stream buf : string)
    (fields : list string)
    : option (list string * option Csv.ParseErr * string) :=
  let '(line, inp, _) := Csv.ReadSlice stream in
  Csv.quotedField fuel line inp buf fields.

(** The iterations the inner loop spends on the bytes of a quoted field:
    one per quote and one per line feed. *)
Fixpoint quotedSteps (field : string) : nat :=
  match field with
  | EmptyString => 0
  | String c field' =>
      (if Ascii.eqb c Csv.DQUOTE || Ascii.eqb c Csv.LF then 1 else 0)
      + quotedSteps field'
  end.

Definition fieldSteps (field : string) : nat :=
  if Csv.fieldNeedsQuotes field then quotedSteps field + 2 else 1.

Fixpoint recordSteps (record : list string) : nat :=
  match record with
  | [] => 0
  | field :: rest => fieldSteps field + recordSteps rest
  end.

(** What the writer puts after a field: the other fields, each after a
    comma, and the line feed. *)
Fixpoint afterField (rest : list string) (more : string) : string :=
  match rest with
  | [] => String Csv.LF more
  | field :: rest' =>
      String Csv.COMMA (Csv.writeField field +++ afterField rest' more)
  end.

(** [returns inp r]: the loops of the reader gave a result, and left no more
    unread input than [inp]. *)
Definition returns (inp : string)
    (r : option (list string * option Csv.ParseErr * string)) : Prop :=
  exists fields err rest,
    r = Some (fields, err, rest) /\ String.length rest <= String.length inp.

(** ** The retrieval side of the package *)

Module dsPKSKOnly.
Record t : Type := mk { PK : string; SK : string }.
End dsPKSKOnly.

(** [storage.StatusValue] and [storage.StatusError], as [status.go] fills
    them. *)
Module StorageStatusValue.
Record t : Type := mk { Path : string; Value : string }.
End StorageStatusValue.

Module StorageStatusError.
Record t (Time : Type) : Type := mk {
  Path : string; Error : string; Timestamp : Time
}.
Arguments mk {Time} _ _ _.
End StorageStatusError.

(** [ddm.DeclarationQueryStatus], as [RetrieveDeclarationStatus] fills it;
    [Reasons] is [None] for a nil interface. *)
Module DeclarationQueryStatus.
Record t (Reasons Time : Type) : Type := mk {
  Identifier : string; Active : bool; Valid : string;
  ServerToken : string; ManifestType : string;
  Reasons_ : option Reasons; StatusReceived : Time
}.
Arguments mk {Reasons Time} _ _ _ _ _ _ _.
End DeclarationQueryStatus.

Definition decodeBOOL (it : Item) (name : string) (cur : bool) : option bool :=
  match attr name (attrs it) with
  | None => Some cur
  | Some (AvBOOL b) => Some b
  | Some (AvS _) => None
  end.

#[export] Instance Zero_dsPKSKOnly : Zero dsPKSKOnly.t := dsPKSKOnly.mk "" "".

#[export] Instance Zero_dsDecError : Zero dsDecError.t :=
  dsDecError.mk "" "" "" "" "".

#[export] Instance Zero_dsDeclarationStatus : Zero dsDeclarationStatus.t :=
  dsDeclarationStatus.mk "" "" "" "" false "" "" "" "".

#[export] Instance Unmarshal_dsPKSKOnly : Unmarshal dsPKSKOnly.t :=
  fun it cur => (dsPKSKOnly.mk (pk it) (sk it), None).

#[export] Instance Unmarshal_dsDecError : Unmarshal dsDecError.t :=
  fun it cur =>
    match decodeS it "statusTime" (dsDecError.Time cur),
          decodeS it "path" (dsDecError.Path cur),
          decodeS it "body" (dsDecError.Body cur) with
    | Some time, Some path, Some body =>
        (dsDecError.mk (pk it) (sk it) time path body, None)
    | _, _, _ => (cur, Some ErrUnmarshalType)
    end.

#[export] Instance Unmarshal_dsDeclarationStatus
    : Unmarshal dsDeclarationStatus.t :=
  fun it cur =>
    match decodeS it "statusTime" (dsDeclarationStatus.Time cur),
          decodeS it "statusID" (dsDeclarationStatus.Identifier cur),
          decodeBOOL it "statusActive" (dsDeclarationStatus.Active cur),
          decodeS it "statusValid" (dsDeclarationStatus.Valid cur),
          decodeS it "server-token" (dsDeclarationStatus.ServerToken cur),
          decodeS it "statusType" (dsDeclarationStatus.ManifestType cur),
          decodeS it "statusResons" (dsDeclarationStatus.ReasonsJSON cur) with
    | Some time, Some id, Some active, Some valid, Some token, Some ty,
      Some reasons =>
        (dsDeclarationStatus.mk (pk it) (sk it) time id active valid token
           ty reasons, None)
    | _, _, _, _, _, _, _ => (cur, Some ErrUnmarshalType)
    end.

(** A struct handed over by value, not through a pointer: the decoder
    rejects the target and sets nothing. *)
Record ByValue (T : Type) : Type := byValue { held : T }.
Arguments byValue {T} _.
Arguments held {T} _.

#[export] Instance Unmarshal_ByValue {T} : Unmarshal (ByValue T) :=
  fun _ cur => (cur, Some ErrUnmarshalType).

(** *** Sets ([RetrieveSetDeclarations], [RetrieveSets]) *)

Definition RetrieveSetDeclarations (setName : string)
    : M (list string * option error) :=
  '(items, err) <-
    GetItemsSKBeginsWith ("set#" +++ setName) "dec#"
      ([] : list dsPKSKOnly.t) ;;
  match err with
  | Some e => ret ([], Some e)
  | None =>
      ret (map (fun item => TrimPrefix (dsPKSKOnly.SK item) "dec#") items,
           None)
  end.

Definition RetrieveSets : M (list string * option error) :=
  '(items, err) <-
    GetItemsSKBeginsWith "set" "set#" ([] : list dsGenericItem.t) ;;
  match err with
  | Some e => ret ([], Some e)
  | None =>
      ret (map (fun item => TrimPrefix (dsGenericItem.SK item) "set#") items,
           None)
  end.

(** *** Enrollments ([RetrieveEnrollmentSets])

    The loop that fills [sets] runs under [err != nil]. (When the decode of
    an item fails, the Go decoder leaves in [dsSets] the items it decoded
    before; here a failing decode leaves the slice as it was. What is proved
    of this function is stated for tables whose items decode.) *)
Definition RetrieveEnrollmentSets (enrollmentID : string)
    : M (list string * option error) :=
  '(dsSets, err) <-
    GetItemsSKBeginsWith ("enroll#" +++ enrollmentID) "set#"
      ([] : list dsGenericItem.t) ;;
  match err with
  | Some e =>
      ret (map (fun item => TrimPrefix (dsGenericItem.SK item) "set#") dsSets,
           Some e)
  | None => ret ([], None)
  end.

(** *** Declarations ([RetrieveDeclarations]) *)

Definition RetrieveDeclarations : M (list string * option error) :=
  '(declarations, err) <-
    GetReverseItems "dec#" "dec#" ([] : list dsDeclaration.t) ;;
  match err with
  | Some e => ret ([], Some e)
  | None =>
      ret (map (fun dec => TrimPrefix (dsDeclaration.PK dec) "dec#")
             declarations,
           None)
  end.

(** *** Documents ([ddm.go]) *)

Definition RetrieveEnrollmentDeclarationJSON
    (declarationID declarationType enrollmentID : string)
    : M (string * option error) :=
  '(item, err) <-
    GetSingleItemPKSK ("dec#" +++ declarationID) "dec#"
      (zero : dsDeclaration.t) ;;
  match err with
  | Some e => ret ("", Some e)
  | None => ret (dsDeclaration.JSON item, None)
  end.

Definition RetrieveDeclarationItemsJSON (enrollmentID : string)
    : M (string * option error) :=
  '(item, err) <-
    GetSingleItemPKSK ("enroll#" +++ enrollmentID) "json"
      (zero : dsGenericItem.t) ;;
  match err with
  | Some e => ret ("", Some e)
  | None => ret (dsGenericItem.Body item, None)
  end.

Definition RetrieveTokensJSON (enrollmentID : string)
    : M (string * option error) :=
  '(item, err) <-
    GetSingleItemPKSK ("enroll#" +++ enrollmentID) "tokens"
      (zero : dsGenericItem.t) ;;
  match err with
  | Some e => ret ("", Some e)
  | None => ret (dsGenericItem.Body item, None)
  end.

(** *** Status ([RetrieveStatusValues]) *)

(** One round of the loop of [RetrieveStatusValues]; [ret] is the Go map
    under construction. *)
Fixpoint statusValuesOf (enrollmentIDs : list string) (pathPrefix : string)
    (ret_ : list (string * list StorageStatusValue.t))
    : M (list (string * list StorageStatusValue.t) * option error) :=
  match enrollmentIDs with
  | [] => ret (ret_, None)
  | enrollmentID :: rest =>
      '(values, err) <- readStatusValues enrollmentID ;;
      match err with
      | Some e => ret ([], Some (ErrWrap "reading status values" e))
      | None =>
          match (if String.eqb pathPrefix "" then Some values
                 else filterPathPrefix values pathPrefix) with
          | None => panic
          | Some values =>
              let sValues :=
                map (fun v => StorageStatusValue.mk (Path v) (Value v))
                  values in
              statusValuesOf rest pathPrefix
                (if (0 <? List.length sValues)%nat
                 then map_set _ enrollmentID sValues ret_
                 else ret_)
          end
      end
  end.

Definition RetrieveStatusValues (enrollmentIDs : list string)
    (pathPrefix : string)
    : M (list (string * list StorageStatusValue.t) * option error) :=
  statusValuesOf enrollmentIDs pathPrefix [].

(** [m[key]] on a Go map. *)
Fixpoint map_index {V} (m : list (string * V)) (key : string) : option V :=
  match m with
  | [] => None
  | (k, v) :: m' => if String.eqb k key then Some v else map_index m' key
  end.

Section Retrieval.

(** What the retrieval takes from outside: [UnmarshalText] is
    [time.Time.UnmarshalText]; [json_Unmarshal_reasons] is [json.Unmarshal]
    into an empty interface; [json_Unmarshal_items] is [json.Unmarshal] into
    [ddm.DeclarationItems]. *)
Variable Time : Type.
Variable Reasons : Type.
Variable DeclarationItems : Type.
Variable UnmarshalText : string -> option Time.
Variable json_Unmarshal_reasons : string -> option Reasons.
Variable json_Unmarshal_items : string -> option DeclarationItems.

(** The declarations of the sets of an enrollment, as both status
    retrievals collect them; the errors of the two reads are dropped. *)
Fixpoint declarationsOfSets (sets : list string) (decs : list string)
    : M (list string) :=
  match sets with
  | [] => ret decs
  | set :: rest =>
      '(setDecs, _) <- RetrieveSetDeclarations set ;;
      declarationsOfSets rest (decs ++ setDecs)
  end.

Definition enrollmentDeclarations (enrollmentID : string) : M (list string) :=
  '(sets, _) <- RetrieveEnrollmentSets enrollmentID ;;
  declarationsOfSets sets [].

(** The loop over [decs] of [RetrieveDeclarationStatus]. *)
Fixpoint declarationStatuses (enrollmentID : string) (decs : list string)
    (manifestMap : list (string * DeclarationQueryStatus.t Reasons Time))
    : M (list (string * DeclarationQueryStatus.t Reasons Time)
         * option error) :=
  match decs with
  | [] => ret (manifestMap, None)
  | dec :: rest =>
      '(item, err) <-
        GetSingleItemPKSK ("enroll#" +++ enrollmentID)
          ("status#dec#" +++ dec) (zero : dsDeclarationStatus.t) ;;
      match err with
      | Some e => ret ([], Some e)
      | None =>
          let reasonsJSON := dsDeclarationStatus.ReasonsJSON item in
          match (if (0 <? String.length reasonsJSON)%nat
                 then option_map Some (json_Unmarshal_reasons reasonsJSON)
                 else Some None) with
          | None => ret ([], Some (ErrWrap "unmarshal reason json" ErrJSON))
          | Some ddmError =>
              match UnmarshalText (dsDeclarationStatus.Time item) with
              | None => ret ([], Some (ErrWrap "unmarshal time" ErrMarshalTime))
              | Some ts =>
                  declarationStatuses enrollmentID rest
                    (map_set _ dec
                       (DeclarationQueryStatus.mk dec
                          (dsDeclarationStatus.Active item)
                          (dsDeclarationStatus.Valid item)
                          (dsDeclarationStatus.ServerToken item)
                          (dsDeclarationStatus.ManifestType item)
                          ddmError ts)
                       manifestMap)
              end
          end
      end
  end.

(** [RetrieveDeclarationStatus]. The loop over [items] runs over a slice
    that is never filled; the statuses are listed in the order of the map,
    which Go leaves unspecified. *)
Fixpoint declarationStatusOf (enrollmentIDs : list string)
    (ret_ : list (string * list (DeclarationQueryStatus.t Reasons Time)))
    : M (list (string * list (DeclarationQueryStatus.t Reasons Time))
         * option error) :=
  match enrollmentIDs with
  | [] => ret (ret_, None)
  | enrollmentID :: rest =>
      decs <- enrollmentDeclarations enrollmentID ;;
      '(manifestMap, err) <- declarationStatuses enrollmentID decs [] ;;
      match err with
      | Some e => ret ([], Some e)
      | None =>
          declarationStatusOf rest
            (map_set _ enrollmentID (map snd manifestMap) ret_)
      end
  end.

Definition RetrieveDeclarationStatus (enrollmentIDs : list string)
    : M (list (string * list (DeclarationQueryStatus.t Reasons Time))
         * option error) :=
  declarationStatusOf enrollmentIDs [].

(** The loop over [decs] of [RetrieveStatusErrors]: the item is handed to
    [GetSingleItemPKSK] by value, so it stays the zero record and the error
    is dropped; the reasons of the zero record are then decoded. *)
Fixpoint checkDeclarationItems (enrollmentID : string) (decs : list string)
    : M (option error) :=
  match decs with
  | [] => ret None
  | dec :: rest =>
      '(item, _) <-
        GetSingleItemPKSK ("enroll#" +++ enrollmentID)
          ("dec#status#" +++ dec)
          (byValue (zero : dsDeclarationStatus.t)) ;;
      match json_Unmarshal_items
              (dsDeclarationStatus.ReasonsJSON (held item)) with
      | None =>
          ret (Some (ErrWrap "decoding declaration items json" ErrJSON))
      | Some _ => checkDeclarationItems enrollmentID rest
      end
  end.

(** The loop over [items] of [RetrieveStatusErrors]. *)
Fixpoint statusErrorsOfItems (items : list dsDecError.t)
    (ddmErrors : list (StorageStatusError.t Time))
    : list (StorageStatusError.t Time) * option error :=
  match items with
  | [] => (ddmErrors, None)
  | item :: rest =>
      match UnmarshalText (dsDecError.Time item) with
      | None => ([], Some (ErrWrap "unmarshal time" ErrMarshalTime))
      | Some ts =>
          statusErrorsOfItems rest
            (ddmErrors
             ++ [StorageStatusError.mk (dsDecError.Path item)
                   (dsDecError.Body item) ts])
      end
  end.

(** [RetrieveStatusErrors]; [offset] and [limit] are not used. *)
Fixpoint statusErrorsOf (enrollmentIDs : list string)
    (ret_ : list (string * list (StorageStatusError.t Time)))
    : M (list (string * list (StorageStatusError.t Time)) * option error) :=
  match enrollmentIDs with
  | [] => ret (ret_, None)
  | enrollmentID :: rest =>
      decs <- enrollmentDeclarations enrollmentID ;;
      err <- checkDeclarationItems enrollmentID decs ;;
      match err with
      | Some e => ret ([], Some e)
      | None =>
          '(items, err) <-
            GetItemsSKBeginsWith ("enroll#" +++ enrollmentID) "status#error#"
              ([] : list dsDecError.t) ;;
          match err with
          | Some e => ret ([], Some e)
          | None =>
              match statusErrorsOfItems items [] with
              | (_, Some e) => ret ([], Some e)
              | (ddmErrors, None) =>
                  statusErrorsOf rest (map_set _ enrollmentID ddmErrors ret_)
              end
          end
      end
  end.

Definition RetrieveStatusErrors (enrollmentIDs : list string)
    (offset limit : Z)
    : M (list (string * list (StorageStatusError.t Time)) * option error) :=
  statusErrorsOf enrollmentIDs [].

End Retrieval.

(** ** What an operation does to the table

    [keeps R m]: the table [m] leaves is related by [R] to the table it
    found. *)
Definition keeps (R : Table -> Table -> Prop) {A} (m : M A) : Prop :=
  forall w, R (tbl w) (tbl (snd (m w))).

(** An item whose [body] attribute, if it has one, is a string: the items
    that decode into a [dsGenericItem]. *)
Definition plainBody (it : Item) : bool :=
  match attr "body" (attrs it) with
  | Some (AvBOOL _) => false
  | _ => true
  end.

(** ** Sequences of mutations

    The mutating methods of the storage, as a caller invokes them one after
    the other on the same table; what each call returns is dropped. *)

Inductive Mutation : Type :=
| MStoreDeclaration (d : Declaration.t)
| MDeleteDeclaration (identifier : string)
| MStoreSetDeclaration (setName declarationID : string)
| MRemoveSetDeclaration (setName declarationID : string)
| MStoreEnrollmentSet (enrollmentID setName : string)
| MRemoveEnrollmentSet (enrollmentID setName : string)
| MStoreDeclarationStatus (enrollmentID : string) (status : StatusReport.t).

Section Mutations.

Variable newHash : string -> string.
Variable JV : Type.
Variable JString : string -> JV.
Variable json_Unmarshal : string -> option (option (list (string * JV))).
Variable json_Marshal : list (string * JV) -> string.
Variable ParseDeclaration : string -> option Declaration.t.
Variable DeclarationItemsJSON : list Declaration.t -> string.
Variable TokensJSON : list Declaration.t -> string.
Variable rand_Read : nat -> string.
Variable MarshalText : nat -> option string.

Definition mutate (m : Mutation) (w : World) : World :=
  match m with
  | MStoreDeclaration d =>
      snd (StoreDeclaration newHash JV JString json_Unmarshal json_Marshal
             ParseDeclaration DeclarationItemsJSON TokensJSON rand_Read d w)
  | MDeleteDeclaration identifier => snd (DeleteDeclaration identifier w)
  | MStoreSetDeclaration setName declarationID =>
      snd (StoreSetDeclaration setName declarationID w)
  | MRemoveSetDeclaration setName declarationID =>
      snd (RemoveSetDeclaration setName declarationID w)
  | MStoreEnrollmentSet enrollmentID setName =>
      snd (StoreEnrollmentSet ParseDeclaration DeclarationItemsJSON TokensJSON
             enrollmentID setName w)
  | MRemoveEnrollmentSet enrollmentID setName =>
      snd (RemoveEnrollmentSet ParseDeclaration DeclarationItemsJSON
             TokensJSON enrollmentID setName w)
  | MStoreDeclarationStatus enrollmentID status =>
      snd (StoreDeclarationStatus MarshalText enrollmentID status w)
  end.

Definition mutateAll (ms : list Mutation) (w : World) : World :=
  fold_left (fun w m => mutate m w) ms w.

End Mutations.

(** The keys the package writes items under: the record of a declaration,
    the edge from a set to a declaration, and, under an enrollment, the edge
    to a set, the two documents and the status items. *)
Definition packageKey (k : Key) : bool :=
  (HasPrefix (fst k) "dec#" && String.eqb (snd k) "dec#")
  || (HasPrefix (fst k) "set#" && HasPrefix (snd k) "dec#")
  || (HasPrefix (fst k) "enroll#"
      && (HasPrefix (snd k) "set#"
          || String.eqb (snd k) "json"
          || String.eqb (snd k) "tokens"
          || String.eqb (snd k) "status#last"
          || HasPrefix (snd k) "status#dec#"
          || String.eqb (snd k) "status#values"
          || HasPrefix (snd k) "status#error#")).

(** The items the package writes: under one of its keys, and with a string
    for a body if there is one. *)
Definition packageItem (it : Item) : bool :=
  packageKey (keyOf it) && plainBody it.

Definition packageTable (t : Table) : Prop :=
  forall it, In it t -> packageItem it = true.
(** * Properties *)

(** ** Go's [strings] package *)

Lemma append_nil_r (s : string) : s +++ "" = s.
Proof. induction s; simpl; congruence. Qed.

Lemma append_assoc (a b c : string) : (a +++ b) +++ c = a +++ b +++ c.
Proof. induction a; simpl; congruence. Qed.

Lemma length_append (a b : string) :
  String.length (a +++ b) = String.length a + String.length b.
Proof. induction a; simpl; congruence. Qed.

Lemma substring_all (s : string) : substring 0 (String.length s) s = s.
Proof. induction s; simpl; congruence. Qed.

Lemma substring_skip (a b : string) (m : nat) :
  substring (String.length a) m (a +++ b) = substring 0 m b.
Proof. induction a; simpl; auto. Qed.

Lemma substring_split (s : string) (n : nat) :
  n <= String.length s ->
  s = substring 0 n s +++ substring n (String.length s - n) s.
Proof.
  revert n; induction s as [|c s IH]; intros n Hn; simpl in *.
  - destruct n; [reflexivity | lia].
  - destruct n as [|n]; simpl.
    + now rewrite substring_all.
    + f_equal. apply IH. lia.
Qed.

Lemma sliceFrom_append (a b : string) :
  sliceFrom (a +++ b) (String.length a) = b.
Proof.
  unfold sliceFrom. rewrite length_append, substring_skip.
  replace (String.length a + String.length b - String.length a)
    with (String.length b) by lia.
  apply substring_all.
Qed.

Lemma HasPrefix_iff (s p : string) :
  HasPrefix s p = true <-> exists r, s = p +++ r.
Proof.
  revert s; induction p as [|c p IH]; intros s; simpl.
  - split; [intros _; now exists s | reflexivity].
  - destruct s as [|d s].
    + split; [discriminate | intros [r Hr]; discriminate].
    + rewrite andb_true_iff, Ascii.eqb_eq, IH. split.
      * intros [-> [r ->]]. now exists r.
      * intros [r Hr]. injection Hr as -> ->. eauto.
Qed.

Lemma HasPrefix_append (p r : string) : HasPrefix (p +++ r) p = true.
Proof. apply HasPrefix_iff. eauto. Qed.

Lemma HasSuffix_iff (s suf : string) :
  HasSuffix s suf = true <-> exists r, s = r +++ suf.
Proof.
  unfold HasSuffix. rewrite andb_true_iff, Nat.leb_le, String.eqb_eq. split.
  - intros [Hle Heq].
    exists (substring 0 (String.length s - String.length suf) s).
    pose proof (substring_split s (String.length s - String.length suf)) as E.
    unfold sliceFrom in Heq. rewrite Heq in E. apply E. lia.
  - intros [r ->]. rewrite length_append. split; [lia|].
    replace (String.length r + String.length suf - String.length suf)
      with (String.length r) by lia.
    apply sliceFrom_append.
Qed.

Lemma Contains_iff (s sub : string) :
  Contains s sub = true <-> exists a b, s = a +++ sub +++ b.
Proof.
  induction s as [|c s IH]; simpl; rewrite orb_true_iff.
  - split.
    + intros [H|H]; [|discriminate].
      apply HasPrefix_iff in H as [r Hr]. now exists "", r.
    + intros [a [b H]]. left. apply HasPrefix_iff.
      destruct a; [eauto | discriminate].
  - rewrite IH. split.
    + intros [H|[a [b ->]]].
      * apply HasPrefix_iff in H as [r Hr]. now exists "", r.
      * now exists (String c a), b.
    + intros [[|d a] [b H]].
      * left. apply HasPrefix_iff. eauto.
      * right. injection H as -> ->. eauto.
Qed.


Lemma substring_prefix (a b : string) :
  substring 0 (String.length a) (a +++ b) = a.
Proof.
  induction a as [|c a IH]; simpl.
  - destruct b; reflexivity.
  - now rewrite IH.
Qed.

Lemma HasSuffix_append (r suf : string) : HasSuffix (r +++ suf) suf = true.
Proof. apply HasSuffix_iff. eauto. Qed.

Lemma slice_middle (a b c : string) :
  slice (a +++ b +++ c) (String.length a) (String.length a + String.length b)
  = Some b.
Proof.
  unfold slice.
  replace (String.length a <=? String.length a + String.length b)%nat
    with true by (symmetry; apply Nat.leb_le; lia).
  replace (String.length a + String.length b
           <=? String.length (a +++ b +++ c))%nat
    with true
    by (symmetry; apply Nat.leb_le; rewrite !length_append; lia).
  cbn [andb]. rewrite substring_skip.
  replace (String.length a + String.length b - String.length a)
    with (String.length b) by lia.
  now rewrite substring_prefix.
Qed.

(** ** Path filters *)

Section PathFilter.

Variable foo : string.

Lemma slice_inner :
  slice ("%" +++ foo +++ "%") 1 (String.length ("%" +++ foo +++ "%") - 1)
  = Some foo.
Proof.
  replace (String.length ("%" +++ foo +++ "%") - 1)
    with (String.length "%" + String.length foo)
    by (rewrite !length_append; simpl; lia).
  apply (slice_middle "%" foo "%").
Qed.

Lemma slice_tail :
  slice ("%" +++ foo) 1 (String.length ("%" +++ foo)) = Some foo.
Proof.
  replace (String.length ("%" +++ foo))
    with (String.length "%" + String.length foo)
    by (rewrite !length_append; simpl; lia).
  rewrite <- (append_nil_r foo) at 1. apply (slice_middle "%" foo "").
Qed.

Lemma slice_front :
  slice (foo +++ "%") 0 (String.length (foo +++ "%") - 1) = Some foo.
Proof.
  replace (String.length (foo +++ "%") - 1)
    with (String.length "" + String.length foo)
    by (rewrite !length_append; simpl; lia).
  apply (slice_middle "" foo "%").
Qed.

Lemma pathFound_both (path : string) :
  3 <= String.length path ->
  pathFound ("%" +++ foo +++ "%") path = Some (Contains path foo).
Proof.
  intros Hlen. unfold pathFound.
  replace (3 <=? String.length path)%nat with true
    by (symmetry; apply Nat.leb_le; lia).
  replace (HasSuffix ("%" +++ foo +++ "%") "%") with true
    by (symmetry; rewrite <- append_assoc; apply HasSuffix_append).
  rewrite HasPrefix_append. cbn [andb]. now rewrite slice_inner.
Qed.

Lemma pathFound_leading (path : string) :
  HasSuffix ("%" +++ foo) "%" = false ->
  pathFound ("%" +++ foo) path = Some (HasSuffix path foo).
Proof.
  intros Hsuf. unfold pathFound.
  rewrite Hsuf, HasPrefix_append, andb_false_r. now rewrite slice_tail.
Qed.

Lemma pathFound_trailing (path : string) :
  HasPrefix (foo +++ "%") "%" = false ->
  pathFound (foo +++ "%") path = Some (HasPrefix path foo).
Proof.
  intros Hpre. unfold pathFound.
  rewrite Hpre, HasSuffix_append, andb_false_r. cbn [andb].
  now rewrite slice_front.
Qed.

Lemma pathFound_plain (path : string) :
  HasPrefix foo "%" = false -> HasSuffix foo "%" = false ->
  pathFound foo path = Some (String.eqb path foo).
Proof.
  intros Hpre Hsuf. unfold pathFound.
  now rewrite Hpre, Hsuf, andb_false_r.
Qed.

End PathFilter.

Lemma filterPathPrefix_loop_filter (f : StatusValue -> bool)
    (pathPrefix : string) (values ret : list StatusValue) :
  (forall v, In v values -> pathFound pathPrefix (Path v) = Some (f v)) ->
  filterPathPrefix_loop values pathPrefix ret = Some (ret ++ filter f values).
Proof.
  revert ret; induction values as [|v values IH]; intros ret Hf; simpl.
  - now rewrite app_nil_r.
  - rewrite (Hf v (or_introl eq_refl)).
    rewrite IH by (intros u Hu; apply Hf; now right).
    destruct (f v); [now rewrite <- app_assoc | reflexivity].
Qed.

Lemma filterPathPrefix_filter (f : StatusValue -> bool) (P : StatusValue -> Prop)
    (pathPrefix : string) (values : list StatusValue) :
  (forall v, In v values -> pathFound pathPrefix (Path v) = Some (f v)) ->
  (forall v, f v = true <-> P v) ->
  exists ret,
    filterPathPrefix values pathPrefix = Some ret
    /\ forall v, In v ret <-> In v values /\ P v.
Proof.
  intros Hf HP. exists (filter f values). split.
  - unfold filterPathPrefix. now rewrite (filterPathPrefix_loop_filter f).
  - intros v. split.
    + intros Hin. apply filter_In in Hin as [Hin Hfv]. split; [assumption|].
      now apply HP.
    + intros [Hin HPv]. apply filter_In. split; [assumption|]. now apply HP.
Qed.




(** ** Merging status values *)

Lemma sameValue_iff (v value : StatusValue) :
  sameValue v value = true <-> v = value.
Proof.
  unfold sameValue. rewrite !andb_true_iff, !String.eqb_eq.
  destruct v, value; simpl. split.
  - intros [[[-> ->] ->] ->]. reflexivity.
  - intros H; injection H as -> -> -> ->. auto.
Qed.

Lemma sameValue_refl (v : StatusValue) : sameValue v v = true.
Proof. now apply sameValue_iff. Qed.

Lemma StatusValue_eq_dec (u v : StatusValue) : {u = v} + {u <> v}.
Proof.
  destruct (sameValue u v) eqn:E.
  - left. now apply sameValue_iff.
  - right. intros H. apply sameValue_iff in H. congruence.
Qed.

Lemma containsValue_from_absent (values : list StatusValue) (v : StatusValue)
    (i : Z) :
  (0 <= i)%Z ->
  ((containsValue_from i values v <? 0)%Z = true <-> ~ In v values).
Proof.
  revert i; induction values as [|value values IH]; intros i Hi; simpl.
  - split; [tauto | reflexivity].
  - destruct (sameValue v value) eqn:E.
    + apply sameValue_iff in E as <-. split.
      * intros H. apply Z.ltb_lt in H. lia.
      * intros H. exfalso. apply H. now left.
    + rewrite IH by lia. split.
      * intros H [<-|Hin]; [|tauto]. now rewrite sameValue_refl in E.
      * tauto.
Qed.

Lemma containsValue_absent (values : list StatusValue) (v : StatusValue) :
  (containsValue values v <? 0)%Z = true <-> ~ In v values.
Proof. apply containsValue_from_absent. lia. Qed.

Lemma mergeStatusValues_cons (dst src : list StatusValue) (s : StatusValue) :
  mergeStatusValues dst (s :: src)
  = mergeStatusValues
      (if (containsValue dst s <? 0)%Z then dst ++ [s] else dst) src.
Proof. reflexivity. Qed.

(** The result is [dst] followed by the values of [src] that [dst] lacks,
    each once. *)
Lemma mergeStatusValues_added (src dst : list StatusValue) :
  exists added,
    mergeStatusValues dst src = dst ++ added
    /\ NoDup added
    /\ forall u, In u added <-> In u src /\ ~ In u dst.
Proof.
  revert dst; induction src as [|s src IH]; intros dst.
  - exists []. simpl. rewrite app_nil_r. repeat split; try constructor; tauto.
  - rewrite mergeStatusValues_cons.
    destruct (containsValue dst s <? 0)%Z eqn:E.
    + apply containsValue_absent in E.
      destruct (IH (dst ++ [s])) as (added & Heq & Hnd & Hin).
      exists (s :: added). rewrite Heq, <- app_assoc. split; [reflexivity|].
      split.
      * constructor; [|assumption]. intros H. apply Hin in H as [_ H].
        apply H, in_or_app. right. now left.
      * intros u. simpl. rewrite Hin, in_app_iff. simpl.
        destruct (StatusValue_eq_dec s u) as [->|Hne]; tauto.
    + assert (Hs : In s dst).
      { destruct (in_dec StatusValue_eq_dec s dst) as [H|H]; [assumption|].
        apply containsValue_absent in H. congruence. }
      destruct (IH dst) as (added & Heq & Hnd & Hin).
      exists added. split; [assumption|]. split; [assumption|].
      intros u. rewrite Hin. simpl. split.
      * tauto.
      * intros [[<-|H] Hn]; [contradiction | tauto].
Qed.

Lemma countMatches_app (v : StatusValue) (l1 l2 : list StatusValue) :
  countMatches v (l1 ++ l2) = countMatches v l1 + countMatches v l2.
Proof. unfold countMatches. now rewrite filter_app, length_app. Qed.

Lemma countMatches_absent (v : StatusValue) (l : list StatusValue) :
  ~ In v l <-> countMatches v l = 0.
Proof.
  unfold countMatches. induction l as [|x l IH]; simpl.
  - tauto.
  - destruct (sameValue v x) eqn:E.
    + apply sameValue_iff in E as <-. simpl. split; [tauto | discriminate].
    + rewrite <- IH. split; [tauto|].
      intros H [<-|Hin]; [|tauto]. now rewrite sameValue_refl in E.
Qed.

Lemma countMatches_NoDup (v : StatusValue) (l : list StatusValue) :
  NoDup l -> In v l -> countMatches v l = 1.
Proof.
  induction 1 as [|x l Hx Hnd IH]; simpl; [tauto|].
  unfold countMatches in *. simpl. intros [->|Hin].
  - rewrite sameValue_refl. simpl. f_equal.
    now apply (countMatches_absent v l).
  - destruct (sameValue v x) eqn:E.
    + apply sameValue_iff in E as <-. contradiction.
    + auto.
Qed.

(** Merging [src] into [dst] keeps [dst] as it is and appends only tuples
    of [src] that match no entry of [dst]; for a tuple [v] of [src], a
    match already in [dst] is not duplicated, a tuple that differs from
    every entry of [dst] is appended as one further entry, and a list
    without duplicates ends up with exactly one entry that matches [v] on
    all four fields. *)
Lemma mergeStatusValues_counts (dst src : list StatusValue)
    (v : StatusValue) :
  In v src ->
  (exists added,
     mergeStatusValues dst src = dst ++ added
     /\ forall u, In u added -> In u src /\ ~ In u dst)
  /\ (0 < countMatches v dst ->
      countMatches v (mergeStatusValues dst src) = countMatches v dst)
  /\ (countMatches v dst = 0 ->
      countMatches v (mergeStatusValues dst src) = 1
      /\ In v (mergeStatusValues dst src))
  /\ (NoDup dst ->
      NoDup (mergeStatusValues dst src)
      /\ countMatches v (mergeStatusValues dst src) = 1).
Proof.
  intros Hv.
  destruct (mergeStatusValues_added src dst) as (added & Heq & Hnd & Hin).
  rewrite Heq. repeat split.
  - exists added. split; [reflexivity|]. intros u Hu. now apply Hin.
  - intros Hpos. rewrite countMatches_app.
    assert (H0 : countMatches v added = 0).
    { apply countMatches_absent. intros H. apply Hin in H as [_ H].
      apply countMatches_absent in H. lia. }
    lia.
  - rewrite countMatches_app, H.
    apply countMatches_absent in H.
    now rewrite (countMatches_NoDup v added Hnd) by now apply Hin.
  - apply in_or_app. right. apply Hin. split; [assumption|].
    now apply countMatches_absent.
  - apply NoDup_app; try assumption.
    intros u Hu Hu'. apply Hin in Hu' as [_ Hu']. contradiction.
  - rewrite countMatches_app.
    destruct (in_dec StatusValue_eq_dec v dst) as [Hd|Hd].
    + rewrite (countMatches_NoDup v dst H Hd).
      assert (H0 : countMatches v added = 0).
      { apply countMatches_absent. intros H'. apply Hin in H' as [_ H'].
        contradiction. }
      lia.
    + rewrite (countMatches_NoDup v added Hnd) by now apply Hin.
      apply countMatches_absent in Hd. lia.
Qed.

(** ** The table *)

Lemma key_eqb_eq (k1 k2 : Key) : key_eqb k1 k2 = true <-> k1 = k2.
Proof.
  destruct k1 as [a b], k2 as [c d]. unfold key_eqb; simpl.
  rewrite andb_true_iff, !String.eqb_eq. split.
  - intros [-> ->]. reflexivity.
  - intros H; injection H as -> ->. auto.
Qed.

Lemma key_eqb_refl (k : Key) : key_eqb k k = true.
Proof. now apply key_eqb_eq. Qed.

Lemma key_eqb_neq (k1 k2 : Key) : key_eqb k1 k2 = false <-> k1 <> k2.
Proof.
  rewrite <- key_eqb_eq. destruct (key_eqb k1 k2); split; congruence.
Qed.

Lemma string_compare_refl (s : string) : String.compare s s = Eq.
Proof.
  pose proof (String.compare_antisym s s) as H.
  destruct (String.compare s s); simpl in H; congruence.
Qed.

Lemma key_compare_eq (k1 k2 : Key) : key_compare k1 k2 = Eq <-> k1 = k2.
Proof.
  destruct k1 as [a b], k2 as [c d]. unfold key_compare; simpl. split.
  - destruct (String.compare a c) eqn:E; try discriminate.
    apply String.compare_eq_iff in E as ->.
    intros H. apply String.compare_eq_iff in H as ->. reflexivity.
  - intros H; injection H as -> ->.
    rewrite string_compare_refl. apply string_compare_refl.
Qed.

Lemma lookup_Some_key (t : Table) (k : Key) (it : Item) :
  lookup t k = Some it -> keyOf it = k.
Proof.
  induction t as [|x t IH]; simpl; [discriminate|].
  destruct (key_eqb (keyOf x) k) eqn:E.
  - intros H; injection H as <-. now apply key_eqb_eq.
  - exact IH.
Qed.

Lemma lookup_put_same (it : Item) (t : Table) :
  lookup (put it t) (keyOf it) = Some it.
Proof.
  induction t as [|x t IH]; simpl.
  - now rewrite key_eqb_refl.
  - destruct (key_compare (keyOf it) (keyOf x)) eqn:E; simpl.
    + now rewrite key_eqb_refl.
    + now rewrite key_eqb_refl.
    + destruct (key_eqb (keyOf x) (keyOf it)) eqn:E'; [|exact IH].
      apply key_eqb_eq in E'. rewrite E' in E.
      assert (H : key_compare (keyOf it) (keyOf it) = Eq)
        by now apply key_compare_eq.
      congruence.
Qed.

Lemma lookup_put_other (it : Item) (t : Table) (k : Key) :
  keyOf it <> k -> lookup (put it t) k = lookup t k.
Proof.
  intros Hne. apply key_eqb_neq in Hne.
  induction t as [|x t IH]; simpl.
  - now rewrite Hne.
  - destruct (key_compare (keyOf it) (keyOf x)) eqn:E; simpl.
    + apply key_compare_eq in E. rewrite Hne, <- E. now rewrite Hne.
    + now rewrite Hne.
    + now rewrite IH.
Qed.

Lemma lookup_remove_other (k' : Key) (t : Table) (k : Key) :
  k' <> k -> lookup (remove k' t) k = lookup t k.
Proof.
  intros Hne. induction t as [|x t IH]; simpl; [reflexivity|].
  destruct (key_eqb (keyOf x) k') eqn:E; simpl.
  - apply key_eqb_eq in E.
    replace (key_eqb (keyOf x) k) with false; [exact IH|].
    symmetry. apply key_eqb_neq. congruence.
  - now rewrite IH.
Qed.

(** ** Frames *)

Section Frame.

Variable K : Key -> bool.
Variable T : Request -> bool.

Local Abbreviation frame := (frame K T).
Local Abbreviation framedQ := (framedQ K T).
Local Abbreviation framed := (framed K T).

Lemma frame_refl (w : World) : frame w w.
Proof.
  split; [reflexivity|]. exists []. now rewrite app_nil_r.
Qed.

Lemma frame_same (w w' : World) :
  tbl w' = tbl w -> trace w' = trace w -> frame w w'.
Proof.
  intros Ht Htr. split.
  - intros k _. now rewrite Ht.
  - exists []. now rewrite app_nil_r.
Qed.

Lemma frame_trans (w1 w2 w3 : World) :
  frame w1 w2 -> frame w2 w3 -> frame w1 w3.
Proof.
  intros [H1 (l1 & E1 & F1)] [H2 (l2 & E2 & F2)]. split.
  - intros k Hk. now rewrite H2, H1.
  - exists (l1 ++ l2). rewrite E2, E1, <- app_assoc. split; [reflexivity|].
    now rewrite forallb_app, F1, F2.
Qed.

Lemma framedQ_ret {A} (a : A) (Q : A -> Prop) : Q a -> framedQ (ret a) Q.
Proof.
  intros HQ w. split; [apply frame_refl|].
  simpl. intros b H; injection H as <-. exact HQ.
Qed.

Lemma framedQ_panic {A} (Q : A -> Prop) : framedQ (@panic A) Q.
Proof. intros w. split; [apply frame_refl | discriminate]. Qed.

Lemma framedQ_bind {A B} (m : M A) (f : A -> M B) (Q : A -> Prop)
    (R : B -> Prop) :
  framedQ m Q -> (forall a, Q a -> framedQ (f a) R) -> framedQ (bind m f) R.
Proof.
  intros Hm Hf w. unfold bind. destruct (Hm w) as [Fm Qm].
  destruct (m w) as [[a|] w1]; simpl in *.
  - destruct (Hf a (Qm a eq_refl) w1) as [Ff Rf]. split; [|exact Rf].
    eapply frame_trans; eassumption.
  - split; [assumption | discriminate].
Qed.

Lemma framedQ_weaken {A} (m : M A) (Q R : A -> Prop) :
  framedQ m Q -> (forall a, Q a -> R a) -> framedQ m R.
Proof.
  intros Hm HQR w. destruct (Hm w) as [F HQ]. split; [assumption|].
  intros a Ha. auto.
Qed.

Lemma framed_ret {A} (a : A) : framed (ret a).
Proof. now apply framedQ_ret. Qed.

Lemma framed_bind {A B} (m : M A) (f : A -> M B) :
  framed m -> (forall a, framed (f a)) -> framed (bind m f).
Proof.
  intros Hm Hf. eapply framedQ_bind; [exact Hm|]. intros a _. apply Hf.
Qed.

Lemma framed_call (r : Request) : T r = true -> framed (call r).
Proof.
  intros HT w. split; [|auto]. split; [reflexivity|].
  exists [r]. simpl. now rewrite HT.
Qed.

Lemma framed_getTable : framed getTable.
Proof. intros w. split; [apply frame_refl | auto]. Qed.

Lemma framed_readRandom (rand_Read : nat -> string) :
  framed (readRandom rand_Read).
Proof. intros w. split; [now apply frame_same | auto]. Qed.

Lemma framed_timeNow : framed timeNow.
Proof. intros w. split; [now apply frame_same | auto]. Qed.

Lemma framed_put (it : Item) :
  K (keyOf it) = false ->
  framed (t <- getTable ;; _ <- setTable (put it t) ;; ret (@None error)).
Proof.
  intros HK w. split; [|auto]. split; simpl.
  - intros k Hk. apply lookup_put_other. congruence.
  - exists []. now rewrite app_nil_r.
Qed.

Lemma framed_remove {A} (k' : Key) (a : A) :
  K k' = false ->
  framed (t <- getTable ;; _ <- setTable (remove k' t) ;; ret a).
Proof.
  intros HK w. split; [|auto]. split; simpl.
  - intros k Hk. apply lookup_remove_other. congruence.
  - exists []. now rewrite app_nil_r.
Qed.

Lemma framed_AddItem {X} `{Marshal X} (item : X) :
  K (keyOf (MarshalMap item)) = false ->
  T (ReqPutItem (MarshalMap item)) = true ->
  framed (AddItem item).
Proof.
  intros HK HT. unfold AddItem. apply framed_bind.
  - now apply framed_call.
  - intros failed. destruct (_ || _).
    + apply framed_ret.
    + now apply framed_put.
Qed.

Lemma framed_deleteSingleItem {X} `{Marshal X} (item : X) :
  K (keyOf (MarshalMap item)) = false ->
  T (ReqDeleteItem (MarshalMap item)) = true ->
  framed (deleteSingleItem item).
Proof.
  intros HK HT. unfold deleteSingleItem. apply framed_bind.
  - now apply framed_call.
  - intros failed. destruct (_ || _).
    + apply framed_ret.
    + now apply framed_remove.
Qed.

Lemma framed_GetSingleItemPKSK {X} `{Unmarshal X} (pk sk : string)
    (result : X) :
  T (ReqGetItem pk sk) = true ->
  framed (GetSingleItemPKSK pk sk result).
Proof.
  intros HT. unfold GetSingleItemPKSK. apply framed_bind.
  - now apply framed_call.
  - intros failed. destruct failed; [apply framed_ret|].
    intros w. split; [|auto]. unfold bind, getTable; simpl.
    destruct (lookup (tbl w) (pk, sk)); apply frame_refl.
Qed.

Lemma framed_GetItemsSKBeginsWith {X} `{UnmarshalList X}
    (pk beginsWith : string) (result : X) :
  T (ReqQuery pk beginsWith) = true ->
  framed (GetItemsSKBeginsWith pk beginsWith result).
Proof.
  intros HT. unfold GetItemsSKBeginsWith. apply framed_bind.
  - now apply framed_call.
  - intros failed. destruct failed; [apply framed_ret|].
    intros w. split; [apply frame_refl | auto].
Qed.

Lemma framed_GetReverseItems {X} `{UnmarshalList X}
    (sk beginsWith : string) (result : X) :
  T (ReqQueryReverse sk beginsWith) = true ->
  framed (GetReverseItems sk beginsWith result).
Proof.
  intros HT. unfold GetReverseItems. apply framed_bind.
  - now apply framed_call.
  - intros failed. destruct failed; [apply framed_ret|].
    intros w. split; [apply frame_refl | auto].
Qed.

End Frame.

Ltac key_simpl :=
  unfold keyOf, MarshalMap, Marshal_dsGenericItem, Marshal_dsDeclaration,
    Marshal_dsDeclarationStatus, Marshal_dsDecError;
  cbn [pk sk attrs fst snd
       dsGenericItem.PK dsGenericItem.SK dsDeclaration.PK dsDeclaration.SK
       dsDeclarationStatus.PK dsDeclarationStatus.SK
       dsDecError.PK dsDecError.SK].

Ltac frame_step :=
  match goal with
  | |- framedQ _ _ (ret _) _ => apply framed_ret
  | |- framed _ _ (ret _) => apply framed_ret
  | |- framedQ _ _ panic _ => apply framedQ_panic
  | |- framed _ _ panic => apply framedQ_panic
  | |- framed _ _ (bind _ _) => apply framed_bind; [|intros]
  | |- framed _ _ (GetSingleItemPKSK _ _ _) =>
      apply framed_GetSingleItemPKSK
  | |- framed _ _ (GetItemsSKBeginsWith _ _ _) =>
      apply framed_GetItemsSKBeginsWith
  | |- framed _ _ (GetReverseItems _ _ _) => apply framed_GetReverseItems
  | |- framed _ _ (AddItem _) => apply framed_AddItem
  | |- framed _ _ (deleteSingleItem _) => apply framed_deleteSingleItem
  | |- framed _ _ (readRandom _) => apply framed_readRandom
  | |- framed _ _ timeNow => apply framed_timeNow
  | |- framed _ _ (match ?x with _ => _ end) => destruct x
  end.

(** ** What the DDM operations leave alone *)

Section FrameOperations.

Variable newHash : string -> string.
Variable JV : Type.
Variable JString : string -> JV.
Variable json_Unmarshal : string -> option (option (list (string * JV))).
Variable json_Marshal : list (string * JV) -> string.
Variable ParseDeclaration : string -> option Declaration.t.
Variable DeclarationItemsJSON : list Declaration.t -> string.
Variable TokensJSON : list Declaration.t -> string.
Variable rand_Read : nat -> string.

Variable K : Key -> bool.
Variable T : Request -> bool.

Hypothesis T_get : forall pk sk, T (ReqGetItem pk sk) = true.
Hypothesis T_query : forall pk b, T (ReqQuery pk b) = true.
Hypothesis T_reverse : forall sk b, T (ReqQueryReverse sk b) = true.
Hypothesis T_put : forall it, K (keyOf it) = false -> T (ReqPutItem it) = true.

Lemma framed_RetrieveDeclaration (declarationID : string) :
  framed K T (RetrieveDeclaration ParseDeclaration declarationID).
Proof. unfold RetrieveDeclaration. repeat frame_step; auto. Qed.

Lemma framed_collectDeclarations (sets acc : list string) :
  framed K T (collectDeclarations sets acc).
Proof.
  revert acc; induction sets as [|setName sets IH]; intros acc; simpl.
  - apply framed_ret.
  - repeat frame_step; auto.
Qed.

Lemma framed_addDeclarations (ids : list string) (added : list Declaration.t) :
  framed K T (addDeclarations ParseDeclaration ids added).
Proof.
  revert added; induction ids as [|id ids IH]; intros added; simpl.
  - apply framed_ret.
  - apply framed_bind; [apply framed_RetrieveDeclaration|].
    intros [dec e]. repeat frame_step; auto.
Qed.

Lemma framed_writeEnrollmentDDM (enrollmentID : string) :
  K ("enroll#" +++ enrollmentID, "json") = false ->
  K ("enroll#" +++ enrollmentID, "tokens") = false ->
  framed K T
    (writeEnrollmentDDM ParseDeclaration DeclarationItemsJSON TokensJSON
       enrollmentID).
Proof.
  intros K_json K_tokens.
  unfold writeEnrollmentDDM.
  apply framed_bind; [now apply framed_GetItemsSKBeginsWith|].
  intros [sets [e|]]; [apply framed_ret|].
  apply framed_bind; [apply framed_collectDeclarations|].
  intros [ids [e|]]; [apply framed_ret|].
  apply framed_bind; [apply framed_addDeclarations|].
  intros [added [e|]]; [apply framed_ret|].
  repeat frame_step; auto; try apply T_put; key_simpl; auto.
Qed.

Hypothesis K_json : forall pk, K (pk, "json") = false.
Hypothesis K_tokens : forall pk, K (pk, "tokens") = false.

Lemma framed_writeEach (ids : list string) :
  framed K T
    (writeEach ParseDeclaration DeclarationItemsJSON TokensJSON ids).
Proof.
  induction ids as [|id ids IH]; simpl.
  - apply framed_ret.
  - apply framed_bind; [now apply framed_writeEnrollmentDDM|].
    intros [e|]; [apply framed_ret | exact IH].
Qed.

Lemma framed_enrollmentsOfItems (items : list dsGenericItem.t)
    (enrollments : list string) :
  framed K T (enrollmentsOfItems items enrollments).
Proof.
  revert enrollments; induction items as [|item items IH];
    intros enrollments; simpl.
  - apply framed_ret.
  - repeat frame_step; auto.
Qed.

Lemma framed_declarationEnrollmentIDs (declarationID : string) :
  framed K T (declarationEnrollmentIDs declarationID).
Proof.
  unfold declarationEnrollmentIDs.
  apply framed_bind; [now apply framed_GetItemsSKBeginsWith|].
  intros [items [e|]]; [apply framed_ret|].
  apply framed_bind; [apply framed_enrollmentsOfItems|].
  intros. apply framed_ret.
Qed.

Lemma framed_writeDeclarationDDM (declarationID : string) :
  framed K T
    (writeDeclarationDDM ParseDeclaration DeclarationItemsJSON TokensJSON
       declarationID).
Proof.
  unfold writeDeclarationDDM.
  apply framed_bind; [apply framed_declarationEnrollmentIDs|].
  intros [ids [e|]]; [apply framed_ret | apply framed_writeEach].
Qed.

End FrameOperations.

(** ** Edges between sets and declarations *)

Lemma framed_StoreSetDeclaration (setName declarationID : string) :
  framed derivedDocument (writesOutside derivedDocument)
    (StoreSetDeclaration setName declarationID).
Proof.
  unfold StoreSetDeclaration.
  repeat frame_step; auto; key_simpl; reflexivity.
Qed.

Lemma framed_RemoveSetDeclaration (setName declarationID : string) :
  framed derivedDocument (writesOutside derivedDocument)
    (RemoveSetDeclaration setName declarationID).
Proof.
  unfold RemoveSetDeclaration.
  repeat frame_step; auto; key_simpl; reflexivity.
Qed.

(** Whatever the table holds, storing or removing the edge between a set
    and a declaration sends no request that writes a derived document, and
    leaves every derived document as it was. *)
Lemma set_declaration_edge_writes_no_document
    (setName declarationID : string) (w : World) :
  frame derivedDocument (writesOutside derivedDocument) w
    (snd (StoreSetDeclaration setName declarationID w))
  /\ frame derivedDocument (writesOutside derivedDocument) w
       (snd (RemoveSetDeclaration setName declarationID w)).
Proof.
  split.
  - apply framed_StoreSetDeclaration.
  - apply framed_RemoveSetDeclaration.
Qed.

(** C2 at a failing input. EN1 is a member of G1; storing the edge between
    G1 and D1 succeeds and leaves the manifest of EN1 as it was, without D1,
    where a recompute of EN1 lists D1; removing the edge again after such a
    recompute leaves D1 in the manifest. *)
Theorem StoreSetDeclaration_leaves_documents_stale :
  fst (RetrieveSetEnrollmentIDs "G1" Scenario.enrolled) = Some (["EN1"], None)
  /\ fst (StoreSetDeclaration "G1" "D1" Scenario.enrolled) = Some (true, None)
  /\ Scenario.document Scenario.enrolled "EN1" "json" = Some ""
  /\ Scenario.document
       (snd (StoreSetDeclaration "G1" "D1" Scenario.enrolled)) "EN1" "json"
     = Some ""
  /\ Scenario.document
       (snd (Scenario.recompute "EN1"
               (snd (StoreSetDeclaration "G1" "D1" Scenario.enrolled))))
       "EN1" "json"
     = Some "D1"
  /\ fst (RemoveSetDeclaration "G1" "D1" Scenario.linked) = Some (true, None)
  /\ Scenario.document
       (snd (RemoveSetDeclaration "G1" "D1" Scenario.linked)) "EN1" "json"
     = Some "D1".
Proof. vm_compute. repeat split. Qed.

(** ** Deleting a declaration *)

Ltac destruct_decode :=
  repeat match goal with
         | |- context [decodeS ?i ?n ?c] => destruct (decodeS i n c)
         end.

Lemma decodeEach_keys {X} `{Unmarshal X} (z : X) (key : X -> Key)
    (l : list Item) (xs : list X) :
  (forall it x, UnmarshalMap it z = (x, None) -> key x = keyOf it) ->
  decodeEach z l = Some xs ->
  forall x, In x xs -> exists it, In it l /\ key x = keyOf it.
Proof.
  intros Hkey. revert xs; induction l as [|it l IH]; intros xs; simpl.
  - intros E; injection E as <-. intros x [].
  - destruct (UnmarshalMap it z) as [y [e|]] eqn:Ey; [discriminate|].
    destruct (decodeEach z l) as [ys|]; [|discriminate].
    intros E; injection E as <-. intros x [<-|Hx].
    + exists it. split; [now left | now apply Hkey].
    + destruct (IH ys eq_refl x Hx) as (it' & Hin & Hk).
      exists it'. split; [now right | assumption].
Qed.

Lemma Unmarshal_dsGenericItem_key (it : Item) (x : dsGenericItem.t) :
  UnmarshalMap it (zero : dsGenericItem.t) = (x, None) ->
  (dsGenericItem.PK x, dsGenericItem.SK x) = keyOf it.
Proof.
  unfold UnmarshalMap, Unmarshal_dsGenericItem.
  destruct_decode; intros E; inversion E. reflexivity.
Qed.

Lemma Unmarshal_dsDeclaration_key (it : Item) (x : dsDeclaration.t) :
  UnmarshalMap it (zero : dsDeclaration.t) = (x, None) ->
  (dsDeclaration.PK x, dsDeclaration.SK x) = keyOf it.
Proof.
  unfold UnmarshalMap, Unmarshal_dsDeclaration.
  destruct_decode; intros E; inversion E; reflexivity.
Qed.

Section DeleteFrame.

Variable K : Key -> bool.
Variable T : Request -> bool.

Hypothesis T_get : forall pk sk, T (ReqGetItem pk sk) = true.
Hypothesis T_reverse : forall sk b, T (ReqQueryReverse sk b) = true.
Hypothesis T_delete :
  forall it, K (keyOf it) = false -> T (ReqDeleteItem it) = true.
Hypothesis K_empty : K ("", "") = false.

(** The record that [GetSingleItemPKSK] hands back carries the key that was
    asked for, or is the zero record. *)
Lemma GetSingleItemPKSK_dsDeclaration (p s : string) :
  framedQ K T (GetSingleItemPKSK p s (zero : dsDeclaration.t))
    (fun r =>
       (dsDeclaration.PK (fst r), dsDeclaration.SK (fst r)) = (p, s)
       \/ fst r = zero).
Proof.
  intros w. split; [now apply framed_GetSingleItemPKSK|].
  unfold GetSingleItemPKSK, bind, call, getTable, ret; simpl.
  destruct (hd false (faults w)); simpl.
  - intros a E; injection E as <-. now right.
  - destruct (lookup (tbl w) (p, s)) as [it|] eqn:L; simpl.
    + intros [x e] E; injection E as E. simpl.
      destruct e as [e|].
      * right. revert E. unfold UnmarshalMap, Unmarshal_dsDeclaration.
        destruct_decode; intros E; inversion E; reflexivity.
      * left. rewrite (Unmarshal_dsDeclaration_key it x E).
        now apply lookup_Some_key in L.
    + intros a E; injection E as <-. now right.
Qed.

(** The items that [GetReverseItems] hands back carry the sk that was
    asked for. *)
Lemma GetReverseItems_dsGenericItem (s b : string) :
  framedQ K T (GetReverseItems s b ([] : list dsGenericItem.t))
    (fun r => forall x, In x (fst r) -> dsGenericItem.SK x = s).
Proof.
  intros w. split; [now apply framed_GetReverseItems|].
  unfold GetReverseItems, bind, call, getTable, ret; simpl.
  destruct (hd false (faults w)); simpl.
  - intros a E; injection E as <-. intros x [].
  - intros [xs e] E; injection E as E. simpl.
    unfold UnmarshalListOfMaps, UnmarshalList_slice in E.
    destruct (decodeEach zero _) as [ys|] eqn:D.
    + injection E as <- <-. intros x Hx.
      destruct (decodeEach_keys zero
                  (fun x => (dsGenericItem.PK x, dsGenericItem.SK x))
                  _ ys Unmarshal_dsGenericItem_key D x Hx)
        as (it & Hin & Hk).
      unfold queryReverse in Hin. apply filter_In in Hin as [_ Hf].
      apply andb_true_iff in Hf as [Hs _]. apply String.eqb_eq in Hs.
      unfold keyOf in Hk. congruence.
    + injection E as <- <-. intros x [].
Qed.

Lemma framed_deleteEach (items : list dsGenericItem.t) :
  (forall x, In x items ->
     K (dsGenericItem.PK x, dsGenericItem.SK x) = false) ->
  framed K T (deleteEach items).
Proof.
  induction items as [|x items IH]; intros HK; simpl.
  - apply framed_ret.
  - apply framed_bind.
    + apply framed_deleteSingleItem.
      * apply HK. now left.
      * apply T_delete. apply HK. now left.
    + intros _. apply IH. intros y Hy. apply HK. now right.
Qed.

Lemma framed_DeleteDeclaration (identifier : string) :
  K ("dec#" +++ identifier, "dec#") = false ->
  (forall p, K (p, "dec#" +++ identifier) = false) ->
  framed K T (DeleteDeclaration identifier).
Proof.
  intros K_self K_edges. unfold DeleteDeclaration.
  eapply framedQ_bind; [apply GetSingleItemPKSK_dsDeclaration|].
  intros [declaration [e|]] Hkey; [apply framed_ret|]. simpl in Hkey.
  assert (Hk : K (keyOf (MarshalMap declaration)) = false).
  { key_simpl. destruct Hkey as [-> | ->]; [assumption | exact K_empty]. }
  apply framed_bind; [apply framed_deleteSingleItem; auto|].
  intros _.
  eapply framedQ_bind; [apply GetReverseItems_dsGenericItem|].
  intros [items [e|]] Hitems; [apply framed_ret|]. simpl in Hitems.
  apply framed_bind; [|intros; apply framed_ret].
  apply framed_deleteEach. intros x Hx. rewrite (Hitems x Hx). apply K_edges.
Qed.

End DeleteFrame.

(** Whatever the table holds, deleting a declaration sends no request that
    writes a derived document, and leaves every derived document as it
    was. *)
Lemma DeleteDeclaration_writes_no_document (identifier : string) (w : World) :
  frame derivedDocument (writesOutside derivedDocument) w
    (snd (DeleteDeclaration identifier w)).
Proof.
  apply framed_DeleteDeclaration; try reflexivity.
  intros it Hk. simpl. now rewrite Hk.
Qed.

(** C3 at a failing input. D1 is in G1 and EN1 is a member of G1, so the
    manifest of EN1 lists D1. Deleting D1 succeeds and removes its edge to
    G1, and the manifest of EN1 still lists D1, where a recompute of EN1
    yields the empty manifest. *)
Theorem DeleteDeclaration_leaves_documents_stale :
  Scenario.document Scenario.linked "EN1" "json" = Some "D1"
  /\ fst (DeleteDeclaration "D1" Scenario.linked) = Some (true, None)
  /\ lookup (tbl (snd (DeleteDeclaration "D1" Scenario.linked)))
       ("set#G1", "dec#D1") = None
  /\ Scenario.document
       (snd (DeleteDeclaration "D1" Scenario.linked)) "EN1" "json"
     = Some "D1"
  /\ Scenario.document
       (snd (Scenario.recompute "EN1"
               (snd (DeleteDeclaration "D1" Scenario.linked))))
       "EN1" "json"
     = Some "".
Proof. vm_compute. repeat split. Qed.

(** ** Enrollments of a declaration *)

(** The query of [declarationEnrollmentIDs] runs on the table with the key
    of the declaration as pk: when no item is stored under that pk with an
    sk that starts with [set#], the result is empty. The package stores the
    edge between a set and a declaration under the pk of the set. *)
Lemma declarationEnrollmentIDs_forward_query (declarationID : string)
    (w : World) :
  query (tbl w) ("dec#" +++ declarationID) "set#" = [] ->
  exists e, fst (declarationEnrollmentIDs declarationID w) = Some ([], e).
Proof.
  intros Hq. unfold declarationEnrollmentIDs, GetItemsSKBeginsWith, bind,
    call, getTable, ret.
  destruct (hd false (faults w)); cbn [tbl logged].
  - now exists (Some ErrBackingStore).
  - rewrite Hq. now exists None.
Qed.

(** C4 at a failing input. G1 contains D1 and EN1 is a member of G1: the
    sets of D1 are found through the reverse index, the members of G1
    too, and the enrollments of D1 come out empty. *)
Theorem declarationEnrollmentIDs_misses_members :
  fst (RetrieveDeclarationSets "D1" Scenario.linked) = Some (["G1"], None)
  /\ fst (RetrieveSetEnrollmentIDs "G1" Scenario.linked)
     = Some (["EN1"], None)
  /\ fst (RetrieveDeclarationEnrollmentIDs "D1" Scenario.linked)
     = Some ([], None).
Proof. vm_compute. repeat split. Qed.

(** ** Storing a declaration *)

Lemma framed_trace {A} (K : Key -> bool) (T : Request -> bool) (m : M A)
    (w : World) :
  framed K T m -> exists l, trace (snd (m w)) = trace w ++ l.
Proof.
  intros Hm. destruct (Hm w) as [[_ (l & Hl & _)] _]. now exists l.
Qed.

Section DeclarationStore.

Variable newHash : string -> string.
Variable JV : Type.
Variable JString : string -> JV.
Variable json_Unmarshal : string -> option (option (list (string * JV))).
Variable json_Marshal : list (string * JV) -> string.
Variable ParseDeclaration : string -> option Declaration.t.
Variable DeclarationItemsJSON : list Declaration.t -> string.
Variable TokensJSON : list Declaration.t -> string.
Variable rand_Read : nat -> string.

Local Abbreviation StoreDeclaration' :=
  (StoreDeclaration newHash JV JString json_Unmarshal json_Marshal
     ParseDeclaration DeclarationItemsJSON TokensJSON rand_Read).
Local Abbreviation newRecord :=
  (newDeclarationRecord newHash JV JString json_Marshal).
Local Abbreviation writeDeclarationDDM' :=
  (writeDeclarationDDM ParseDeclaration DeclarationItemsJSON TokensJSON).
Local Abbreviation afterRecord :=
  (afterRecord ParseDeclaration DeclarationItemsJSON TokensJSON).

(** The first read of [StoreDeclaration] decodes a list into a struct: it
    returns the zero record and an error, whatever the table holds. *)
Lemma GetItemsSKBeginsWith_struct (p b : string) (w : World) :
  GetItemsSKBeginsWith p b (zero : dsDeclaration.t) w
  = (Some (zero,
           Some (if hd false (faults w) then ErrBackingStore
                 else ErrUnmarshalType)),
     logged (ReqQuery p b) w).
Proof.
  unfold GetItemsSKBeginsWith, bind, call.
  destruct (hd false (faults w)); reflexivity.
Qed.

Lemma StoreDeclaration_steps (d : Declaration.t) (w : World) :
  StoreDeclaration' d w
  = let w1 :=
      withDrawn
        (logged (ReqQuery ("dec#" +++ Declaration.Identifier d) "dec#") w) in
    match json_Unmarshal (Declaration.Raw d) with
    | None => (Some (false, Some ErrJSON), w1)
    | Some None => (None, w1)
    | Some (Some declaration) =>
        afterRecord d (newRecord d declaration (rand_Read (drawn w))) w1
    end.
Proof.
  unfold StoreDeclaration.
  unfold bind at 1. rewrite GetItemsSKBeginsWith_struct.
  cbn [dsDeclaration.Token dsDeclaration.Salt zero Zero_dsDeclaration
       String.eqb negb andb].
  unfold bind at 1. unfold bind at 1. unfold readRandom at 1. cbn [ret].
  destruct (json_Unmarshal (Declaration.Raw d)) as [[declaration|]|];
    reflexivity.
Qed.

(** Whatever the table holds, [StoreDeclaration] never reports an unchanged
    declaration. *)
Lemma StoreDeclaration_never_unchanged (d : Declaration.t) (w : World) :
  fst (StoreDeclaration' d w) <> Some (false, None).
Proof.
  rewrite StoreDeclaration_steps. cbv zeta.
  destruct (json_Unmarshal (Declaration.Raw d)) as [[declaration|]|];
    try discriminate.
  unfold afterRecord, bind.
  destruct (AddItem _ _) as [[[e|]|] w2]; simpl; try discriminate.
  destruct (writeDeclarationDDM _ _ _ _ _) as [[[e|]|] w3]; discriminate.
Qed.

Lemma framed_afterRecord (K : Key -> bool) (T : Request -> bool)
    (d : Declaration.t) (record : dsDeclaration.t) :
  (forall r, T r = true) ->
  K (keyOf (MarshalMap record)) = false ->
  (forall pk, K (pk, "json") = false) ->
  (forall pk, K (pk, "tokens") = false) ->
  framed K T (afterRecord d record).
Proof.
  intros HT HK Hj Ht. unfold afterRecord.
  apply framed_bind; [now apply framed_AddItem|].
  intros [e|]; [apply framed_ret|].
  apply framed_bind; [now apply framed_writeDeclarationDDM|].
  intros [e|]; apply framed_ret.
Qed.

Lemma bind_assoc {A B C} (m : M A) (f : A -> M B) (g : B -> M C) (w : World) :
  bind (bind m f) g w = bind m (fun a => bind (f a) g) w.
Proof. unfold bind. destruct (m w) as [[a|] w1]; reflexivity. Qed.

Lemma afterRecord_trace (d : Declaration.t) (record : dsDeclaration.t)
    (w : World) :
  exists rest,
    trace (snd (afterRecord d record w))
    = trace w ++ ReqPutItem (MarshalMap record) :: rest.
Proof.
  unfold afterRecord, AddItem. rewrite bind_assoc.
  unfold bind at 1, call at 1.
  match goal with
  | |- context [snd (bind ?m ?f ?w1)] =>
      destruct (framed_trace anyKey anyRequest (bind m f) w1) as [l Hl]
  end.
  { apply framed_bind.
    - destruct (_ || _); [apply framed_ret | now apply framed_put].
    - intros [e|]; [apply framed_ret|].
      apply framed_bind; [now apply framed_writeDeclarationDDM|].
      intros [e|]; apply framed_ret. }
  exists l. rewrite Hl. cbn [trace logged]. now rewrite <- app_assoc.
Qed.

(** Whatever the table holds, a [StoreDeclaration] whose payload parses
    sends a put of the record with a salt drawn in this call. *)
Lemma StoreDeclaration_puts_fresh_salt (d : Declaration.t) (w : World)
    (declaration : list (string * JV)) :
  json_Unmarshal (Declaration.Raw d) = Some (Some declaration) ->
  exists rest,
    trace (snd (StoreDeclaration' d w))
    = trace w
      ++ ReqQuery ("dec#" +++ Declaration.Identifier d) "dec#"
      :: ReqPutItem
           (MarshalMap (newRecord d declaration (rand_Read (drawn w))))
      :: rest.
Proof.
  intros Hjson. rewrite StoreDeclaration_steps, Hjson. cbv zeta.
  match goal with
  | |- context [afterRecord ?d ?r ?w1] =>
      destruct (afterRecord_trace d r w1) as [rest Hrest]
  end.
  exists rest. rewrite Hrest. cbn [trace withDrawn logged].
  now rewrite <- app_assoc.
Qed.

(** Whatever the table holds, after a [StoreDeclaration] that succeeds the
    record of the declaration carries a salt drawn in this call. *)
Lemma StoreDeclaration_stores_fresh_salt (d : Declaration.t) (w w' : World) :
  StoreDeclaration' d w = (Some (true, None), w') ->
  exists it,
    lookup (tbl w') ("dec#" +++ Declaration.Identifier d, "dec#") = Some it
    /\ attr "salt" (attrs it) = Some (AvS (rand_Read (drawn w))).
Proof.
  rewrite StoreDeclaration_steps. cbv zeta.
  destruct (json_Unmarshal (Declaration.Raw d)) as [[declaration|]|];
    try discriminate.
  set (record := newRecord d declaration (rand_Read (drawn w))).
  set (w1 := withDrawn _).
  set (K := fun k : Key => key_eqb k (keyOf (MarshalMap record))).
  unfold afterRecord, AddItem. rewrite bind_assoc.
  unfold bind at 1, call at 1.
  destruct (hd false (faults w1) || negb (validKey (MarshalMap record))).
  { unfold bind, ret. simpl. discriminate. }
  rewrite bind_assoc. unfold bind at 1, getTable at 1.
  rewrite bind_assoc. unfold bind at 1, setTable at 1.
  unfold bind at 1, ret at 1.
  match goal with
  | |- context [bind ?m ?f ?w2] =>
      destruct (framed_writeDeclarationDDM ParseDeclaration
                  DeclarationItemsJSON TokensJSON K anyRequest
                  (fun _ _ => eq_refl) (fun _ _ => eq_refl)
                  (fun _ _ => eq_refl) (fun _ _ => eq_refl)
                  (fun pk => andb_false_r _) (fun pk => andb_false_r _)
                  (Declaration.Identifier d) w2) as [[Hframe _] _];
      unfold bind; destruct (m w2) as [[[e|]|] w3] eqn:E
  end; try discriminate.
  intros H; injection H as <-. simpl in Hframe.
  exists (MarshalMap record). split; [|reflexivity].
  change ("dec#" +++ Declaration.Identifier d, "dec#")
    with (keyOf (MarshalMap record)).
  rewrite Hframe by apply key_eqb_refl.
  apply lookup_put_same.
Qed.

End DeclarationStore.

(** C1 at a failing input. D1 is in the store; storing it again with the
    same payload reports a change, sends a put of its record, and the
    record is not the one that was there. *)
Theorem StoreDeclaration_same_payload_rewrites :
  fst (Scenario.storeDeclaration Scenario.D1 Scenario.emptyWorld)
  = Some (true, None)
  /\ fst (Scenario.storeDeclaration Scenario.D1 Scenario.linked)
     = Some (true, None)
  /\ (exists it,
        In (ReqPutItem it)
          (skipn (List.length (trace Scenario.linked))
             (trace (snd (Scenario.storeDeclaration Scenario.D1
                            Scenario.linked))))
        /\ keyOf it = ("dec#D1", "dec#"))
  /\ lookup (tbl (snd (Scenario.storeDeclaration Scenario.D1 Scenario.linked)))
       ("dec#D1", "dec#")
     <> lookup (tbl Scenario.linked) ("dec#D1", "dec#").
Proof.
  vm_compute. repeat split.
  - eexists. split; [right; left; reflexivity | reflexivity].
  - discriminate.
Qed.

(** C5 at a failing input. D1 is in the store with the salt of the first
    draw; storing it again succeeds and the record then carries the salt of
    the second draw. *)
Theorem StoreDeclaration_replaces_salt :
  Scenario.storedSalt Scenario.linked "D1" = Some (Scenario.salt 0)
  /\ fst (Scenario.storeDeclaration Scenario.D1 Scenario.linked)
     = Some (true, None)
  /\ Scenario.storedSalt
       (snd (Scenario.storeDeclaration Scenario.D1 Scenario.linked)) "D1"
     = Some (Scenario.salt 1)
  /\ Scenario.salt 1 <> Scenario.salt 0.
Proof. vm_compute. repeat split. discriminate. Qed.

(** ** Cascades *)

Section Cascade.

Variable ParseDeclaration : string -> option Declaration.t.
Variable DeclarationItemsJSON : list Declaration.t -> string.
Variable TokensJSON : list Declaration.t -> string.

Local Abbreviation writeEnrollmentDDM' :=
  (writeEnrollmentDDM ParseDeclaration DeclarationItemsJSON TokensJSON).
Local Abbreviation writeEach' :=
  (writeEach ParseDeclaration DeclarationItemsJSON TokensJSON).
Local Abbreviation writeSetDDM' :=
  (writeSetDDM ParseDeclaration DeclarationItemsJSON TokensJSON).
Local Abbreviation writeDeclarationDDM' :=
  (writeDeclarationDDM ParseDeclaration DeclarationItemsJSON TokensJSON).

Lemma writeEach_app (done rest : list string) (w w1 : World) :
  writeEach' done w = (Some None, w1) ->
  writeEach' (done ++ rest) w = writeEach' rest w1.
Proof.
  revert w; induction done as [|id done IH]; intros w; simpl.
  - unfold ret. intros E; injection E as <-. reflexivity.
  - unfold bind. destruct (writeEnrollmentDDM' id w) as [[[e|]|] w0].
    + discriminate.
    + apply IH.
    + discriminate.
Qed.

Lemma writeEach_stops (id : string) (rest : list string) (w1 w2 : World)
    (e : error) :
  writeEnrollmentDDM' id w1 = (Some (Some e), w2) ->
  writeEach' (id :: rest) w1 = (Some (Some e), w2).
Proof. intros E. simpl. unfold bind. now rewrite E. Qed.

Lemma writeEnrollmentDDM_own_documents (id : string) (w : World) :
  frame (notDocumentOf id) anyRequest w (snd (writeEnrollmentDDM' id w)).
Proof.
  apply framed_writeEnrollmentDDM; try reflexivity.
  - unfold notDocumentOf. now rewrite key_eqb_refl.
  - unfold notDocumentOf. now rewrite key_eqb_refl, orb_true_r.
Qed.


End Cascade.



(** ** A status report without values *)

Section QuietReport.

Variable MarshalText : nat -> option string.

Local Abbreviation StoreDeclarationStatus' :=
  (StoreDeclarationStatus MarshalText).
Local Abbreviation storeStatusDeclarations' :=
  (storeStatusDeclarations MarshalText).
Local Abbreviation storeStatusErrors' := (storeStatusErrors MarshalText).

Lemma framed_storeStatusDeclarations (enrollmentID : string)
    (declarations : list DeclarationStatus.t) :
  framed valueSet (putsOutside valueSet)
    (storeStatusDeclarations' enrollmentID declarations).
Proof.
  induction declarations as [|dec rest IH]; simpl.
  - apply framed_ret.
  - repeat frame_step; auto; reflexivity.
Qed.

Lemma framed_storeStatusErrors (enrollmentID : string)
    (ddmErrors : list StatusError.t) :
  framed valueSet (putsOutside valueSet)
    (storeStatusErrors' enrollmentID ddmErrors).
Proof.
  induction ddmErrors as [|statusError rest IH]; simpl.
  - apply framed_ret.
  - repeat frame_step; auto; reflexivity.
Qed.

Lemma framed_StoreDeclarationStatus (enrollmentID : string)
    (status : StatusReport.t) :
  StatusReport.Values status = [] ->
  framed valueSet (putsOutside valueSet)
    (StoreDeclarationStatus' enrollmentID status).
Proof.
  intros Hv. unfold StoreDeclarationStatus. rewrite Hv.
  apply framed_bind; [apply framed_AddItem; reflexivity|].
  intros [e|]; [apply framed_ret|].
  apply framed_bind; [apply framed_storeStatusDeclarations|].
  intros [e|]; [apply framed_ret|].
  apply framed_bind; [apply framed_ret|].
  intros [e|]; [apply framed_ret|].
  apply framed_bind; [apply framed_storeStatusErrors|].
  intros [e|]; apply framed_ret.
Qed.

(** A put on a backing store that does not fail. *)
Lemma AddItem_ok {X} `{Marshal X} (item : X) (w : World) :
  faults w = [] ->
  validKey (MarshalMap item) = true ->
  AddItem item w
  = (Some None,
     withTable (put (MarshalMap item) (tbl w))
       (logged (ReqPutItem (MarshalMap item)) w)).
Proof.
  intros Hf Hv. unfold AddItem, bind, call. rewrite Hf, Hv. reflexivity.
Qed.

Hypothesis clock_ok : forall n, MarshalText n <> None.

Lemma storeStatusDeclarations_ok (enrollmentID : string)
    (declarations : list DeclarationStatus.t) (w : World) :
  faults w = [] ->
  storeStatusDeclarations' enrollmentID declarations w
  = (Some None,
     mkWorld
       (fold_left (fun t it => put it t)
          (declarationStatusItems MarshalText enrollmentID (ticks w)
             declarations) (tbl w))
       [] (drawn w) (ticks w + List.length declarations)
       (trace w
        ++ map ReqPutItem
             (declarationStatusItems MarshalText enrollmentID (ticks w)
                declarations))).
Proof.
  revert w; induction declarations as [|dec rest IH]; intros w Hf.
  - simpl. unfold ret. rewrite app_nil_r, Nat.add_0_r, <- Hf.
    now destruct w.
  - cbn [storeStatusDeclarations declarationStatusItems].
    unfold bind at 1, timeNow at 1. unfold clockText.
    destruct (MarshalText (ticks w)) as [nowText|] eqn:E;
      [|now apply clock_ok in E].
    unfold bind at 1. rewrite AddItem_ok by (assumption || reflexivity).
    rewrite IH by (cbn [faults withTable logged withTick]; now rewrite Hf).
    cbn [tbl ticks trace drawn withTable withTick logged fold_left map
         List.length].
    rewrite <- app_assoc. cbn [app]. f_equal. f_equal. lia.
Qed.

Lemma storeStatusErrors_ok (enrollmentID : string)
    (ddmErrors : list StatusError.t) (w : World) :
  faults w = [] ->
  storeStatusErrors' enrollmentID ddmErrors w
  = (Some None,
     mkWorld
       (fold_left (fun t it => put it t)
          (statusErrorItems MarshalText enrollmentID (ticks w) ddmErrors)
          (tbl w))
       [] (drawn w) (ticks w + List.length ddmErrors)
       (trace w
        ++ map ReqPutItem
             (statusErrorItems MarshalText enrollmentID (ticks w)
                ddmErrors))).
Proof.
  revert w; induction ddmErrors as [|statusError rest IH]; intros w Hf.
  - simpl. unfold ret. rewrite app_nil_r, Nat.add_0_r, <- Hf.
    now destruct w.
  - cbn [storeStatusErrors statusErrorItems].
    unfold bind at 1, timeNow at 1. unfold clockText.
    destruct (MarshalText (ticks w)) as [nowText|] eqn:E;
      [|now apply clock_ok in E].
    unfold bind at 1. rewrite AddItem_ok by (assumption || reflexivity).
    rewrite IH by (cbn [faults withTable logged withTick]; now rewrite Hf).
    cbn [tbl ticks trace drawn withTable withTick logged fold_left map
         List.length].
    rewrite <- app_assoc. cbn [app]. f_equal. f_equal. lia.
Qed.

Lemma StoreDeclarationStatus_ok (enrollmentID : string)
    (status : StatusReport.t) (w : World) :
  StatusReport.Values status = [] ->
  faults w = [] ->
  StoreDeclarationStatus' enrollmentID status w
  = (Some None,
     mkWorld
       (fold_left (fun t it => put it t)
          (reportItems MarshalText enrollmentID status (ticks w)) (tbl w))
       [] (drawn w)
       (ticks w + List.length (StatusReport.Declarations status)
        + List.length (StatusReport.Errors status))
       (trace w
        ++ map ReqPutItem
             (reportItems MarshalText enrollmentID status (ticks w)))).
Proof.
  intros Hv Hf. unfold StoreDeclarationStatus, reportItems. rewrite Hv.
  unfold bind at 1. rewrite AddItem_ok by (assumption || reflexivity).
  unfold bind at 1.
  rewrite storeStatusDeclarations_ok
    by (cbn [faults withTable logged]; now rewrite Hf).
  unfold bind at 1. cbn [storeStatusValues List.length Nat.ltb Nat.leb ret].
  unfold bind at 1. rewrite storeStatusErrors_ok by reflexivity.
  cbn [tbl ticks trace drawn withTable logged fold_left map ret].
  rewrite fold_left_app, map_app, <- !app_assoc. reflexivity.
Qed.

End QuietReport.



(** ** The CSV round trip *)

Import Csv.

Lemma get_append_r (a b : string) (i : nat) :
  String.get (String.length a + i) (a +++ b) = String.get i b.
Proof. induction a; simpl; auto. Qed.

Lemma sliceFrom_cons (c : ascii) (s : string) : sliceFrom (String c s) 1 = s.
Proof.
  unfold sliceFrom. simpl. rewrite Nat.sub_0_r. apply substring_all.
Qed.

Lemma substring_0_0 (s : string) : substring 0 0 s = "".
Proof. destruct s; reflexivity. Qed.

Lemma LF_not_DQUOTE : Ascii.eqb LF DQUOTE = false.
Proof. reflexivity. Qed.

(** *** Lines *)

Lemma ReadSlice_app (stream line inp : string) (eof : bool) :
  ReadSlice stream = (line, inp, eof) -> stream = line +++ inp.
Proof.
  revert line inp eof; induction stream as [|c s IH]; intros line inp eof;
    simpl.
  - intros E; injection E as <- <- <-. reflexivity.
  - destruct (Ascii.eqb c LF) eqn:Ec.
    + intros E; injection E as <- <- <-. apply Ascii.eqb_eq in Ec as ->.
      reflexivity.
    + destruct (ReadSlice s) as [[l r] e] eqn:Es.
      intros E; injection E as <- <- <-. simpl. f_equal. eapply IH; eauto.
Qed.

Lemma ReadSlice_hasLF (stream : string) :
  hasLF stream = true ->
  exists line inp,
    ReadSlice stream = (line, inp, false) /\ line <> "".
Proof.
  induction stream as [|c s IH]; simpl; [discriminate|].
  unfold hasLF in *. simpl. destruct (Ascii.eqb c LF) eqn:Ec; simpl.
  - intros _. exists (String LF ""), s. split; [reflexivity | discriminate].
  - intros H. destruct (IH H) as (l & r & E & _). rewrite E.
    exists (String c l), r. split; [reflexivity | discriminate].
Qed.

Lemma ReadSlice_cons (c : ascii) (stream : string) :
  Ascii.eqb c LF = false ->
  ReadSlice (String c stream)
  = let '(line, inp, eof) := ReadSlice stream in (String c line, inp, eof).
Proof. intros Ec. simpl. now rewrite Ec. Qed.

Lemma hasLF_app_r (a b : string) : hasLF b = true -> hasLF (a +++ b) = true.
Proof.
  unfold hasLF. induction a as [|c a IH]; simpl; [auto|].
  intros H. rewrite (IH H). apply orb_true_r.
Qed.

Lemma noCRLF_tail (c : ascii) (s : string) :
  noCRLF (String c s) = true -> noCRLF s = true.
Proof. simpl. intros H. now apply andb_true_iff in H. Qed.

Lemma noCRLF_app_r (a b : string) :
  noCRLF (a +++ b) = true -> noCRLF b = true.
Proof.
  induction a as [|c a IH]; simpl; [auto|].
  intros H. apply andb_true_iff in H as [_ H]. auto.
Qed.

Lemma noCRLF_app_l (a b : string) :
  noCRLF (a +++ b) = true -> noCRLF a = true.
Proof.
  induction a as [|c a IH]; simpl; [auto|].
  intros H. apply andb_true_iff in H as [H1 H2].
  rewrite (IH H2), andb_true_r.
  destruct a as [|d a]; simpl in *.
  - now rewrite andb_false_r.
  - exact H1.
Qed.

(** A line without CR LF is not changed by the normalization. *)
Lemma noCRLF_ends (line : string) :
  noCRLF line = true ->
  (2 <=? String.length line)%nat
  && byteIs line (String.length line - 2) CR
  && byteIs line (String.length line - 1) LF = false.
Proof.
  induction line as [|c [|d [|e l]] IH]; intros H; try reflexivity.
  - simpl in H. unfold byteIs. simpl.
    apply andb_true_iff in H as [H _]. apply negb_true_iff in H. exact H.
  - specialize (IH (noCRLF_tail _ _ H)).
    replace (String.length (String c (String d (String e l))))
      with (S (String.length (String d (String e l)))) by reflexivity.
    remember (String d (String e l)) as t eqn:Et.
    assert (Hlen : 2 <= String.length t) by (subst t; simpl; lia).
    replace (2 <=? S (String.length t))%nat with true
      by (symmetry; apply Nat.leb_le; lia).
    replace (2 <=? String.length t)%nat with true in IH
      by (symmetry; apply Nat.leb_le; lia).
    unfold byteIs in *.
    replace (S (String.length t) - 2) with (S (String.length t - 2)) by lia.
    replace (S (String.length t) - 1) with (S (String.length t - 1)) by lia.
    exact IH.
Qed.

Lemma readLine_clean (stream line inp : string) :
  noCRLF stream = true ->
  ReadSlice stream = (line, inp, false) ->
  readLine stream = (line, false, inp).
Proof.
  intros Hc E. unfold readLine. rewrite E. rewrite andb_false_r.
  pose proof (ReadSlice_app _ _ _ _ E) as ->.
  now rewrite (noCRLF_ends line (noCRLF_app_l _ _ Hc)).
Qed.

(** *** One iteration of the loops *)

Lemma parseField_S (n : nat) (line inp : string) (fields : list string) :
  parseField (S n) line inp fields
  = let unquoted :=
      match unquotedField line fields with
      | ContinueParse line' fields' => parseField n line' inp fields'
      | BreakParse fields' err => Some (fields', err, inp)
      end in
    match line with
    | EmptyString => unquoted
    | String c line' =>
        if Ascii.eqb c DQUOTE then quotedField n line' inp "" fields
        else unquoted
    end.
Proof. reflexivity. Qed.

Lemma quotedField_S (n : nat) (line inp buf : string) (fields : list string) :
  quotedField (S n) line inp buf fields
  = match IndexByte line DQUOTE with
    | Some i =>
        let buf := buf +++ substring 0 i line in
        let line := sliceFrom line (i + 1) in
        match line with
        | EmptyString => Some (fields ++ [buf], None, inp)
        | String c line' =>
            if Ascii.eqb c DQUOTE then
              quotedField n line' inp (buf +++ String DQUOTE "") fields
            else if Ascii.eqb c COMMA then
              parseField n line' inp (fields ++ [buf])
            else if (lengthNL line =? String.length line)%nat then
              Some (fields ++ [buf], None, inp)
            else Some (fields, Some ErrQuote, inp)
        end
    | None =>
        if (0 <? String.length line)%nat then
          let '(line', _, inp') := readLine inp in
          quotedField n line' inp' (buf +++ line) fields
        else Some (fields, Some ErrQuote, inp)
    end.
Proof. reflexivity. Qed.

Lemma sliceFrom_S (c : ascii) (s : string) (i : nat) :
  sliceFrom (String c s) (S i) = sliceFrom s i.
Proof. reflexivity. Qed.

Lemma quotedField_plain (n : nat) (c : ascii) (line inp buf : string)
    (fields : list string) :
  Ascii.eqb c DQUOTE = false -> line <> "" ->
  quotedField n (String c line) inp buf fields
  = quotedField n line inp (buf +++ String c "") fields.
Proof.
  intros Hc Hline. destruct n; [reflexivity|]. rewrite !quotedField_S.
  cbn [IndexByte]. rewrite Hc.
  destruct (IndexByte line DQUOTE) as [i|].
  - cbv zeta. cbn [Nat.add]. rewrite sliceFrom_S. cbn [substring].
    replace ((buf +++ String c "") +++ substring 0 i line)
      with (buf +++ String c (substring 0 i line))
      by (now rewrite append_assoc).
    reflexivity.
  - destruct line as [|d line]; [contradiction|].
    cbn [String.length Nat.ltb Nat.leb].
    destruct (readLine inp) as [[l e] r].
    replace ((buf +++ String c "") +++ String d line)
      with (buf +++ String c (String d line))
      by (now rewrite append_assoc).
    reflexivity.
Qed.

Lemma quotedStream_plain (n : nat) (c : ascii) (stream buf : string)
    (fields : list string) :
  Ascii.eqb c DQUOTE = false -> Ascii.eqb c LF = false ->
  hasLF stream = true ->
  quotedStream n (String c stream) buf fields
  = quotedStream n stream (buf +++ String c "") fields.
Proof.
  intros Hq Hl Hs. unfold quotedStream. rewrite (ReadSlice_cons c stream Hl).
  destruct (ReadSlice_hasLF stream Hs) as (line & inp & E & Hne). rewrite E.
  now apply quotedField_plain.
Qed.

Lemma quotedStream_escaped (n : nat) (stream buf : string)
    (fields : list string) :
  hasLF stream = true ->
  quotedStream (S n) (String DQUOTE (String DQUOTE stream)) buf fields
  = quotedStream n stream (buf +++ String DQUOTE "") fields.
Proof.
  intros Hs. unfold quotedStream.
  rewrite !ReadSlice_cons by reflexivity.
  destruct (ReadSlice_hasLF stream Hs) as (line & inp & E & Hne). rewrite E.
  rewrite quotedField_S. cbn [IndexByte]. cbv zeta.
  replace (Ascii.eqb DQUOTE DQUOTE) with true by reflexivity.
  rewrite substring_0_0, append_nil_r. cbn [Nat.add]. rewrite sliceFrom_cons.
  reflexivity.
Qed.

Lemma quotedStream_newline (n : nat) (stream buf : string)
    (fields : list string) :
  hasLF stream = true -> noCRLF stream = true ->
  quotedStream (S n) (String LF stream) buf fields
  = quotedStream n stream (buf +++ String LF "") fields.
Proof.
  intros Hs Hc. unfold quotedStream. cbn [ReadSlice].
  replace (Ascii.eqb LF LF) with true by reflexivity.
  destruct (ReadSlice_hasLF stream Hs) as (line & inp & E & Hne). rewrite E.
  rewrite quotedField_S. cbn [IndexByte]. rewrite LF_not_DQUOTE.
  cbn [String.length Nat.ltb Nat.leb].
  now rewrite (readLine_clean stream line inp Hc E).
Qed.

Lemma quotedStream_comma (n : nat) (stream buf : string)
    (fields : list string) :
  hasLF stream = true ->
  quotedStream (S n) (String DQUOTE (String COMMA stream)) buf fields
  = parseStream n stream (fields ++ [buf]).
Proof.
  intros Hs. unfold quotedStream, parseStream.
  rewrite !ReadSlice_cons by reflexivity.
  destruct (ReadSlice_hasLF stream Hs) as (line & inp & E & Hne). rewrite E.
  rewrite quotedField_S. cbn [IndexByte]. cbv zeta.
  replace (Ascii.eqb DQUOTE DQUOTE) with true by reflexivity.
  rewrite substring_0_0, append_nil_r. cbn [Nat.add]. rewrite sliceFrom_cons.
  reflexivity.
Qed.

Lemma quotedStream_end (n : nat) (more buf : string) (fields : list string) :
  quotedStream (S n) (String DQUOTE (String LF more)) buf fields
  = Some (fields ++ [buf], None, more).
Proof.
  unfold quotedStream. cbn [ReadSlice].
  replace (Ascii.eqb DQUOTE LF) with false by reflexivity.
  replace (Ascii.eqb LF LF) with true by reflexivity.
  rewrite quotedField_S. cbn [IndexByte]. cbv zeta.
  replace (Ascii.eqb DQUOTE DQUOTE) with true by reflexivity.
  rewrite substring_0_0, append_nil_r. cbn [Nat.add]. rewrite sliceFrom_cons.
  reflexivity.
Qed.

Lemma parseStream_quoted (n : nat) (stream : string) (fields : list string) :
  hasLF stream = true ->
  parseStream (S n) (String DQUOTE stream) fields
  = quotedStream n stream "" fields.
Proof.
  intros Hs. unfold quotedStream, parseStream.
  rewrite ReadSlice_cons by reflexivity.
  destruct (ReadSlice_hasLF stream Hs) as (line & inp & E & Hne). rewrite E.
  rewrite parseField_S. cbv zeta.
  replace (Ascii.eqb DQUOTE DQUOTE) with true by reflexivity. reflexivity.
Qed.

(** *** Fields *)

Lemma quotedStream_content (field : string) :
  forall (n : nat) (tail buf : string) (fields : list string),
    hasLF tail = true ->
    noCRLF (writeQuoted field +++ tail) = true ->
    quotedStream (quotedSteps field + n) (writeQuoted field +++ tail) buf fields
    = quotedStream n tail (buf +++ field) fields.
Proof.
  induction field as [|c field IH]; intros n tail buf fields Ht Hc.
  - simpl. now rewrite append_nil_r.
  - cbn [writeQuoted quotedSteps] in *.
    replace (buf +++ String c field) with ((buf +++ String c "") +++ field)
      by (now rewrite append_assoc).
    destruct (Ascii.eqb c DQUOTE) eqn:Eq.
    + apply Ascii.eqb_eq in Eq as ->. cbn [orb Nat.add append] in *.
      rewrite quotedStream_escaped by now apply hasLF_app_r.
      apply IH; [assumption|]. now apply noCRLF_tail, noCRLF_tail in Hc.
    + destruct (Ascii.eqb c LF) eqn:El.
      * apply Ascii.eqb_eq in El as ->. cbn [orb Nat.add append] in *.
        pose proof (noCRLF_tail _ _ Hc) as Hc'.
        rewrite quotedStream_newline by (auto using hasLF_app_r).
        now apply IH.
      * cbn [orb Nat.add append] in *.
        rewrite quotedStream_plain by (auto using hasLF_app_r).
        apply IH; [assumption|]. now apply noCRLF_tail in Hc.
Qed.

Lemma IndexByte_none (c : ascii) (s : string) :
  anyByte (fun d => Ascii.eqb d c) s = false -> IndexByte s c = None.
Proof.
  induction s as [|d s IH]; simpl; [reflexivity|].
  intros H. apply orb_false_iff in H as [Hd Hs].
  now rewrite Hd, (IH Hs).
Qed.

Lemma IndexByte_append (c : ascii) (a b : string) :
  anyByte (fun d => Ascii.eqb d c) a = false ->
  IndexByte (a +++ String c b) c = Some (String.length a).
Proof.
  induction a as [|d a IH]; simpl.
  - now rewrite Ascii.eqb_refl.
  - intros H. apply orb_false_iff in H as [Hd Ha].
    now rewrite Hd, (IH Ha).
Qed.

Lemma IndexByte_append_none (c : ascii) (a b : string) :
  anyByte (fun d => Ascii.eqb d c) a = false ->
  IndexByte b c = None ->
  IndexByte (a +++ b) c = None.
Proof.
  induction a as [|d a IH]; simpl; [auto|].
  intros H Hb. apply orb_false_iff in H as [Hd Ha].
  now rewrite Hd, (IH Ha Hb).
Qed.

Lemma anyByte_weaken (p q : ascii -> bool) (s : string) :
  (forall c, q c = true -> p c = true) ->
  anyByte p s = false -> anyByte q s = false.
Proof.
  intros Hpq. induction s as [|c s IH]; simpl; [reflexivity|].
  intros H. apply orb_false_iff in H as [Hc Hs].
  rewrite (IH Hs), orb_false_r.
  destruct (q c) eqn:E; [|reflexivity]. apply Hpq in E. congruence.
Qed.

Lemma ReadSlice_noLF (a stream : string) :
  anyByte (fun d => Ascii.eqb d LF) a = false ->
  ReadSlice (a +++ stream)
  = let '(line, inp, eof) := ReadSlice stream in (a +++ line, inp, eof).
Proof.
  induction a as [|c a IH]; intros H.
  - simpl. now destruct (ReadSlice stream) as [[l r] e].
  - simpl in H. apply orb_false_iff in H as [Hc Ha].
    cbn [append]. rewrite (ReadSlice_cons c _ Hc), (IH Ha).
    now destruct (ReadSlice stream) as [[l r] e].
Qed.

Lemma head_not_DQUOTE (a : string) (c : ascii) (rest : string) :
  anyByte (fun d => Ascii.eqb d DQUOTE) a = false ->
  Ascii.eqb c DQUOTE = false ->
  exists d line',
    a +++ String c rest = String d line'
    /\ Ascii.eqb d DQUOTE = false.
Proof.
  intros H Hc. destruct a as [|d a]; simpl in *.
  - now exists c, rest.
  - apply orb_false_iff in H as [Hd _]. now exists d, (a +++ String c rest).
Qed.

Lemma parseField_unquoted (n : nat) (line inp : string)
    (fields : list string) :
  (exists d line', line = String d line' /\ Ascii.eqb d DQUOTE = false) ->
  parseField (S n) line inp fields
  = match unquotedField line fields with
    | ContinueParse line' fields' => parseField n line' inp fields'
    | BreakParse fields' err => Some (fields', err, inp)
    end.
Proof.
  intros (d & line' & -> & Hd). rewrite parseField_S. cbv zeta.
  now rewrite Hd.
Qed.

Section Plain.

Variable field : string.
Hypothesis plain : anyByte isSpecial field = false.

Lemma plain_no_LF : anyByte (fun d => Ascii.eqb d LF) field = false.
Proof.
  apply (anyByte_weaken isSpecial); [|exact plain].
  intros c H. unfold isSpecial. now rewrite H.
Qed.

Lemma plain_no_CR : anyByte (fun d => Ascii.eqb d CR) field = false.
Proof.
  apply (anyByte_weaken isSpecial); [|exact plain].
  intros c H. unfold isSpecial. rewrite H. now rewrite orb_true_r.
Qed.

Lemma plain_no_DQUOTE : anyByte (fun d => Ascii.eqb d DQUOTE) field = false.
Proof.
  apply (anyByte_weaken isSpecial); [|exact plain].
  intros c H. unfold isSpecial. rewrite H. now rewrite !orb_true_r.
Qed.

Lemma plain_no_COMMA : anyByte (fun d => Ascii.eqb d COMMA) field = false.
Proof.
  apply (anyByte_weaken isSpecial); [|exact plain].
  intros c H. unfold isSpecial. rewrite H. now rewrite !orb_true_r.
Qed.

Lemma ReadSlice_plain (stream : string) :
  ReadSlice (field +++ stream)
  = let '(line, inp, eof) := ReadSlice stream in (field +++ line, inp, eof).
Proof. apply ReadSlice_noLF, plain_no_LF. Qed.

Lemma plain_head (c : ascii) (rest : string) :
  Ascii.eqb c DQUOTE = false ->
  exists d line',
    field +++ String c rest = String d line'
    /\ Ascii.eqb d DQUOTE = false.
Proof. apply head_not_DQUOTE, plain_no_DQUOTE. Qed.

Lemma parseStream_plain_comma (n : nat) (stream : string)
    (fields : list string) :
  hasLF stream = true ->
  parseStream (S n) (field +++ String COMMA stream) fields
  = parseStream n stream (fields ++ [field]).
Proof.
  intros Hs. unfold parseStream. rewrite ReadSlice_plain.
  rewrite (ReadSlice_cons COMMA stream eq_refl).
  destruct (ReadSlice_hasLF stream Hs) as (line & inp & E & Hne). rewrite E.
  rewrite parseField_unquoted by now apply plain_head.
  unfold unquotedField.
  rewrite (IndexByte_append COMMA field line plain_no_COMMA).
  rewrite substring_prefix, (IndexByte_none DQUOTE field plain_no_DQUOTE).
  replace (field +++ String COMMA line)
    with ((field +++ String COMMA "") +++ line)
    by (now rewrite append_assoc).
  replace (String.length field + 1)
    with (String.length (field +++ String COMMA ""))
    by (rewrite length_append; reflexivity).
  now rewrite sliceFrom_append.
Qed.

Lemma lengthNL_line (a : string) : lengthNL (a +++ String LF "") = 1.
Proof.
  unfold lengthNL, byteIs. rewrite length_append. cbn [String.length].
  replace (String.length a + 1 - 1) with (String.length a + 0) by lia.
  rewrite get_append_r. cbn [String.get].
  replace (0 <? String.length a + 1)%nat with true
    by (symmetry; apply Nat.ltb_lt; lia).
  reflexivity.
Qed.

Lemma parseStream_plain_end (n : nat) (more : string) (fields : list string) :
  parseStream (S n) (field +++ String LF more) fields
  = Some (fields ++ [field], None, more).
Proof.
  unfold parseStream. rewrite ReadSlice_plain. cbn [ReadSlice].
  replace (Ascii.eqb LF LF) with true by reflexivity.
  rewrite parseField_unquoted by now apply plain_head.
  unfold unquotedField.
  rewrite (IndexByte_append_none COMMA field (String LF "") plain_no_COMMA
             eq_refl).
  rewrite lengthNL_line, length_append. cbn [String.length].
  replace (String.length field + 1 - 1) with (String.length field) by lia.
  rewrite substring_prefix, (IndexByte_none DQUOTE field plain_no_DQUOTE).
  reflexivity.
Qed.

End Plain.

Lemma fieldNeedsQuotes_false (field : string) :
  fieldNeedsQuotes field = false -> anyByte isSpecial field = false.
Proof.
  unfold fieldNeedsQuotes.
  destruct (String.eqb field "") eqn:E0.
  - apply String.eqb_eq in E0 as ->. reflexivity.
  - destruct (String.eqb field "\."); [discriminate|].
    destruct (anyByte isSpecial field); [discriminate | reflexivity].
Qed.

Lemma writeField_quoted (field tail : string) :
  fieldNeedsQuotes field = true ->
  writeField field +++ tail
  = String DQUOTE (writeQuoted field +++ String DQUOTE tail).
Proof.
  intros H. unfold writeField. rewrite H. cbn [append].
  now rewrite append_assoc.
Qed.

Lemma parseStream_field_comma (field : string) (n : nat) (stream : string)
    (fields : list string) :
  hasLF stream = true ->
  noCRLF (writeField field +++ String COMMA stream) = true ->
  parseStream (fieldSteps field + n) (writeField field +++ String COMMA stream)
    fields
  = parseStream n stream (fields ++ [field]).
Proof.
  intros Hs Hc. unfold fieldSteps.
  destruct (fieldNeedsQuotes field) eqn:Eq.
  - rewrite writeField_quoted in * by assumption.
    replace (quotedSteps field + 2 + n) with (S (quotedSteps field + S n))
      by lia.
    rewrite parseStream_quoted by (apply hasLF_app_r; cbn; assumption).
    rewrite quotedStream_content;
      [| cbn; assumption | now apply noCRLF_tail in Hc].
    now rewrite quotedStream_comma.
  - unfold writeField in *. rewrite Eq in *.
    now apply parseStream_plain_comma; [apply fieldNeedsQuotes_false|].
Qed.

Lemma parseStream_field_end (field : string) (n : nat) (more : string)
    (fields : list string) :
  noCRLF (writeField field +++ String LF more) = true ->
  parseStream (fieldSteps field + n) (writeField field +++ String LF more)
    fields
  = Some (fields ++ [field], None, more).
Proof.
  intros Hc. unfold fieldSteps.
  destruct (fieldNeedsQuotes field) eqn:Eq.
  - rewrite writeField_quoted in * by assumption.
    replace (quotedSteps field + 2 + n) with (S (quotedSteps field + S n))
      by lia.
    rewrite parseStream_quoted by (apply hasLF_app_r; reflexivity).
    rewrite quotedStream_content;
      [| reflexivity | now apply noCRLF_tail in Hc].
    now rewrite quotedStream_end.
  - unfold writeField in *. rewrite Eq in *.
    now apply parseStream_plain_end, fieldNeedsQuotes_false.
Qed.

(** *** Records *)

Lemma hasLF_afterField (rest : list string) (more : string) :
  hasLF (afterField rest more) = true.
Proof.
  induction rest as [|f rest IH]; [reflexivity|].
  cbn [afterField]. unfold hasLF in *. cbn [anyByte].
  replace (Ascii.eqb COMMA LF) with false by reflexivity. cbn [orb].
  now apply hasLF_app_r.
Qed.

Lemma parseStream_record (rest : list string) :
  forall (field : string) (n : nat) (more : string) (fields : list string),
    noCRLF (writeField field +++ afterField rest more) = true ->
    parseStream (recordSteps (field :: rest) + n)
      (writeField field +++ afterField rest more) fields
    = Some (fields ++ field :: rest, None, more).
Proof.
  induction rest as [|g rest IH]; intros field n more fields Hc.
  - cbn [recordSteps afterField] in *. rewrite Nat.add_0_r.
    now apply parseStream_field_end.
  - cbn [recordSteps afterField] in Hc |- *.
    rewrite <- Nat.add_assoc.
    rewrite parseStream_field_comma;
      [| apply hasLF_app_r, hasLF_afterField | assumption].
    change (fieldSteps g + recordSteps rest) with (recordSteps (g :: rest)).
    rewrite IH.
    + now rewrite <- app_assoc.
    + apply noCRLF_app_r in Hc. now apply noCRLF_tail in Hc.
Qed.

(** *** What the writer produces *)

Lemma noCRLF_plain_app (a t : string) :
  anyByte (fun d => Ascii.eqb d CR) a = false ->
  noCRLF t = true -> noCRLF (a +++ t) = true.
Proof.
  induction a as [|c a IH]; simpl; [auto|].
  intros H Ht. apply orb_false_iff in H as [Hc Ha].
  now rewrite Hc, (IH Ha Ht).
Qed.

Lemma startsLF_writeQuoted (field t : string) :
  startsLF t = false ->
  startsLF (writeQuoted field +++ t) = startsLF field.
Proof.
  intros Ht. destruct field as [|c f]; simpl; [assumption|].
  destruct (Ascii.eqb c DQUOTE) eqn:E; [|reflexivity].
  apply Ascii.eqb_eq in E as ->. reflexivity.
Qed.

Lemma noCRLF_writeQuoted (field t : string) :
  noCRLF field = true -> noCRLF t = true -> startsLF t = false ->
  noCRLF (writeQuoted field +++ t) = true.
Proof.
  intros Hf Ht Hs. induction field as [|c f IH]; [assumption|].
  cbn [noCRLF] in Hf. apply andb_true_iff in Hf as [Hc Hf].
  cbn [writeQuoted]. destruct (Ascii.eqb c DQUOTE) eqn:E.
  - apply Ascii.eqb_eq in E as ->. cbn [append noCRLF startsLF].
    rewrite (IH Hf). reflexivity.
  - cbn [append noCRLF]. rewrite (startsLF_writeQuoted f t Hs), Hc.
    now rewrite (IH Hf).
Qed.

Lemma noCRLF_writeField (field t : string) :
  noCRLF field = true -> noCRLF t = true ->
  noCRLF (writeField field +++ t) = true.
Proof.
  intros Hf Ht. destruct (fieldNeedsQuotes field) eqn:E.
  - rewrite writeField_quoted by assumption. cbn [noCRLF].
    replace (Ascii.eqb DQUOTE CR) with false by reflexivity. cbn [andb negb].
    now apply noCRLF_writeQuoted.
  - unfold writeField. rewrite E.
    apply noCRLF_plain_app; [|assumption].
    now apply plain_no_CR, fieldNeedsQuotes_false.
Qed.

Lemma noCRLF_afterField (rest : list string) (more : string) :
  forallb noCRLF rest = true -> noCRLF more = true ->
  noCRLF (afterField rest more) = true.
Proof.
  intros Hr Hm. induction rest as [|f rest IH]; cbn [afterField noCRLF].
  - now rewrite Hm.
  - cbn [forallb] in Hr. apply andb_true_iff in Hr as [Hf Hr].
    replace (Ascii.eqb COMMA CR) with false by reflexivity. cbn [andb negb].
    apply noCRLF_writeField; auto.
Qed.

Lemma writeFields_afterField (rest : list string) (k : nat) (more : string) :
  writeFields (S k) rest +++ String LF more = afterField rest more.
Proof.
  revert k; induction rest as [|f rest IH]; intros k; [reflexivity|].
  cbn [writeFields afterField Nat.ltb Nat.leb append].
  now rewrite append_assoc, IH.
Qed.

Lemma Write_afterField (field : string) (rest : list string) (more : string) :
  Write (field :: rest) +++ more
  = writeField field +++ afterField rest more.
Proof.
  unfold Write. cbn [writeFields Nat.ltb Nat.leb append].
  rewrite !append_assoc. cbn [append].
  now rewrite writeFields_afterField.
Qed.

Lemma formatStatusValues_cons (v : StatusValue) (values : list StatusValue) :
  formatStatusValues (v :: values)
  = writeField (Path v)
    +++ afterField [ContainerType v; ValueType v; Value v]
          (formatStatusValues values).
Proof.
  unfold formatStatusValues. cbn [map WriteAll]. apply Write_afterField.
Qed.

Lemma noCRLF_formatStatusValues (values : list StatusValue) :
  forallb cleanValue values = true ->
  noCRLF (formatStatusValues values) = true.
Proof.
  induction values as [|v values IH]; [reflexivity|].
  cbn [forallb]. intros H. apply andb_true_iff in H as [Hv Hvs].
  unfold cleanValue in Hv. rewrite !andb_true_iff in Hv.
  destruct Hv as [[[Hp Hc] Ht] Hval].
  rewrite formatStatusValues_cons.
  apply noCRLF_writeField; [assumption|].
  apply noCRLF_afterField; [|auto].
  cbn [forallb]. now rewrite Hc, Ht, Hval.
Qed.

(** The reader has fuel for every iteration a written record takes. *)
Lemma quotedSteps_le (field : string) :
  quotedSteps field <= String.length (writeQuoted field).
Proof.
  induction field as [|c f IH]; [reflexivity|].
  cbn [quotedSteps writeQuoted].
  destruct (Ascii.eqb c DQUOTE); cbn [orb String.length].
  - lia.
  - destruct (Ascii.eqb c LF); lia.
Qed.

Lemma fieldSteps_le (field : string) :
  fieldSteps field <= String.length (writeField field) + 1.
Proof.
  unfold fieldSteps, writeField.
  destruct (fieldNeedsQuotes field); [|lia].
  cbn [String.length]. rewrite length_append. cbn [String.length].
  pose proof (quotedSteps_le field). lia.
Qed.

Lemma recordSteps_le (rest : list string) (field more : string) :
  recordSteps (field :: rest)
  <= String.length (writeField field +++ afterField rest more).
Proof.
  revert field; induction rest as [|g rest IH]; intros field;
    cbn [recordSteps afterField]; rewrite length_append;
    pose proof (fieldSteps_le field).
  - cbn [String.length]. lia.
  - specialize (IH g). cbn [recordSteps] in IH. cbn [String.length]. lia.
Qed.

(** The first byte of a field followed by a comma is no line feed. *)
Lemma field_head (field stream : string) :
  hasLF stream = true ->
  exists c s',
    writeField field +++ String COMMA stream = String c s'
    /\ Ascii.eqb c LF = false /\ hasLF s' = true.
Proof.
  intros Hs. destruct (fieldNeedsQuotes field) eqn:E.
  - rewrite writeField_quoted by assumption.
    eexists _, _. split; [reflexivity|]. split; [reflexivity|].
    apply hasLF_app_r. cbn. exact Hs.
  - unfold writeField. rewrite E.
    pose proof (plain_no_LF field (fieldNeedsQuotes_false field E)) as Hp.
    destruct field as [|c f]; cbn [append].
    + eexists _, _. split; [reflexivity|]. now split.
    + cbn [anyByte] in Hp. apply orb_false_iff in Hp as [Hc _].
      eexists _, _. split; [reflexivity|]. split; [assumption|].
      apply hasLF_app_r. cbn. exact Hs.
Qed.

Lemma lengthNL_le (b : string) : lengthNL b <= 1.
Proof. unfold lengthNL. destruct (_ && _); lia. Qed.

(** *** Reading what was written *)

Lemma Read_value (v : StatusValue) (more : string) (fpr : nat) :
  cleanValue v = true -> noCRLF more = true ->
  fpr = 0 \/ fpr = 4 ->
  Read (mkReader
          (writeField (Path v)
           +++ afterField [ContainerType v; ValueType v; Value v] more) fpr)
  = Some (valueRecord v, None, mkReader more 4).
Proof.
  intros Hv Hm Hfpr.
  unfold cleanValue in Hv. rewrite !andb_true_iff in Hv.
  destruct Hv as [[[Hp Hc] Ht] Hval].
  set (rest := [ContainerType v; ValueType v; Value v]).
  set (stream := writeField (Path v) +++ afterField rest more).
  assert (Hclean : noCRLF stream = true).
  { apply noCRLF_writeField; [assumption|].
    apply noCRLF_afterField; [|assumption].
    subst rest. cbn [forallb]. now rewrite Hc, Ht, Hval. }
  assert (Hlf : hasLF stream = true)
    by apply hasLF_app_r, hasLF_afterField.
  destruct (ReadSlice_hasLF stream Hlf) as (line & inp & E & Hne).
  assert (Hlen : 2 <= String.length line).
  { assert (Hhead : exists c s',
              stream = String c s'
              /\ Ascii.eqb c LF = false /\ hasLF s' = true).
    { subst stream rest. cbn [afterField].
      apply field_head, hasLF_app_r.
      exact (hasLF_afterField [ValueType v; Value v] more). }
    destruct Hhead as (c & s' & Hs & Hc' & Hs').
    rewrite Hs, (ReadSlice_cons c s' Hc') in E.
    destruct (ReadSlice_hasLF s' Hs') as (l' & r' & E' & Hne').
    rewrite E' in E. injection E as <- <-.
    destruct l'; [contradiction | cbn [String.length]; lia]. }
  unfold Read. cbn [unread FieldsPerRecord firstLine].
  rewrite (readLine_clean stream line inp Hclean E). cbn [negb andb].
  replace (String.length line =? lengthNL line)%nat with false
    by (symmetry; apply Nat.eqb_neq; pose proof (lengthNL_le line); lia).
  assert (Hparse :
    parseField (S (String.length line + String.length inp)) line inp []
    = Some (valueRecord v, None, more)).
  { pose proof (parseStream_record rest (Path v)
                  (S (String.length line + String.length inp)
                   - recordSteps (Path v :: rest)) more [] Hclean) as P.
    pose proof (recordSteps_le rest (Path v) more) as B.
    change (writeField (Path v) +++ afterField rest more) with stream in P, B.
    rewrite (ReadSlice_app _ _ _ _ E), length_append in B.
    replace (recordSteps (Path v :: rest)
             + (S (String.length line + String.length inp)
                - recordSteps (Path v :: rest)))
      with (S (String.length line + String.length inp)) in P by lia.
    unfold parseStream in P. rewrite E in P. exact P. }
  rewrite Hparse. destruct Hfpr as [-> | ->]; reflexivity.
Qed.

Lemma readRecords_values (values : list StatusValue) :
  forall (fuel fpr : nat) (ret : list StatusValue),
    forallb cleanValue values = true ->
    fpr = 0 \/ fpr = 4 ->
    List.length values < fuel ->
    readRecords fuel (mkReader (formatStatusValues values) fpr) ret
    = Some (ret ++ values, None).
Proof.
  induction values as [|v values IH]; intros fuel fpr ret Hc Hfpr Hfuel.
  - destruct fuel as [|fuel]; [inversion Hfuel|].
    cbn. now rewrite app_nil_r.
  - destruct fuel as [|fuel]; [inversion Hfuel|].
    cbn [forallb] in Hc. apply andb_true_iff in Hc as [Hv Hvs].
    cbn [readRecords]. rewrite formatStatusValues_cons.
    rewrite Read_value by (auto using noCRLF_formatStatusValues).
    cbn [valueRecord]. rewrite IH; [| assumption | now right |].
    + rewrite <- app_assoc. now destruct v.
    + cbn [List.length] in Hfuel. lia.
Qed.

Lemma length_afterField (rest : list string) (more : string) :
  String.length more < String.length (afterField rest more).
Proof.
  induction rest as [|f rest IH]; cbn [afterField String.length]; [lia|].
  rewrite length_append. lia.
Qed.

Lemma length_formatStatusValues (values : list StatusValue) :
  List.length values <= String.length (formatStatusValues values).
Proof.
  induction values as [|v values IH]; [reflexivity|].
  rewrite formatStatusValues_cons, length_append.
  pose proof (length_afterField [ContainerType v; ValueType v; Value v]
                (formatStatusValues values)).
  cbn [List.length]. lia.
Qed.

(** The body written for a list of values whose fields hold no CR LF reads
    back as that list. *)
Lemma parse_format_StatusValues (values : list StatusValue) :
  forallb cleanValue values = true ->
  parseStatusValues (formatStatusValues values) = Some (values, None).
Proof.
  intros Hc. unfold parseStatusValues, NewReader.
  rewrite (readRecords_values values _ 0 [] Hc (or_introl eq_refl)).
  - reflexivity.
  - pose proof (length_formatStatusValues values). lia.
Qed.

(** *** Storing and reading the value set *)

Lemma readStatusValues_world (enrollmentID : string) (w w1 : World)
    (r : option (list StatusValue * option error)) :
  readStatusValues enrollmentID w = (r, w1) ->
  w1 = logged (ReqGetItem ("enroll#" +++ enrollmentID) "status#values") w.
Proof.
  unfold readStatusValues, GetSingleItemPKSK, bind, call, getTable, ret,
    panic.
  destruct (hd false (faults w)).
  - intros E; now injection E as <- <-.
  - cbn [tbl logged].
    destruct (lookup (tbl w) _) as [it|].
    + destruct (UnmarshalMap it zero) as [item [e|]].
      * intros E; now injection E as <- <-.
      * destruct (parseStatusValues _); intros E; now injection E as <- <-.
    + cbn [zero Zero_dsGenericItem dsGenericItem.Body].
      destruct (parseStatusValues _); intros E; now injection E as <- <-.
Qed.

Lemma readStatusValues_stored (enrollmentID : string) (w : World)
    (values : list StatusValue) :
  faults w = [] ->
  lookup (tbl w) ("enroll#" +++ enrollmentID, "status#values")
  = Some (MarshalMap
            (dsGenericItem.mk ("enroll#" +++ enrollmentID) "status#values"
               (formatStatusValues values))) ->
  forallb cleanValue values = true ->
  fst (readStatusValues enrollmentID w) = Some (values, None).
Proof.
  intros Hf Hl Hc.
  unfold readStatusValues, GetSingleItemPKSK, bind, call, getTable, ret.
  rewrite Hf. cbn [hd tbl logged]. rewrite Hl.
  assert (Hu : UnmarshalMap
                 (MarshalMap
                    (dsGenericItem.mk ("enroll#" +++ enrollmentID)
                       "status#values" (formatStatusValues values)))
                 (zero : dsGenericItem.t)
               = (dsGenericItem.mk ("enroll#" +++ enrollmentID)
                    "status#values" (formatStatusValues values), None)).
  { unfold UnmarshalMap, Unmarshal_dsGenericItem, MarshalMap,
      Marshal_dsGenericItem, decodeS, S_omitempty.
    cbn [attrs pk sk dsGenericItem.PK dsGenericItem.SK dsGenericItem.Body].
    destruct (String.eqb (formatStatusValues values) "") eqn:E.
    - apply String.eqb_eq in E. cbn. now rewrite E.
    - reflexivity. }
  rewrite Hu. cbn [dsGenericItem.Body].
  now rewrite (parse_format_StatusValues values Hc).
Qed.

Lemma mergeStatusValues_In (dst src : list StatusValue) (u : StatusValue) :
  In u (mergeStatusValues dst src) <-> In u dst \/ In u src.
Proof.
  destruct (mergeStatusValues_added src dst) as (added & -> & _ & Hin).
  rewrite in_app_iff, Hin.
  destruct (in_dec StatusValue_eq_dec u dst); tauto.
Qed.

Lemma mergeStatusValues_NoDup (src : list StatusValue) :
  NoDup src -> mergeStatusValues [] src = src.
Proof.
  assert (H : forall dst,
             NoDup (dst ++ src) ->
             mergeStatusValues dst src = dst ++ src).
  { induction src as [|s src IH]; intros dst Hnd.
    - simpl. now rewrite app_nil_r.
    - rewrite mergeStatusValues_cons.
      replace (containsValue dst s <? 0)%Z with true.
      + rewrite IH; rewrite <- app_assoc; [reflexivity | exact Hnd].
      + symmetry. apply containsValue_absent.
        apply NoDup_remove_2 in Hnd. intros Hin. apply Hnd.
        apply in_or_app. now left. }
  intros Hnd. apply (H []). exact Hnd.
Qed.

(** C9, as the code has it. On a backing store that does not fail, after
    [storeStatusValues] the value set reads back as the values that were
    stored before followed by the new values that match none before them,
    field for field, provided no field holds a carriage return immediately
    followed by a line feed; for an enrollment without stored values and a
    list without duplicates that is the list itself. *)
Theorem storeStatusValues_read_back (enrollmentID : string)
    (values cur : list StatusValue) (w w1 : World) :
  faults w = [] ->
  readStatusValues enrollmentID w = (Some (cur, None), w1) ->
  forallb cleanValue (cur ++ values) = true ->
  exists w2,
    storeStatusValues enrollmentID values w = (Some None, w2)
    /\ fst (readStatusValues enrollmentID w2)
       = Some (mergeStatusValues cur values, None)
    /\ (cur = [] -> NoDup values -> mergeStatusValues cur values = values).
Proof.
  intros Hf Hread Hc.
  assert (Hlast : cur = [] -> NoDup values ->
                  mergeStatusValues cur values = values).
  { intros ->. apply mergeStatusValues_NoDup. }
  unfold storeStatusValues.
  destruct values as [|v values].
  - exists w. cbn [List.length Nat.ltb Nat.leb]. split; [reflexivity|].
    split; [|exact Hlast]. now rewrite Hread.
  - cbn [List.length Nat.ltb Nat.leb]. unfold bind at 1. rewrite Hread.
    cbv beta iota zeta.
    pose proof (readStatusValues_world _ _ _ _ Hread) as ->.
    set (merged := mergeStatusValues cur (v :: values)).
    assert (Hne : (List.length merged <=? 0)%nat = false).
    { assert (Hin : In v merged)
        by (apply mergeStatusValues_In; right; now left).
      destruct merged; [contradiction | reflexivity]. }
    rewrite Hne.
    assert (Hclean : forallb cleanValue merged = true).
    { apply forallb_forall. intros u Hu.
      rewrite forallb_forall in Hc. apply Hc, in_or_app.
      now apply mergeStatusValues_In. }
    rewrite AddItem_ok;
      [| cbn [faults logged]; now rewrite Hf | reflexivity].
    eexists. split; [reflexivity|]. split; [|exact Hlast].
    apply readStatusValues_stored.
    + cbn [faults withTable logged]. now rewrite Hf.
    + cbn [tbl withTable]. apply lookup_put_same.
    + exact Hclean.
Qed.

(** C9 as stated fails: a value with a carriage return and a line feed
    reads back with the line feed alone, and a list that holds a tuple
    twice reads back with the tuple once. *)
Lemma storeStatusValues_round_trip_counterexample :
  fst (readStatusValues "EN1"
         (snd (storeStatusValues "EN1"
                 [mkStatusValue ".p" "" "string"
                    ("a" +++ String Csv.CR (String Csv.LF "b"))]
                 Scenario.emptyWorld)))
  = Some ([mkStatusValue ".p" "" "string" ("a" +++ String Csv.LF "b")], None)
  /\ fst (readStatusValues "EN1"
            (snd (storeStatusValues "EN1"
                    [mkStatusValue ".p" "" "string" "1";
                     mkStatusValue ".p" "" "string" "1"]
                    Scenario.emptyWorld)))
     = Some ([mkStatusValue ".p" "" "string" "1"], None).
Proof. vm_compute. split; reflexivity. Qed.

Lemma storeStatusValues_read_back_witness :
  exists w2,
    storeStatusValues "EN1" reportedValues Scenario.emptyWorld
    = (Some None, w2)
    /\ fst (readStatusValues "EN1" w2) = Some (reportedValues, None).
Proof.
  assert (Hread :
    readStatusValues "EN1" Scenario.emptyWorld
    = (Some ([], None),
       logged (ReqGetItem "enroll#EN1" "status#values") Scenario.emptyWorld))
    by (vm_compute; reflexivity).
  assert (Hclean : forallb cleanValue ([] ++ reportedValues) = true)
    by (vm_compute; reflexivity).
  destruct (storeStatusValues_read_back "EN1" reportedValues []
              Scenario.emptyWorld _ eq_refl Hread Hclean)
    as (w2 & Hstore & Hback & Hsame).
  exists w2. split; [exact Hstore|].
  rewrite Hback, (Hsame eq_refl); [reflexivity|].
  repeat constructor; simpl; intuition discriminate.
Defined.

(** *** Ingesting values into the stored set *)

(** What [storeStatusValues] leaves in the store, as read back. *)
Lemma storeStatusValues_stores_merge (enrollmentID : string)
    (values cur : list StatusValue) (w w1 : World) :
  faults w = [] ->
  readStatusValues enrollmentID w = (Some (cur, None), w1) ->
  forallb cleanValue (cur ++ values) = true ->
  exists w2,
    storeStatusValues enrollmentID values w = (Some None, w2)
    /\ fst (readStatusValues enrollmentID w2)
       = Some (mergeStatusValues cur values, None).
Proof.
  intros Hf Hread Hc. unfold storeStatusValues.
  destruct values as [|v values].
  - exists w. cbn [List.length Nat.ltb Nat.leb]. split; [reflexivity|].
    now rewrite Hread.
  - cbn [List.length Nat.ltb Nat.leb]. unfold bind at 1. rewrite Hread.
    cbv beta iota zeta.
    pose proof (readStatusValues_world _ _ _ _ Hread) as ->.
    set (merged := mergeStatusValues cur (v :: values)).
    assert (Hne : (List.length merged <=? 0)%nat = false).
    { assert (Hin : In v merged)
        by (apply mergeStatusValues_In; right; now left).
      destruct merged; [contradiction | reflexivity]. }
    rewrite Hne.
    assert (Hclean : forallb cleanValue merged = true).
    { apply forallb_forall. intros u Hu.
      rewrite forallb_forall in Hc. apply Hc, in_or_app.
      now apply mergeStatusValues_In. }
    rewrite AddItem_ok;
      [| cbn [faults logged]; now rewrite Hf | reflexivity].
    eexists. split; [reflexivity|].
    apply readStatusValues_stored.
    + cbn [faults withTable logged]. now rewrite Hf.
    + cbn [tbl withTable]. apply lookup_put_same.
    + exact Hclean.
Qed.

(** C6, as the code has it. On a backing store that does not fail, and
    provided no field of a stored or of an ingested tuple holds a carriage
    return immediately followed by a line feed: after [storeStatusValues]
    the value set reads back as the set that was stored followed by tuples
    of the report that matched no stored entry, so that no stored entry is
    removed; for a tuple [v] of the report, a match in the stored set is
    not duplicated (as many entries match [v] as before), a tuple that
    differs from every stored entry is there as one further entry, and a
    stored set without duplicates reads back without duplicates, with
    exactly one entry that matches [v] on all four fields. *)
Theorem storeStatusValues_deduplicates (enrollmentID : string)
    (values cur : list StatusValue) (v : StatusValue) (w w1 : World) :
  faults w = [] ->
  readStatusValues enrollmentID w = (Some (cur, None), w1) ->
  forallb cleanValue (cur ++ values) = true ->
  In v values ->
  exists w2 stored,
    storeStatusValues enrollmentID values w = (Some None, w2)
    /\ fst (readStatusValues enrollmentID w2) = Some (stored, None)
    /\ (exists added,
          stored = cur ++ added
          /\ forall u, In u added -> In u values /\ ~ In u cur)
    /\ (0 < countMatches v cur -> countMatches v stored = countMatches v cur)
    /\ (countMatches v cur = 0 ->
        countMatches v stored = 1 /\ In v stored)
    /\ (NoDup cur -> NoDup stored /\ countMatches v stored = 1).
Proof.
  intros Hf Hread Hc Hv.
  destruct (storeStatusValues_stores_merge enrollmentID values cur w w1
              Hf Hread Hc) as (w2 & Hstore & Hback).
  destruct (mergeStatusValues_counts cur values v Hv)
    as (Hadded & Hsame & Hnew & Hnd).
  exists w2, (mergeStatusValues cur values).
  repeat split; try assumption; try (now apply Hsame); try (now apply Hnew);
    now apply Hnd.
Qed.

(** C6 as stated fails for a value with a carriage return and a line feed:
    it is stored with both and read back with the line feed alone, so the
    same tuple ingested a second time matches no stored entry and is
    appended, and the value set then reads back with two entries that are
    equal on all four fields. *)
Lemma storeStatusValues_duplicates_counterexample :
  fst (readStatusValues "EN1"
         (snd (storeStatusValues "EN1"
                 [mkStatusValue ".p" "" "string"
                    ("a" +++ String Csv.CR (String Csv.LF "b"))]
                 (snd (storeStatusValues "EN1"
                         [mkStatusValue ".p" "" "string"
                            ("a" +++ String Csv.CR (String Csv.LF "b"))]
                         Scenario.emptyWorld)))))
  = Some ([mkStatusValue ".p" "" "string" ("a" +++ String Csv.LF "b");
           mkStatusValue ".p" "" "string" ("a" +++ String Csv.LF "b")],
          None).
Proof. vm_compute. reflexivity. Qed.

Lemma storeStatusValues_deduplicates_witness :
  exists w2 stored,
    storeStatusValues "EN1" reportedValues
      (snd (storeStatusValues "EN1" storedValues Scenario.emptyWorld))
    = (Some None, w2)
    /\ fst (readStatusValues "EN1" w2) = Some (stored, None)
    /\ (exists added, stored = storedValues ++ added)
    /\ countMatches (mkStatusValue ".a" "" "string" "1") stored = 1
    /\ countMatches (mkStatusValue ".a" "" "string" "2") stored = 1.
Proof.
  assert (Hread :
    readStatusValues "EN1"
      (snd (storeStatusValues "EN1" storedValues Scenario.emptyWorld))
    = (Some (storedValues, None),
       logged (ReqGetItem "enroll#EN1" "status#values")
         (snd (storeStatusValues "EN1" storedValues Scenario.emptyWorld))))
    by (vm_compute; reflexivity).
  assert (Hclean : forallb cleanValue (storedValues ++ reportedValues) = true)
    by (vm_compute; reflexivity).
  assert (Hnd : NoDup storedValues)
    by (constructor; [simpl; tauto | constructor]).
  assert (Hf : faults
                 (snd (storeStatusValues "EN1" storedValues
                         Scenario.emptyWorld)) = [])
    by (vm_compute; reflexivity).
  destruct (storeStatusValues_deduplicates "EN1" reportedValues storedValues
              (mkStatusValue ".a" "" "string" "1") _ _ Hf Hread Hclean)
    as (w2 & stored & Hstore & Hback & (added & Hadded & _) & _ & _ & H1);
    [simpl; tauto|].
  destruct (storeStatusValues_deduplicates "EN1" reportedValues storedValues
              (mkStatusValue ".a" "" "string" "2") _ _ Hf Hread Hclean)
    as (w2' & stored' & Hstore' & Hback' & _ & _ & H2 & _);
    [simpl; tauto|].
  assert (Hsame : stored' = stored).
  { rewrite Hstore in Hstore'. injection Hstore' as <-.
    rewrite Hback in Hback'. now injection Hback' as <-. }
  subst stored'.
  exists w2, stored. split; [exact Hstore|]. split; [exact Hback|].
  split; [now exists added|].
  split; [exact (proj2 (H1 Hnd)) | exact (proj1 (H2 eq_refl))].
Defined.

(** *** The reader always returns *)

Lemma length_substring (s : string) (a b : nat) :
  String.length (substring a b s) <= b
  /\ String.length (substring a b s) <= String.length s - a.
Proof.
  revert a b; induction s as [|c s IH]; intros a b.
  - destruct a, b; simpl; lia.
  - destruct a as [|a]; [destruct b as [|b]|]; simpl.
    + lia.
    + destruct (IH 0 b). lia.
    + apply IH.
Qed.

Lemma length_sliceFrom (s : string) (i : nat) :
  String.length (sliceFrom s (S i)) + 1 <= String.length s
  \/ String.length s = 0.
Proof.
  unfold sliceFrom. destruct (length_substring s (S i) (String.length s - S i)).
  destruct s; [now right | left]. simpl in *. lia.
Qed.

Lemma length_dropLast (s : string) :
  String.length (dropLast s) <= String.length s - 1.
Proof. unfold dropLast. apply length_substring. Qed.

Lemma ReadSlice_length (inp line rest : string) (eof : bool) :
  ReadSlice inp = (line, rest, eof) ->
  String.length line + String.length rest = String.length inp
  /\ (eof = false -> line <> "").
Proof.
  intros E. split.
  - rewrite (ReadSlice_app _ _ _ _ E). now rewrite length_append.
  - intros Heof. subst eof. revert line rest E.
    induction inp as [|c s IH]; simpl.
    + discriminate.
    + destruct (Ascii.eqb c LF).
      * intros line rest E; injection E as <- <-. discriminate.
      * destruct (ReadSlice s) as [[l r] e].
        intros line rest E; injection E as <- <- He. discriminate.
Qed.

Lemma readLine_length (inp line rest : string) (err : bool) :
  readLine inp = (line, err, rest) ->
  String.length line + String.length rest <= String.length inp
  /\ (err = false -> String.length rest < String.length inp).
Proof.
  unfold readLine. destruct (ReadSlice inp) as [[l0 r] eof] eqn:E.
  destruct (ReadSlice_length _ _ _ _ E) as [Hlen Hne].
  set (l1 := if byteIs l0 (String.length l0 - 1) CR then dropLast l0 else l0).
  assert (H1 : String.length l1 <= String.length l0).
  { subst l1. destruct (byteIs l0 _ CR); [|lia].
    pose proof (length_dropLast l0). lia. }
  assert (Hnorm : forall l : string,
            String.length
              (if (2 <=? String.length l)%nat
                  && byteIs l (String.length l - 2) CR
                  && byteIs l (String.length l - 1) LF
               then dropLast (dropLast l) +++ String LF "" else l)
            <= String.length l).
  { intros l. destruct (2 <=? String.length l)%nat eqn:E2; cbn [andb]; [|lia].
    apply Nat.leb_le in E2.
    destruct (_ && _); [|lia]. rewrite length_append. cbn [String.length].
    pose proof (length_dropLast (dropLast l)).
    pose proof (length_dropLast l). lia. }
  destruct ((0 <? String.length l0)%nat && eof) eqn:Eb.
  - intros H; injection H as <- <- <-.
    apply andb_true_iff in Eb as [Hpos _]. apply Nat.ltb_lt in Hpos.
    match goal with
    | |- String.length ?x + _ <= _ /\ _ =>
        assert (G : String.length x <= String.length l1) by exact (Hnorm l1)
    end.
    split; [|intros _]; lia.
  - intros H; injection H as <- <- <-.
    match goal with
    | |- String.length ?x + _ <= _ /\ _ =>
        assert (G : String.length x <= String.length l0) by exact (Hnorm l0)
    end.
    split; [lia|].
    intros Heof. subst eof. specialize (Hne eq_refl).
    destruct l0; [contradiction | cbn [String.length] in *; lia].
Qed.

Lemma IndexByte_lt (s : string) (c : ascii) (i : nat) :
  IndexByte s c = Some i -> i < String.length s.
Proof.
  revert i; induction s as [|d s IH]; simpl; [discriminate|].
  destruct (Ascii.eqb d c).
  - intros i E; injection E as <-. lia.
  - destruct (IndexByte s c) as [j|]; [|discriminate].
    intros i E; injection E as <-. specialize (IH j eq_refl). lia.
Qed.

Lemma length_after_index (s : string) (c : ascii) (i : nat) :
  IndexByte s c = Some i ->
  String.length (sliceFrom s (i + 1)) < String.length s.
Proof.
  intros E. apply IndexByte_lt in E. rewrite Nat.add_1_r.
  destruct (length_sliceFrom s i); lia.
Qed.

Lemma returns_Some (inp : string) (fields : list string)
    (err : option ParseErr) :
  returns inp (Some (fields, err, inp)).
Proof. exists fields, err, inp. split; [reflexivity | lia]. Qed.

Lemma returns_shorter (inp inp' : string)
    (r : option (list string * option ParseErr * string)) :
  String.length inp' <= String.length inp -> returns inp' r -> returns inp r.
Proof.
  intros Hle (fields & err & rest & -> & Hr).
  exists fields, err, rest. split; [reflexivity | lia].
Qed.

Lemma parse_total (fuel : nat) :
  (forall line inp fields,
     String.length line + String.length inp < fuel ->
     returns inp (parseField fuel line inp fields))
  /\ (forall line inp buf fields,
        String.length line + String.length inp < fuel ->
        returns inp (quotedField fuel line inp buf fields)).
Proof.
  induction fuel as [|fuel [IHp IHq]]; [split; intros; lia|].
  split.
  - intros line inp fields Hlen. rewrite parseField_S. cbv zeta.
    assert (Hu : returns inp
                   match unquotedField line fields with
                   | ContinueParse line' fields' =>
                       parseField fuel line' inp fields'
                   | BreakParse fields' err => Some (fields', err, inp)
                   end).
    { unfold unquotedField.
      destruct (IndexByte line COMMA) as [i|] eqn:Ei.
      - destruct (IndexByte (substring 0 i line) DQUOTE);
          [apply returns_Some|].
        apply IHp. pose proof (length_after_index line COMMA i Ei). lia.
      - destruct (IndexByte _ DQUOTE); apply returns_Some. }
    destruct line as [|c line]; [exact Hu|].
    destruct (Ascii.eqb c DQUOTE); [|exact Hu].
    apply IHq. cbn [String.length] in Hlen. lia.
  - intros line inp buf fields Hlen. rewrite quotedField_S.
    destruct (IndexByte line DQUOTE) as [i|] eqn:Ei.
    + cbv zeta. pose proof (length_after_index line DQUOTE i Ei) as Hs.
      destruct (sliceFrom line (i + 1)) as [|c line'] eqn:Es;
        [apply returns_Some|].
      cbn [String.length] in Hs.
      destruct (Ascii.eqb c DQUOTE); [apply IHq; lia|].
      destruct (Ascii.eqb c COMMA); [apply IHp; lia|].
      destruct (_ =? _)%nat; apply returns_Some.
    + destruct (0 <? String.length line)%nat eqn:Epos;
        [|apply returns_Some].
      apply Nat.ltb_lt in Epos.
      destruct (readLine inp) as [[line' e] inp'] eqn:Er.
      destruct (readLine_length _ _ _ _ Er) as [Hle _].
      apply (returns_shorter inp inp'); [lia|]. apply IHq. lia.
Qed.

Lemma firstLine_total (fuel : nat) :
  forall inp,
    String.length inp < fuel ->
    exists line err rest,
      firstLine fuel inp = Some (line, err, rest)
      /\ String.length line + String.length rest <= String.length inp
      /\ (err = false -> String.length rest < String.length inp).
Proof.
  induction fuel as [|fuel IH]; intros inp Hlen; [lia|].
  cbn [firstLine]. destruct (readLine inp) as [[line err] rest] eqn:Er.
  destruct (readLine_length _ _ _ _ Er) as [Hle Hlt].
  destruct (negb err && (String.length line =? lengthNL line)%nat) eqn:Eb.
  - apply andb_true_iff in Eb as [He _]. apply negb_true_iff in He.
    specialize (Hlt He).
    destruct (IH rest) as (l & e & r & E & H1 & H2); [lia|].
    exists l, e, r. split; [exact E|]. split; [lia|]. intros He'.
    specialize (H2 He'). lia.
  - exists line, err, rest. auto.
Qed.

Lemma Read_total (r : Reader) :
  exists record err r',
    Read r = Some (record, err, r')
    /\ (err <> Some EOF ->
        String.length (unread r') < String.length (unread r)).
Proof.
  unfold Read.
  destruct (firstLine_total (S (String.length (unread r))) (unread r))
    as (line & e & rest & -> & Hle & Hlt); [lia|].
  destruct e.
  - eexists _, _, _. split; [reflexivity|]. intros H. now contradiction H.
  - specialize (Hlt eq_refl).
    destruct (proj1 (parse_total (S (String.length line + String.length rest)))
                line rest [])
      as (fields & err & rest' & -> & Hr); [lia|].
    destruct (0 <? FieldsPerRecord r)%nat;
      (eexists _, _, _; split; [reflexivity|]; intros _;
       cbn [unread]; lia).
Qed.

Lemma readRecords_total (fuel : nat) :
  forall reader ret,
    String.length (unread reader) < fuel ->
    readRecords fuel reader ret <> None.
Proof.
  induction fuel as [|fuel IH]; intros reader ret Hlen; [lia|].
  cbn [readRecords].
  destruct (Read_total reader) as (record & err & r' & -> & Hlt).
  destruct err as [[|e]|]; try discriminate.
  destruct record as [|r0 [|r1 [|r2 [|r3 [|r4 record]]]]]; try discriminate.
  apply IH. assert (H : @None ReadErr <> Some EOF) by discriminate.
  specialize (Hlt H). lia.
Qed.

(** The reader gives a result for every body: [readStatusValues] does not
    stop for lack of fuel. *)
Lemma parseStatusValues_total (body : string) :
  parseStatusValues body <> None.
Proof.
  unfold parseStatusValues. apply readRecords_total.
  unfold NewReader. cbn [unread]. lia.
Qed.

(** * Further properties of the code *)

(** ** [containsValue], [mergeStatusValues], [filterPathPrefix] *)

Lemma containsValue_from_index (values : list StatusValue) (v : StatusValue)
    (i : Z) :
  let r := containsValue_from i values v in
  (r = (-1)%Z /\ ~ In v values)
  \/ ((i <= r < i + Z.of_nat (List.length values))%Z
      /\ nth_error values (Z.to_nat (r - i)) = Some v
      /\ forall j, (j < Z.to_nat (r - i))%nat -> nth_error values j <> Some v).
Proof.
  revert i; induction values as [|value values IH]; intros i; cbn zeta.
  - left. simpl. tauto.
  - cbn [containsValue_from]. destruct (sameValue v value) eqn:E.
    + right. apply sameValue_iff in E as <-.
      rewrite Z.sub_diag. cbn [Z.to_nat nth_error List.length].
      split; [lia|]. split; [reflexivity|]. intros j Hj. lia.
    + assert (Hne : v <> value).
      { intros ->. now rewrite sameValue_refl in E. }
      destruct (IH (i + 1)%Z) as [[Hr Hn]|(Hr & Hnth & Hmin)].
      * left. split; [assumption|]. intros [H|H]; [congruence|tauto].
      * right. cbn zeta in *. set (r := containsValue_from (i + 1) values v) in *.
        replace (Z.to_nat (r - i)) with (S (Z.to_nat (r - (i + 1)))) by lia.
        cbn [nth_error List.length]. split; [lia|]. split; [assumption|].
        intros [|j] Hj; cbn [nth_error].
        -- congruence.
        -- apply Hmin. lia.
Qed.

(** X1. [containsValue] returns -1 exactly when no element of the list has
    the four fields of the value; otherwise it returns a valid index, the
    element at that index is the value, and no earlier element is. *)
Theorem containsValue_first_index (values : list StatusValue)
    (v : StatusValue) :
  let i := containsValue values v in
  (i = (-1)%Z /\ ~ In v values)
  \/ ((0 <= i < Z.of_nat (List.length values))%Z
      /\ nth_error values (Z.to_nat i) = Some v
      /\ forall j, (j < Z.to_nat i)%nat -> nth_error values j <> Some v).
Proof.
  cbn zeta. unfold containsValue.
  destruct (containsValue_from_index values v 0) as [H|H]; [now left|right].
  cbn zeta in H. now rewrite Z.sub_0_r, Z.add_0_l in H.
Qed.

Lemma mergeStatusValues_present (src dst : list StatusValue) :
  incl src dst -> mergeStatusValues dst src = dst.
Proof.
  induction src as [|s src IH]; intros Hincl; [reflexivity|].
  rewrite mergeStatusValues_cons.
  destruct (containsValue dst s <? 0)%Z eqn:E.
  - apply containsValue_absent in E. exfalso. apply E, Hincl. now left.
  - apply IH. intros u Hu. apply Hincl. now right.
Qed.

Lemma mergeStatusValues_incl (src dst : list StatusValue) :
  incl src (mergeStatusValues dst src).
Proof.
  intros u Hu.
  destruct (mergeStatusValues_added src dst) as (added & -> & _ & Hin).
  apply in_or_app.
  destruct (in_dec StatusValue_eq_dec u dst) as [H|H]; [now left|right].
  apply Hin. now split.
Qed.

(** X2. Merging is idempotent: merging the same values a second time into
    the result of a merge changes nothing, and values already present are
    merged into a list without changing it. *)
Theorem mergeStatusValues_idempotent (dst src : list StatusValue) :
  mergeStatusValues (mergeStatusValues dst src) src = mergeStatusValues dst src
  /\ mergeStatusValues dst dst = dst.
Proof.
  split.
  - apply mergeStatusValues_present, mergeStatusValues_incl.
  - apply mergeStatusValues_present, incl_refl.
Qed.

Lemma HasPrefix_percent (p : string) :
  HasPrefix p "%" = true -> exists r, p = "%" +++ r.
Proof.
  destruct p as [|c p]; simpl; [discriminate|].
  rewrite andb_true_r. intros H. apply Ascii.eqb_eq in H as ->. now exists p.
Qed.

Lemma slice_in_range (s : string) (i j : nat) :
  i <= j -> j <= String.length s -> slice s i j = Some (substring i (j - i) s).
Proof.
  intros Hi Hj. unfold slice.
  replace (i <=? j)%nat with true by (symmetry; now apply Nat.leb_le).
  replace (j <=? String.length s)%nat with true
    by (symmetry; now apply Nat.leb_le).
  reflexivity.
Qed.

(** When the loop body panics. *)
Lemma pathFound_panics (pathPrefix path : string) :
  pathFound pathPrefix path = None
  <-> pathPrefix = "%" /\ 3 <= String.length path.
Proof.
  unfold pathFound. split.
  - destruct (3 <=? String.length path)%nat eqn:Hlen;
      destruct (HasPrefix pathPrefix "%") eqn:Hpre;
      destruct (HasSuffix pathPrefix "%") eqn:Hsuf; cbn [andb];
      try discriminate;
      try (apply HasPrefix_percent in Hpre as [r ->]);
      try (rewrite slice_in_range by (simpl; lia); discriminate).
    destruct r as [|c r].
    + intros _. split; [reflexivity|]. now apply Nat.leb_le.
    + rewrite slice_in_range by (simpl; lia). discriminate.
  - intros [-> Hlen].
    replace (3 <=? String.length path)%nat with true
      by (symmetry; now apply Nat.leb_le).
    reflexivity.
Qed.

Lemma filterPathPrefix_loop_None (pathPrefix : string)
    (values ret : list StatusValue) :
  filterPathPrefix_loop values pathPrefix ret = None
  <-> exists v, In v values /\ pathFound pathPrefix (Path v) = None.
Proof.
  revert ret; induction values as [|v values IH]; intros ret; simpl.
  - split; [discriminate | intros (v & [] & _)].
  - destruct (pathFound pathPrefix (Path v)) as [found|] eqn:E.
    + rewrite IH. split.
      * intros (u & Hu & Hnone). exists u. tauto.
      * intros (u & [<-|Hu] & Hnone); [congruence|]. now exists u.
    + split; [|reflexivity]. intros _. exists v. split; [now left|assumption].
Qed.

Lemma filterPathPrefix_loop_Some (pathPrefix : string)
    (values ret out : list StatusValue) :
  filterPathPrefix_loop values pathPrefix ret = Some out ->
  out = ret
        ++ filter (fun v => match pathFound pathPrefix (Path v) with
                            | Some found => found
                            | None => false
                            end) values.
Proof.
  revert ret; induction values as [|v values IH]; intros ret; simpl.
  - intros [= <-]. now rewrite app_nil_r.
  - destruct (pathFound pathPrefix (Path v)) as [found|]; [|discriminate].
    intros H. apply IH in H as ->.
    destruct found; [now rewrite <- app_assoc | reflexivity].
Qed.

(** X3. [filterPathPrefix] panics (a slice expression out of range) exactly
    when the pattern is the single marker [%] and some value has a path of
    three bytes or more; in every other case it returns a sublist of the
    values, in their order. *)
Theorem filterPathPrefix_panics_on_lone_marker (values : list StatusValue)
    (pathPrefix : string) :
  (filterPathPrefix values pathPrefix = None
   <-> pathPrefix = "%"
       /\ exists v, In v values /\ 3 <= String.length (Path v))
  /\ (forall ret,
        filterPathPrefix values pathPrefix = Some ret ->
        exists keep, ret = filter keep values).
Proof.
  unfold filterPathPrefix. split.
  - rewrite filterPathPrefix_loop_None. split.
    + intros (v & Hv & Hnone). apply pathFound_panics in Hnone as [-> Hlen].
      split; [reflexivity|]. now exists v.
    + intros (-> & v & Hv & Hlen). exists v. split; [assumption|].
      now apply pathFound_panics.
  - intros ret H. apply filterPathPrefix_loop_Some in H. eauto.
Qed.

(** ** The table, item by item *)

Lemma In_put (it : Item) (t : Table) : In it (put it t).
Proof.
  induction t as [|x t IH]; simpl; [now left|].
  destruct (key_compare (keyOf it) (keyOf x)); simpl; auto.
Qed.

Lemma In_put_other (x it : Item) (t : Table) :
  In x t -> keyOf x <> keyOf it -> In x (put it t).
Proof.
  intros Hin Hne. induction t as [|y t IH]; simpl; [destruct Hin|].
  destruct (key_compare (keyOf it) (keyOf y)) eqn:E; simpl.
  - destruct Hin as [->|Hin]; [|now right].
    apply key_compare_eq in E. congruence.
  - now right.
  - destruct Hin as [->|Hin]; [now left|]. right. now apply IH.
Qed.

Lemma In_put_inv (x it : Item) (t : Table) :
  In x (put it t) -> x = it \/ In x t.
Proof.
  induction t as [|y t IH]; simpl.
  - intros [<-|[]]. now left.
  - destruct (key_compare (keyOf it) (keyOf y)); simpl.
    + intros [<-|H]; auto.
    + intros [<-|H]; auto.
    + intros [<-|H]; auto. destruct (IH H); auto.
Qed.

Lemma lookup_In (t : Table) (k : Key) (it : Item) :
  lookup t k = Some it -> In it t.
Proof.
  induction t as [|x t IH]; simpl; [discriminate|].
  destruct (key_eqb (keyOf x) k).
  - intros [= <-]. now left.
  - intros H. right. now apply IH.
Qed.

Lemma In_remove (x : Item) (k : Key) (t : Table) :
  In x (remove k t) <-> In x t /\ keyOf x <> k.
Proof.
  unfold remove. rewrite filter_In, negb_true_iff, key_eqb_neq. tauto.
Qed.

(** A selection that looks at the key only is not changed by the put of an
    item it rejects. *)
Lemma filter_put_other (f : Item -> bool) (it : Item) (t : Table) :
  (forall x y, keyOf x = keyOf y -> f x = f y) ->
  f it = false -> filter f (put it t) = filter f t.
Proof.
  intros Hkey Hf. induction t as [|x t IH]; simpl.
  - now rewrite Hf.
  - destruct (key_compare (keyOf it) (keyOf x)) eqn:E; simpl.
    + apply key_compare_eq in E. rewrite Hf, <- (Hkey it x E), Hf.
      reflexivity.
    + now rewrite Hf.
    + now rewrite IH.
Qed.

Lemma filter_remove_other (f : Item -> bool) (k : Key) (t : Table) :
  (forall x, keyOf x = k -> f x = false) ->
  filter f (remove k t) = filter f t.
Proof.
  intros Hf. unfold remove. induction t as [|x t IH]; simpl; [reflexivity|].
  destruct (key_eqb (keyOf x) k) eqn:E; simpl.
  - apply key_eqb_eq in E. now rewrite (Hf x E).
  - now rewrite IH.
Qed.

Lemma query_key (p b : string) (x y : Item) :
  keyOf x = keyOf y ->
  (String.eqb (pk x) p && HasPrefix (sk x) b)
  = (String.eqb (pk y) p && HasPrefix (sk y) b).
Proof. unfold keyOf. intros [= -> ->]. reflexivity. Qed.

Lemma queryReverse_key (s b : string) (x y : Item) :
  keyOf x = keyOf y ->
  (String.eqb (sk x) s && HasPrefix (pk x) b)
  = (String.eqb (sk y) s && HasPrefix (pk y) b).
Proof. unfold keyOf. intros [= -> ->]. reflexivity. Qed.

Lemma query_put_other (it : Item) (t : Table) (p b : string) :
  String.eqb (pk it) p && HasPrefix (sk it) b = false ->
  query (put it t) p b = query t p b.
Proof. intros H. apply filter_put_other; [apply query_key | exact H]. Qed.

Lemma queryReverse_put_other (it : Item) (t : Table) (s b : string) :
  String.eqb (sk it) s && HasPrefix (pk it) b = false ->
  queryReverse (put it t) s b = queryReverse t s b.
Proof. intros H. apply filter_put_other; [apply queryReverse_key | exact H]. Qed.

Lemma append_inj_l (a b c : string) : a +++ b = a +++ c -> b = c.
Proof. induction a as [|x a IH]; simpl; [tauto|]. intros [= H]. auto. Qed.

Lemma TrimPrefix_append (p r : string) : TrimPrefix (p +++ r) p = r.
Proof.
  unfold TrimPrefix. rewrite HasPrefix_append. apply sliceFrom_append.
Qed.

Lemma TrimPrefix_HasPrefix (s p : string) :
  HasPrefix s p = true -> s = p +++ TrimPrefix s p.
Proof.
  intros H. apply HasPrefix_iff in H as [r ->]. now rewrite TrimPrefix_append.
Qed.

(** ** The table methods, run *)

Lemma AddItem_run {X} `{Marshal X} (item : X) (w : World) :
  AddItem item w
  = if hd false (faults w) || negb (validKey (MarshalMap item))
    then (Some (Some ErrBackingStore), logged (ReqPutItem (MarshalMap item)) w)
    else (Some None,
          withTable (put (MarshalMap item) (tbl w))
            (logged (ReqPutItem (MarshalMap item)) w)).
Proof.
  unfold AddItem, bind, call.
  destruct (hd false (faults w) || negb (validKey (MarshalMap item)));
    reflexivity.
Qed.

Lemma deleteSingleItem_run {X} `{Marshal X} (item : X) (w : World) :
  deleteSingleItem item w
  = if hd false (faults w) || negb (validKey (MarshalMap item))
    then (Some false, logged (ReqDeleteItem (MarshalMap item)) w)
    else (Some true,
          withTable (remove (keyOf (MarshalMap item)) (tbl w))
            (logged (ReqDeleteItem (MarshalMap item)) w)).
Proof.
  unfold deleteSingleItem, bind, call.
  destruct (hd false (faults w) || negb (validKey (MarshalMap item)));
    reflexivity.
Qed.

Lemma GetSingleItemPKSK_run {X} `{Unmarshal X} (p s : string) (result : X)
    (w : World) :
  GetSingleItemPKSK p s result w
  = (Some (if hd false (faults w) then (result, Some ErrBackingStore)
           else match lookup (tbl w) (p, s) with
                | Some it => UnmarshalMap it result
                | None => (result, None)
                end),
     logged (ReqGetItem p s) w).
Proof.
  unfold GetSingleItemPKSK, bind, call, getTable.
  destruct (hd false (faults w)); [reflexivity|].
  cbn [tbl logged]. destruct (lookup (tbl w) (p, s)); reflexivity.
Qed.

Lemma GetItemsSKBeginsWith_run {X} `{UnmarshalList X} (p b : string)
    (result : X) (w : World) :
  GetItemsSKBeginsWith p b result w
  = (Some (if hd false (faults w) then (result, Some ErrBackingStore)
           else UnmarshalListOfMaps (query (tbl w) p b) result),
     logged (ReqQuery p b) w).
Proof.
  unfold GetItemsSKBeginsWith, bind, call, getTable.
  destruct (hd false (faults w)); reflexivity.
Qed.

Lemma GetReverseItems_run {X} `{UnmarshalList X} (s b : string)
    (result : X) (w : World) :
  GetReverseItems s b result w
  = (Some (if hd false (faults w) then (result, Some ErrBackingStore)
           else UnmarshalListOfMaps (queryReverse (tbl w) s b) result),
     logged (ReqQueryReverse s b) w).
Proof.
  unfold GetReverseItems, bind, call, getTable.
  destruct (hd false (faults w)); reflexivity.
Qed.

(** Decoding a list of items, element by element. *)
Lemma decodeEach_In {X} `{Unmarshal X} (z : X) (l : list Item) (xs : list X)
    (it : Item) :
  decodeEach z l = Some xs -> In it l ->
  exists x, UnmarshalMap it z = (x, None) /\ In x xs.
Proof.
  revert xs; induction l as [|y l IH]; intros xs; simpl; [intros _ []|].
  destruct (UnmarshalMap y z) as [x [e|]] eqn:Ey; [discriminate|].
  destruct (decodeEach z l) as [ys|]; [|discriminate].
  intros [= <-] [<-|Hin].
  - exists x. split; [assumption | now left].
  - destruct (IH ys eq_refl Hin) as (x' & Hx' & Hin').
    exists x'. split; [assumption | now right].
Qed.

Lemma decodeEach_inv {X} `{Unmarshal X} (z : X) (l : list Item) (xs : list X)
    (x : X) :
  decodeEach z l = Some xs -> In x xs ->
  exists it, In it l /\ UnmarshalMap it z = (x, None).
Proof.
  revert xs; induction l as [|y l IH]; intros xs; simpl.
  - intros [= <-] [].
  - destruct (UnmarshalMap y z) as [x' [e|]] eqn:Ey; [discriminate|].
    destruct (decodeEach z l) as [ys|]; [|discriminate].
    intros [= <-] [<-|Hin].
    + exists y. split; [now left | assumption].
    + destruct (IH ys eq_refl Hin) as (it & Hit & Hx).
      exists it. split; [now right | assumption].
Qed.

Lemma decodeEach_total {X} `{Unmarshal X} (z : X) (f : Item -> X)
    (l : list Item) :
  (forall it, In it l -> UnmarshalMap it z = (f it, None)) ->
  decodeEach z l = Some (map f l).
Proof.
  induction l as [|y l IH]; intros Hf; simpl; [reflexivity|].
  rewrite (Hf y (or_introl eq_refl)), IH; [reflexivity|].
  intros it Hit. apply Hf. now right.
Qed.

Lemma Unmarshal_dsPKSKOnly_run (it : Item) (cur : dsPKSKOnly.t) :
  UnmarshalMap it cur = (dsPKSKOnly.mk (pk it) (sk it), None).
Proof. reflexivity. Qed.

Lemma Unmarshal_Marshal_dsGenericItem (x : dsGenericItem.t) :
  UnmarshalMap (MarshalMap x) (zero : dsGenericItem.t) = (x, None).
Proof.
  destruct x as [p s body].
  unfold UnmarshalMap, Unmarshal_dsGenericItem, MarshalMap,
    Marshal_dsGenericItem, decodeS, S_omitempty.
  cbn [dsGenericItem.PK dsGenericItem.SK dsGenericItem.Body pk sk attrs].
  destruct (String.eqb body "") eqn:E.
  - apply String.eqb_eq in E as ->. reflexivity.
  - reflexivity.
Qed.

Lemma Unmarshal_Marshal_dsDeclaration (x : dsDeclaration.t) :
  UnmarshalMap (MarshalMap x) (zero : dsDeclaration.t) = (x, None).
Proof. destruct x. reflexivity. Qed.

Lemma Unmarshal_Marshal_dsDecError (x : dsDecError.t) :
  UnmarshalMap (MarshalMap x) (zero : dsDecError.t) = (x, None).
Proof. destruct x. reflexivity. Qed.

Lemma Unmarshal_dsGenericItem_plain (it : Item) :
  plainBody it = true ->
  exists body,
    UnmarshalMap it (zero : dsGenericItem.t)
    = (dsGenericItem.mk (pk it) (sk it) body, None).
Proof.
  unfold plainBody, UnmarshalMap, Unmarshal_dsGenericItem, decodeS.
  destruct (attr "body" (attrs it)) as [[s|b]|]; [eauto|discriminate|eauto].
Qed.

(** ** Sets and their declarations *)

Lemma RetrieveSetDeclarations_run (setName : string) (w : World) :
  RetrieveSetDeclarations setName w
  = (Some (if hd false (faults w) then ([], Some ErrBackingStore)
           else (map (fun it => TrimPrefix (sk it) "dec#")
                   (query (tbl w) ("set#" +++ setName) "dec#"),
                 None)),
     logged (ReqQuery ("set#" +++ setName) "dec#") w).
Proof.
  unfold RetrieveSetDeclarations. unfold bind at 1.
  rewrite GetItemsSKBeginsWith_run.
  destruct (hd false (faults w)); [reflexivity|].
  unfold UnmarshalListOfMaps, UnmarshalList_slice.
  rewrite (decodeEach_total zero (fun it => dsPKSKOnly.mk (pk it) (sk it)))
    by (intros; apply Unmarshal_dsPKSKOnly_run).
  unfold ret. now rewrite map_map.
Qed.

Lemma StoreSetDeclaration_stored (setName declarationID : string)
    (w w1 : World) :
  StoreSetDeclaration setName declarationID w = (Some (true, None), w1) ->
  tbl w1
  = put (mkItem ("set#" +++ setName) ("dec#" +++ declarationID) []) (tbl w).
Proof.
  unfold StoreSetDeclaration. unfold bind at 1.
  rewrite GetSingleItemPKSK_run.
  destruct (if hd false (faults w) then _ else _) as [decItem [e|]];
    destruct (String.eqb (dsDeclaration.JSON decItem) "");
    try (unfold ret; discriminate).
  unfold bind. rewrite AddItem_run.
  destruct (_ || _); unfold ret; intros H; inversion H. reflexivity.
Qed.

(** X4. After a [StoreSetDeclaration] that reports success, the declaration
    is among those [RetrieveSetDeclarations] lists for the set, on any read
    that the backing store answers. *)
Theorem StoreSetDeclaration_then_listed (setName declarationID : string)
    (w w1 w2 : World) :
  StoreSetDeclaration setName declarationID w = (Some (true, None), w1) ->
  tbl w2 = tbl w1 ->
  hd false (faults w2) = false ->
  exists ids,
    fst (RetrieveSetDeclarations setName w2) = Some (ids, None)
    /\ In declarationID ids.
Proof.
  intros Hstore Ht Hf. apply StoreSetDeclaration_stored in Hstore.
  rewrite RetrieveSetDeclarations_run, Hf, Ht, Hstore. cbn [fst].
  eexists. split; [reflexivity|].
  apply in_map_iff.
  exists (mkItem ("set#" +++ setName) ("dec#" +++ declarationID) []).
  split; [apply (TrimPrefix_append "dec#")|].
  apply filter_In. split; [apply In_put|].
  cbn [pk sk]. now rewrite String.eqb_refl, (HasPrefix_append "dec#").
Qed.

Lemma StoreSetDeclaration_then_listed_witness :
  exists ids,
    fst (RetrieveSetDeclarations "G1"
           (Scenario.run (StoreSetDeclaration "G1" "D1")
              (Scenario.run (Scenario.storeDeclaration Scenario.D1)
                 Scenario.emptyWorld)))
    = Some (ids, None)
    /\ In "D1" ids.
Proof.
  apply (StoreSetDeclaration_then_listed "G1" "D1"
           (Scenario.run (Scenario.storeDeclaration Scenario.D1)
              Scenario.emptyWorld)
           (Scenario.run (StoreSetDeclaration "G1" "D1")
              (Scenario.run (Scenario.storeDeclaration Scenario.D1)
                 Scenario.emptyWorld))).
  - vm_compute. reflexivity.
  - reflexivity.
  - vm_compute. reflexivity.
Defined.

(** X5. After a [RemoveSetDeclaration] whose delete the backing store
    carried out, [RetrieveSetDeclarations] no longer lists the declaration
    for the set. *)
Theorem RemoveSetDeclaration_then_unlisted (setName declarationID : string)
    (w w2 : World) (ids : list string) (err : option error) :
  hd false (faults w) = false ->
  tbl w2 = tbl (snd (RemoveSetDeclaration setName declarationID w)) ->
  fst (RetrieveSetDeclarations setName w2) = Some (ids, err) ->
  ~ In declarationID ids.
Proof.
  intros Hf Ht. rewrite RetrieveSetDeclarations_run. cbn [fst].
  destruct (hd false (faults w2)); intros [= <- <-]; [intros []|].
  rewrite Ht. unfold RemoveSetDeclaration, bind.
  rewrite deleteSingleItem_run, Hf. cbn [orb].
  replace (validKey _) with true by reflexivity.
  cbn [negb snd ret tbl withTable].
  intros Hin. apply in_map_iff in Hin as (it & Htrim & Hin).
  apply filter_In in Hin as [Hin Hq].
  apply In_remove in Hin as [_ Hne]. apply Hne.
  apply andb_true_iff in Hq as [Hpk Hsk]. apply String.eqb_eq in Hpk.
  apply TrimPrefix_HasPrefix in Hsk. rewrite Htrim in Hsk.
  unfold keyOf. cbn. now rewrite Hpk, Hsk.
Qed.

Lemma RemoveSetDeclaration_then_unlisted_witness :
  fst (RetrieveSetDeclarations "G1"
         (snd (RemoveSetDeclaration "G1" "D1" Scenario.linked)))
  = Some ([], None)
  /\ ~ In "D1" ([] : list string).
Proof.
  split; [vm_compute; reflexivity|].
  apply (RemoveSetDeclaration_then_unlisted "G1" "D1" Scenario.linked
           (snd (RemoveSetDeclaration "G1" "D1" Scenario.linked)) [] None).
  - vm_compute. reflexivity.
  - reflexivity.
  - vm_compute. reflexivity.
Defined.

(** X6. [RemoveSetDeclaration] drops the outcome of the delete: when the
    backing store fails the call it still reports a change and no error,
    and the table is as it was. *)
Theorem RemoveSetDeclaration_hides_failure (setName declarationID : string)
    (w : World) :
  hd false (faults w) = true ->
  fst (RemoveSetDeclaration setName declarationID w) = Some (true, None)
  /\ tbl (snd (RemoveSetDeclaration setName declarationID w)) = tbl w.
Proof.
  intros Hf. unfold RemoveSetDeclaration, bind.
  rewrite deleteSingleItem_run, Hf. split; reflexivity.
Qed.

Lemma RemoveSetDeclaration_hides_failure_witness :
  fst (RemoveSetDeclaration "G1" "D1"
         (mkWorld [mkItem "set#G1" "dec#D1" []] [true] 0 0 []))
  = Some (true, None)
  /\ tbl (snd (RemoveSetDeclaration "G1" "D1"
                 (mkWorld [mkItem "set#G1" "dec#D1" []] [true] 0 0 [])))
     = [mkItem "set#G1" "dec#D1" []].
Proof.
  apply (RemoveSetDeclaration_hides_failure "G1" "D1"
           (mkWorld [mkItem "set#G1" "dec#D1" []] [true] 0 0 [])).
  reflexivity.
Defined.

(** X7. [StoreSetDeclaration] for a declaration that has no record returns
    false with an error (which wraps a nil error when the read itself went
    through), sends no put and leaves the table as it was. *)
Theorem StoreSetDeclaration_missing_declaration
    (setName declarationID : string) (w : World) :
  lookup (tbl w) ("dec#" +++ declarationID, "dec#") = None ->
  StoreSetDeclaration setName declarationID w
  = (Some (false,
           Some (if hd false (faults w)
                 then ErrWrap "checking declaration" ErrBackingStore
                 else ErrWrapNil "checking declaration")),
     logged (ReqGetItem ("dec#" +++ declarationID) "dec#") w).
Proof.
  intros Hl. unfold StoreSetDeclaration. unfold bind at 1.
  rewrite GetSingleItemPKSK_run, Hl.
  destruct (hd false (faults w)); reflexivity.
Qed.

Lemma StoreSetDeclaration_missing_declaration_witness :
  StoreSetDeclaration "G1" "D1" Scenario.emptyWorld
  = (Some (false, Some (ErrWrapNil "checking declaration")),
     logged (ReqGetItem "dec#D1" "dec#") Scenario.emptyWorld).
Proof.
  apply (StoreSetDeclaration_missing_declaration "G1" "D1"
           Scenario.emptyWorld).
  reflexivity.
Defined.

(** ** What the operations do to the table *)

Section Keeps.

Variable R : Table -> Table -> Prop.
Hypothesis R_refl : forall t, R t t.
Hypothesis R_trans : forall t1 t2 t3, R t1 t2 -> R t2 t3 -> R t1 t3.

Variable Wp : Item -> bool.
Hypothesis R_put : forall it t, Wp it = true -> R t (put it t).

Variable Wd : Key -> bool.
Hypothesis R_remove : forall k t, Wd k = true -> R t (remove k t).

Lemma keeps_same {A} (m : M A) :
  (forall w, tbl (snd (m w)) = tbl w) -> keeps R m.
Proof. intros H w. rewrite H. apply R_refl. Qed.

Lemma keeps_ret {A} (a : A) : keeps R (ret a).
Proof. now apply keeps_same. Qed.

Lemma keeps_panic {A} : keeps R (@panic A).
Proof. now apply keeps_same. Qed.

Lemma keeps_bind {A B} (m : M A) (f : A -> M B) :
  keeps R m -> (forall a, keeps R (f a)) -> keeps R (bind m f).
Proof.
  intros Hm Hf w. unfold bind. specialize (Hm w).
  destruct (m w) as [[a|] w']; cbn [snd] in *; [|assumption].
  eapply R_trans; [exact Hm | apply Hf].
Qed.

Lemma keeps_readRandom (rand_Read : nat -> string) :
  keeps R (readRandom rand_Read).
Proof. now apply keeps_same. Qed.

Lemma keeps_timeNow : keeps R timeNow.
Proof. now apply keeps_same. Qed.

Lemma keeps_AddItem {X} `{Marshal X} (item : X) :
  Wp (MarshalMap item) = true -> keeps R (AddItem item).
Proof.
  intros Hw w. rewrite AddItem_run.
  destruct (_ || _); cbn [snd tbl logged withTable]; auto.
Qed.

Lemma keeps_deleteSingleItem {X} `{Marshal X} (item : X) :
  Wd (keyOf (MarshalMap item)) = true -> keeps R (deleteSingleItem item).
Proof.
  intros Hw w. rewrite deleteSingleItem_run.
  destruct (_ || _); cbn [snd tbl logged withTable]; auto.
Qed.

Lemma keeps_GetSingleItemPKSK {X} `{Unmarshal X} (p s : string) (result : X) :
  keeps R (GetSingleItemPKSK p s result).
Proof. apply keeps_same. intros w. now rewrite GetSingleItemPKSK_run. Qed.

Lemma keeps_GetItemsSKBeginsWith {X} `{UnmarshalList X} (p b : string)
    (result : X) :
  keeps R (GetItemsSKBeginsWith p b result).
Proof. apply keeps_same. intros w. now rewrite GetItemsSKBeginsWith_run. Qed.

Lemma keeps_GetReverseItems {X} `{UnmarshalList X} (s b : string)
    (result : X) :
  keeps R (GetReverseItems s b result).
Proof. apply keeps_same. intros w. now rewrite GetReverseItems_run. Qed.

End Keeps.

Ltac keeps_step :=
  match goal with
  | |- keeps _ (ret _) => apply keeps_ret
  | |- keeps _ panic => apply keeps_panic
  | |- keeps _ (bind _ _) => apply keeps_bind; [assumption| |intros]
  | |- keeps _ (GetSingleItemPKSK _ _ _) => apply keeps_GetSingleItemPKSK
  | |- keeps _ (GetItemsSKBeginsWith _ _ _) =>
      apply keeps_GetItemsSKBeginsWith
  | |- keeps _ (GetReverseItems _ _ _) => apply keeps_GetReverseItems
  | |- keeps _ (AddItem _) => eapply keeps_AddItem
  | |- keeps _ (deleteSingleItem _) => eapply keeps_deleteSingleItem
  | |- keeps _ (readRandom _) => apply keeps_readRandom
  | |- keeps _ timeNow => apply keeps_timeNow
  | |- keeps _ (match ?x with _ => _ end) => destruct x
  | |- keeps _ (if ?x then _ else _) => destruct x
  end.

Section KeepsOperations.

Variable newHash : string -> string.
Variable JV : Type.
Variable JString : string -> JV.
Variable json_Unmarshal : string -> option (option (list (string * JV))).
Variable json_Marshal : list (string * JV) -> string.
Variable ParseDeclaration : string -> option Declaration.t.
Variable DeclarationItemsJSON : list Declaration.t -> string.
Variable TokensJSON : list Declaration.t -> string.
Variable rand_Read : nat -> string.
Variable MarshalText : nat -> option string.

Variable R : Table -> Table -> Prop.
Hypothesis R_refl : forall t, R t t.
Hypothesis R_trans : forall t1 t2 t3, R t1 t2 -> R t2 t3 -> R t1 t3.

Variable Wp : Item -> bool.
Hypothesis R_put : forall it t, Wp it = true -> R t (put it t).

Variable Wd : Key -> bool.
Hypothesis R_remove : forall k t, Wd k = true -> R t (remove k t).

Local Abbreviation keeps_bind' := (keeps_bind R R_trans).

Lemma keeps_RetrieveDeclaration (declarationID : string) :
  keeps R (RetrieveDeclaration ParseDeclaration declarationID).
Proof.
  unfold RetrieveDeclaration.
  apply keeps_bind'; [now apply keeps_GetSingleItemPKSK|].
  intros [declaration [e|]]; [now apply keeps_ret|].
  destruct (ParseDeclaration _); now apply keeps_ret.
Qed.

Lemma keeps_collectDeclarations (sets acc : list string) :
  keeps R (collectDeclarations sets acc).
Proof.
  revert acc; induction sets as [|setName sets IH]; intros acc; simpl.
  - now apply keeps_ret.
  - apply keeps_bind'; [now apply keeps_GetItemsSKBeginsWith|].
    intros [declarations [e|]]; [now apply keeps_ret | apply IH].
Qed.

Lemma keeps_addDeclarations (ids : list string) (added : list Declaration.t) :
  keeps R (addDeclarations ParseDeclaration ids added).
Proof.
  revert added; induction ids as [|id ids IH]; intros added; simpl.
  - now apply keeps_ret.
  - apply keeps_bind'; [apply keeps_RetrieveDeclaration|].
    intros [[dec|] e]; [|now apply keeps_panic].
    destruct (ParseDeclaration _); [apply IH | now apply keeps_ret].
Qed.

Lemma keeps_writeEnrollmentDDM (enrollmentID : string) :
  (forall body,
     Wp (MarshalMap (dsGenericItem.mk ("enroll#" +++ enrollmentID) "json"
                       body)) = true) ->
  (forall body,
     Wp (MarshalMap (dsGenericItem.mk ("enroll#" +++ enrollmentID) "tokens"
                       body)) = true) ->
  keeps R
    (writeEnrollmentDDM ParseDeclaration DeclarationItemsJSON TokensJSON
       enrollmentID).
Proof.
  intros W_json W_tokens. unfold writeEnrollmentDDM.
  apply keeps_bind'; [now apply keeps_GetItemsSKBeginsWith|].
  intros [sets [e|]]; [now apply keeps_ret|].
  apply keeps_bind'; [apply keeps_collectDeclarations|].
  intros [ids [e|]]; [now apply keeps_ret|].
  apply keeps_bind'; [apply keeps_addDeclarations|].
  intros [added [e|]]; [now apply keeps_ret|].
  apply keeps_bind'; [now apply (keeps_AddItem R R_refl Wp R_put)|].
  intros [e|]; [now apply keeps_ret|].
  apply keeps_bind'; [now apply (keeps_AddItem R R_refl Wp R_put)|].
  intros [e|]; now apply keeps_ret.
Qed.

Hypothesis W_json :
  forall enrollmentID body,
    Wp (MarshalMap (dsGenericItem.mk ("enroll#" +++ enrollmentID) "json"
                      body)) = true.
Hypothesis W_tokens :
  forall enrollmentID body,
    Wp (MarshalMap (dsGenericItem.mk ("enroll#" +++ enrollmentID) "tokens"
                      body)) = true.

Lemma keeps_writeEach (ids : list string) :
  keeps R (writeEach ParseDeclaration DeclarationItemsJSON TokensJSON ids).
Proof.
  induction ids as [|id ids IH]; simpl.
  - now apply keeps_ret.
  - apply keeps_bind'; [now apply keeps_writeEnrollmentDDM|].
    intros [e|]; [now apply keeps_ret | exact IH].
Qed.

Lemma keeps_enrollmentsOfItems (items : list dsGenericItem.t)
    (enrollments : list string) :
  keeps R (enrollmentsOfItems items enrollments).
Proof.
  revert enrollments; induction items as [|item items IH];
    intros enrollments; simpl.
  - now apply keeps_ret.
  - apply keeps_bind'; [now apply keeps_GetReverseItems|].
    intros [found [e|]]; apply IH.
Qed.

Lemma keeps_writeDeclarationDDM (declarationID : string) :
  keeps R
    (writeDeclarationDDM ParseDeclaration DeclarationItemsJSON TokensJSON
       declarationID).
Proof.
  unfold writeDeclarationDDM, declarationEnrollmentIDs.
  apply keeps_bind'.
  - apply keeps_bind'; [now apply keeps_GetItemsSKBeginsWith|].
    intros [items [e|]]; [now apply keeps_ret|].
    apply keeps_bind'; [apply keeps_enrollmentsOfItems|].
    intros. now apply keeps_ret.
  - intros [ids [e|]]; [now apply keeps_ret | apply keeps_writeEach].
Qed.

Hypothesis W_declaration :
  forall id json token ty salt,
    Wp (MarshalMap (dsDeclaration.mk ("dec#" +++ id) "dec#" json token ty
                      salt)) = true.
Hypothesis W_set_declaration :
  forall setName declarationID,
    Wp (MarshalMap (dsGenericItem.mk ("set#" +++ setName)
                      ("dec#" +++ declarationID) "")) = true.
Hypothesis W_enrollment_set :
  forall enrollmentID setName,
    Wp (MarshalMap (dsGenericItem.mk ("enroll#" +++ enrollmentID)
                      ("set#" +++ setName) "")) = true.
Hypothesis W_last :
  forall enrollmentID body,
    Wp (MarshalMap (dsGenericItem.mk ("enroll#" +++ enrollmentID)
                      "status#last" body)) = true.
Hypothesis W_values :
  forall enrollmentID body,
    Wp (MarshalMap (dsGenericItem.mk ("enroll#" +++ enrollmentID)
                      "status#values" body)) = true.
Hypothesis W_status :
  forall enrollmentID nowText dec,
    Wp (MarshalMap (declarationStatusItem enrollmentID nowText dec)) = true.
Hypothesis W_error :
  forall enrollmentID nowText statusError,
    Wp (MarshalMap (statusErrorItem enrollmentID nowText statusError)) = true.
Hypothesis W_delete : forall k, Wd k = true.

Lemma keeps_StoreDeclaration (d : Declaration.t) :
  keeps R
    (StoreDeclaration newHash JV JString json_Unmarshal json_Marshal
       ParseDeclaration DeclarationItemsJSON TokensJSON rand_Read d).
Proof.
  intros w. rewrite StoreDeclaration_steps. cbv zeta.
  destruct (json_Unmarshal (Declaration.Raw d)) as [[declaration|]|];
    try apply R_refl.
  match goal with
  | |- R _ (tbl (snd (?m ?w1))) =>
      change (R (tbl w1) (tbl (snd (m w1)))); generalize w1;
      change (keeps R m)
  end.
  unfold afterRecord.
  apply keeps_bind';
    [apply (keeps_AddItem R R_refl Wp R_put); apply W_declaration|].
  intros [e|]; [now apply keeps_ret|].
  apply keeps_bind'; [apply keeps_writeDeclarationDDM|].
  intros [e|]; now apply keeps_ret.
Qed.

Lemma keeps_deleteEach (items : list dsGenericItem.t) :
  keeps R (deleteEach items).
Proof.
  induction items as [|item items IH]; simpl.
  - now apply keeps_ret.
  - apply keeps_bind';
      [now apply (keeps_deleteSingleItem R R_refl Wd R_remove)|].
    intros _. exact IH.
Qed.

Lemma keeps_DeleteDeclaration (identifier : string) :
  keeps R (DeleteDeclaration identifier).
Proof.
  unfold DeleteDeclaration.
  apply keeps_bind'; [now apply keeps_GetSingleItemPKSK|].
  intros [declaration [e|]]; [now apply keeps_ret|].
  apply keeps_bind';
    [now apply (keeps_deleteSingleItem R R_refl Wd R_remove)|].
  intros _. apply keeps_bind'; [now apply keeps_GetReverseItems|].
  intros [items [e|]]; [now apply keeps_ret|].
  apply keeps_bind'; [apply keeps_deleteEach|].
  intros. now apply keeps_ret.
Qed.

Lemma keeps_StoreSetDeclaration (setName declarationID : string) :
  keeps R (StoreSetDeclaration setName declarationID).
Proof.
  unfold StoreSetDeclaration.
  apply keeps_bind'; [now apply keeps_GetSingleItemPKSK|].
  intros [decItem [e|]]; [now apply keeps_ret|].
  destruct (String.eqb _ ""); [now apply keeps_ret|].
  apply keeps_bind';
    [apply (keeps_AddItem R R_refl Wp R_put); apply W_set_declaration|].
  intros. now apply keeps_ret.
Qed.

Lemma keeps_RemoveSetDeclaration (setName declarationID : string) :
  keeps R (RemoveSetDeclaration setName declarationID).
Proof.
  unfold RemoveSetDeclaration.
  apply keeps_bind';
    [now apply (keeps_deleteSingleItem R R_refl Wd R_remove)|].
  intros. now apply keeps_ret.
Qed.

Lemma keeps_StoreEnrollmentSet (enrollmentID setName : string) :
  keeps R
    (StoreEnrollmentSet ParseDeclaration DeclarationItemsJSON TokensJSON
       enrollmentID setName).
Proof.
  unfold StoreEnrollmentSet.
  apply keeps_bind';
    [apply (keeps_AddItem R R_refl Wp R_put); apply W_enrollment_set|].
  intros [e|]; [now apply keeps_ret|].
  apply keeps_bind'; [now apply keeps_writeEnrollmentDDM|].
  intros. now apply keeps_ret.
Qed.

Lemma keeps_RemoveEnrollmentSet (enrollmentID setName : string) :
  keeps R
    (RemoveEnrollmentSet ParseDeclaration DeclarationItemsJSON TokensJSON
       enrollmentID setName).
Proof.
  unfold RemoveEnrollmentSet.
  apply keeps_bind';
    [now apply (keeps_deleteSingleItem R R_refl Wd R_remove)|].
  intros change. apply keeps_bind'; [now apply keeps_writeEnrollmentDDM|].
  intros. now apply keeps_ret.
Qed.

Lemma keeps_readStatusValues (enrollmentID : string) :
  keeps R (readStatusValues enrollmentID).
Proof.
  unfold readStatusValues.
  apply keeps_bind'; [now apply keeps_GetSingleItemPKSK|].
  intros [item [e|]]; [now apply keeps_ret|].
  destruct (parseStatusValues _); [now apply keeps_ret | now apply keeps_panic].
Qed.

Lemma keeps_storeStatusValues (enrollmentID : string)
    (values : list StatusValue) :
  keeps R (storeStatusValues enrollmentID values).
Proof.
  unfold storeStatusValues.
  destruct (List.length values <? 1)%nat; [now apply keeps_ret|].
  apply keeps_bind'; [apply keeps_readStatusValues|].
  intros [curValues [e|]]; [now apply keeps_ret|].
  destruct (_ <? 1)%nat; [now apply keeps_ret|].
  apply (keeps_AddItem R R_refl Wp R_put). apply W_values.
Qed.

Lemma keeps_storeStatusDeclarations (enrollmentID : string)
    (declarations : list DeclarationStatus.t) :
  keeps R (storeStatusDeclarations MarshalText enrollmentID declarations).
Proof.
  induction declarations as [|dec rest IH]; simpl.
  - now apply keeps_ret.
  - apply keeps_bind'; [now apply keeps_timeNow|].
    intros now_. destruct (MarshalText now_); [|now apply keeps_ret].
    apply keeps_bind';
      [apply (keeps_AddItem R R_refl Wp R_put); apply W_status|].
    intros [e|]; [now apply keeps_ret | exact IH].
Qed.

Lemma keeps_storeStatusErrors (enrollmentID : string)
    (ddmErrors : list StatusError.t) :
  keeps R (storeStatusErrors MarshalText enrollmentID ddmErrors).
Proof.
  induction ddmErrors as [|statusError rest IH]; simpl.
  - now apply keeps_ret.
  - apply keeps_bind'; [now apply keeps_timeNow|].
    intros now_. destruct (MarshalText now_); [|now apply keeps_ret].
    apply keeps_bind';
      [apply (keeps_AddItem R R_refl Wp R_put); apply W_error|].
    intros [e|]; [now apply keeps_ret | exact IH].
Qed.

Lemma keeps_StoreDeclarationStatus (enrollmentID : string)
    (status : StatusReport.t) :
  keeps R (StoreDeclarationStatus MarshalText enrollmentID status).
Proof.
  unfold StoreDeclarationStatus.
  apply keeps_bind';
    [apply (keeps_AddItem R R_refl Wp R_put); apply W_last|].
  intros [e|]; [now apply keeps_ret|].
  apply keeps_bind'; [apply keeps_storeStatusDeclarations|].
  intros [e|]; [now apply keeps_ret|].
  apply keeps_bind'; [apply keeps_storeStatusValues|].
  intros [e|]; [now apply keeps_ret|].
  apply keeps_bind'; [apply keeps_storeStatusErrors|].
  intros [e|]; now apply keeps_ret.
Qed.

Lemma keeps_mutate (m : Mutation) (w : World) :
  R (tbl w)
    (tbl (mutate newHash JV JString json_Unmarshal json_Marshal
            ParseDeclaration DeclarationItemsJSON TokensJSON rand_Read
            MarshalText m w)).
Proof.
  destruct m; cbn [mutate].
  - apply keeps_StoreDeclaration.
  - apply keeps_DeleteDeclaration.
  - apply keeps_StoreSetDeclaration.
  - apply keeps_RemoveSetDeclaration.
  - apply keeps_StoreEnrollmentSet.
  - apply keeps_RemoveEnrollmentSet.
  - apply keeps_StoreDeclarationStatus.
Qed.

Lemma keeps_mutateAll (ms : list Mutation) (w : World) :
  R (tbl w)
    (tbl (mutateAll newHash JV JString json_Unmarshal json_Marshal
            ParseDeclaration DeclarationItemsJSON TokensJSON rand_Read
            MarshalText ms w)).
Proof.
  unfold mutateAll. revert w; induction ms as [|m ms IH]; intros w; simpl.
  - apply R_refl.
  - eapply R_trans; [apply keeps_mutate | apply IH].
Qed.

End KeepsOperations.

(** ** Tables built by the package *)

Lemma plainBody_dsGenericItem (x : dsGenericItem.t) :
  plainBody (MarshalMap x) = true.
Proof.
  destruct x as [p s body].
  unfold plainBody, MarshalMap, Marshal_dsGenericItem, S_omitempty.
  cbn [attrs dsGenericItem.Body]. destruct (String.eqb body ""); reflexivity.
Qed.

Lemma plainBody_dsDeclarationStatus (x : dsDeclarationStatus.t) :
  plainBody (MarshalMap x) = true.
Proof.
  destruct x.
  unfold plainBody, MarshalMap, Marshal_dsDeclarationStatus, S_omitempty.
  cbn [attrs dsDeclarationStatus.ManifestType dsDeclarationStatus.ReasonsJSON].
  destruct (String.eqb ManifestType ""), (String.eqb ReasonsJSON "");
    reflexivity.
Qed.

Lemma packageItem_dsGenericItem (x : dsGenericItem.t) :
  packageKey (dsGenericItem.PK x, dsGenericItem.SK x) = true ->
  packageItem (MarshalMap x) = true.
Proof.
  intros Hk. unfold packageItem. rewrite plainBody_dsGenericItem.
  now rewrite andb_true_r.
Qed.

Lemma packageTable_put (it : Item) (t : Table) :
  packageItem it = true -> packageTable t -> packageTable (put it t).
Proof.
  intros Hit Ht x Hx. apply In_put_inv in Hx as [->|Hx]; auto.
Qed.

Lemma packageTable_remove (k : Key) (t : Table) :
  packageTable t -> packageTable (remove k t).
Proof. intros Ht x Hx. apply In_remove in Hx as [Hx _]. auto. Qed.

Section Reachable.

Variable newHash : string -> string.
Variable JV : Type.
Variable JString : string -> JV.
Variable json_Unmarshal : string -> option (option (list (string * JV))).
Variable json_Marshal : list (string * JV) -> string.
Variable ParseDeclaration : string -> option Declaration.t.
Variable DeclarationItemsJSON : list Declaration.t -> string.
Variable TokensJSON : list Declaration.t -> string.
Variable rand_Read : nat -> string.
Variable MarshalText : nat -> option string.

Local Abbreviation mutateAll' :=
  (mutateAll newHash JV JString json_Unmarshal json_Marshal ParseDeclaration
     DeclarationItemsJSON TokensJSON rand_Read MarshalText).

Lemma packageTable_mutateAll (ms : list Mutation) (w : World) :
  packageTable (tbl w) -> packageTable (tbl (mutateAll' ms w)).
Proof.
  apply (keeps_mutateAll newHash JV JString json_Unmarshal json_Marshal
           ParseDeclaration DeclarationItemsJSON TokensJSON rand_Read
           MarshalText (fun t t' => packageTable t -> packageTable t')
           (fun t H => H) (fun t1 t2 t3 H12 H23 H => H23 (H12 H))
           packageItem packageTable_put
           (fun _ => true) (fun k t _ => packageTable_remove k t)).
  - intros. now apply packageItem_dsGenericItem.
  - intros. now apply packageItem_dsGenericItem.
  - reflexivity.
  - intros. now apply packageItem_dsGenericItem.
  - intros. now apply packageItem_dsGenericItem.
  - intros. now apply packageItem_dsGenericItem.
  - intros. now apply packageItem_dsGenericItem.
  - intros. unfold packageItem. rewrite plainBody_dsDeclarationStatus.
    reflexivity.
  - reflexivity.
  - reflexivity.
Qed.

End Reachable.

Lemma filter_nil {A} (f : A -> bool) (l : list A) :
  (forall x, In x l -> f x = false) -> filter f l = [].
Proof.
  induction l as [|x l IH]; intros H; simpl; [reflexivity|].
  rewrite (H x (or_introl eq_refl)). apply IH. intros y Hy. apply H. now right.
Qed.

Lemma packageTable_no_set_record (t : Table) :
  packageTable t -> query t "set" "set#" = [].
Proof.
  intros Ht. apply filter_nil. intros it Hit.
  destruct (String.eqb (pk it) "set") eqn:E; [|reflexivity].
  apply String.eqb_eq in E. specialize (Ht it Hit).
  unfold packageItem, packageKey, keyOf in Ht. cbn [fst snd] in Ht.
  rewrite E in Ht. discriminate.
Qed.

Lemma packageTable_no_set_under_declaration (t : Table)
    (declarationID : string) :
  packageTable t -> query t ("dec#" +++ declarationID) "set#" = [].
Proof.
  intros Ht. apply filter_nil. intros it Hit.
  destruct (String.eqb (pk it) ("dec#" +++ declarationID)) eqn:E;
    [|reflexivity].
  apply String.eqb_eq in E. specialize (Ht it Hit).
  unfold packageItem, packageKey, keyOf in Ht. cbn [fst snd] in Ht.
  rewrite E in Ht. cbn [andb]. cbn in Ht.
  destruct (String.eqb (sk it) "dec#") eqn:Es; [|discriminate].
  apply String.eqb_eq in Es. now rewrite Es.
Qed.

Lemma RetrieveSets_run (w : World) :
  query (tbl w) "set" "set#" = [] ->
  RetrieveSets w
  = (Some ([], if hd false (faults w) then Some ErrBackingStore else None),
     logged (ReqQuery "set" "set#") w).
Proof.
  intros Hq. unfold RetrieveSets. unfold bind at 1.
  rewrite GetItemsSKBeginsWith_run, Hq.
  destruct (hd false (faults w)); reflexivity.
Qed.

Lemma decodeEach_plain (l : list Item) :
  (forall it, In it l -> plainBody it = true) ->
  exists xs, decodeEach (zero : dsGenericItem.t) l = Some xs.
Proof.
  induction l as [|it l IH]; intros Hp; simpl; [eauto|].
  destruct (Unmarshal_dsGenericItem_plain it (Hp it (or_introl eq_refl)))
    as [body ->].
  destruct IH as [xs ->]; [|eauto]. intros x Hx. apply Hp. now right.
Qed.

Lemma RetrieveEnrollmentSets_run (enrollmentID : string) (w : World) :
  (forall it, In it (tbl w) -> plainBody it = true) ->
  RetrieveEnrollmentSets enrollmentID w
  = (Some ([], if hd false (faults w) then Some ErrBackingStore else None),
     logged (ReqQuery ("enroll#" +++ enrollmentID) "set#") w).
Proof.
  intros Hp. unfold RetrieveEnrollmentSets. unfold bind at 1.
  rewrite GetItemsSKBeginsWith_run.
  destruct (hd false (faults w)); [reflexivity|].
  unfold UnmarshalListOfMaps, UnmarshalList_slice.
  destruct (decodeEach_plain
              (query (tbl w) ("enroll#" +++ enrollmentID) "set#"))
    as [xs ->]; [|reflexivity].
  intros it Hit. apply filter_In in Hit as [Hit _]. now apply Hp.
Qed.

(** X8. [RetrieveEnrollmentSets] fills its result only under a non-nil
    error: on a table whose items decode, it returns the empty list, with
    no error when the backing store answers, whatever sets the enrollment
    is a member of. *)
Theorem RetrieveEnrollmentSets_lists_no_set (enrollmentID : string)
    (w : World) :
  (forall it, In it (tbl w) -> plainBody it = true) ->
  fst (RetrieveEnrollmentSets enrollmentID w)
  = Some ([], if hd false (faults w) then Some ErrBackingStore else None).
Proof. intros Hp. now rewrite RetrieveEnrollmentSets_run. Qed.

Lemma RetrieveEnrollmentSets_lists_no_set_witness :
  lookup (tbl Scenario.enrolled) ("enroll#EN1", "set#G1")
  = Some (mkItem "enroll#EN1" "set#G1" [])
  /\ fst (RetrieveEnrollmentSets "EN1" Scenario.enrolled) = Some ([], None).
Proof.
  split; [vm_compute; reflexivity|].
  apply (RetrieveEnrollmentSets_lists_no_set "EN1" Scenario.enrolled).
  vm_compute. intros it H.
  repeat (destruct H as [<-|H]; [reflexivity|]). destruct H.
Defined.

(** ** Go maps *)

Lemma map_index_app {V} (m1 m2 : list (string * V)) (key : string) :
  map_index (m1 ++ m2) key
  = match map_index m1 key with
    | Some v => Some v
    | None => map_index m2 key
    end.
Proof.
  induction m1 as [|[k v] m1 IH]; simpl; [reflexivity|].
  destruct (String.eqb k key); [reflexivity | exact IH].
Qed.

Lemma map_index_map_delete {V} (m : list (string * V)) (k key : string) :
  map_index (map_delete V k m) key
  = if String.eqb k key then None else map_index m key.
Proof.
  unfold map_delete. induction m as [|[k' v] m IH]; simpl.
  - now destruct (String.eqb k key).
  - destruct (String.eqb k' k) eqn:E; simpl.
    + apply String.eqb_eq in E as ->. rewrite IH.
      now destruct (String.eqb k key).
    + rewrite IH. destruct (String.eqb k' key) eqn:E'; [|reflexivity].
      apply String.eqb_eq in E' as ->. rewrite String.eqb_sym in E.
      now rewrite E.
Qed.

Lemma map_index_map_set {V} (m : list (string * V)) (k key : string) (v : V) :
  map_index (map_set V k v m) key
  = if String.eqb k key then Some v else map_index m key.
Proof.
  unfold map_set. rewrite map_index_app, map_index_map_delete. simpl.
  destruct (String.eqb k key); [reflexivity|].
  now destruct (map_index m key).
Qed.

Section Retrievals.

Variable Time : Type.
Variable Reasons : Type.
Variable DeclarationItems : Type.
Variable UnmarshalText : string -> option Time.
Variable json_Unmarshal_reasons : string -> option Reasons.
Variable json_Unmarshal_items : string -> option DeclarationItems.

Lemma enrollmentDeclarations_run (enrollmentID : string) (w : World) :
  (forall it, In it (tbl w) -> plainBody it = true) ->
  enrollmentDeclarations enrollmentID w
  = (Some [], logged (ReqQuery ("enroll#" +++ enrollmentID) "set#") w).
Proof.
  intros Hp. unfold enrollmentDeclarations, bind.
  now rewrite RetrieveEnrollmentSets_run.
Qed.

Lemma declarationStatusOf_run (enrollmentIDs : list string)
    (ret_ : list (string * list (DeclarationQueryStatus.t Reasons Time)))
    (w : World) :
  (forall it, In it (tbl w) -> plainBody it = true) ->
  fst (declarationStatusOf Time Reasons UnmarshalText json_Unmarshal_reasons
         enrollmentIDs ret_ w)
  = Some (fold_left (fun m id => map_set _ id [] m) enrollmentIDs ret_, None).
Proof.
  revert ret_ w; induction enrollmentIDs as [|id ids IH]; intros ret_ w Hp.
  - reflexivity.
  - cbn [declarationStatusOf fold_left]. unfold bind at 1.
    rewrite enrollmentDeclarations_run by assumption.
    cbn [declarationStatuses]. unfold bind at 1, ret at 1.
    cbn [map]. apply IH. exact Hp.
Qed.

(** X9. [RetrieveDeclarationStatus] collects the declarations of an
    enrollment through [RetrieveEnrollmentSets], which lists none: on a
    table whose items decode it returns, under every failure schedule, no
    error and an empty status list for each enrollment asked for, whatever
    status items are stored. *)
Theorem RetrieveDeclarationStatus_reports_no_status
    (enrollmentIDs : list string) (w : World) :
  (forall it, In it (tbl w) -> plainBody it = true) ->
  exists m,
    fst (RetrieveDeclarationStatus Time Reasons UnmarshalText
           json_Unmarshal_reasons enrollmentIDs w) = Some (m, None)
    /\ forall id,
         map_index m id = if in_dec string_dec id enrollmentIDs
                          then Some [] else None.
Proof.
  intros Hp. eexists. split.
  - unfold RetrieveDeclarationStatus. now apply declarationStatusOf_run.
  - assert (H : forall ids m0 id,
               map_index
                 (fold_left
                    (fun m id =>
                       map_set (list (DeclarationQueryStatus.t Reasons Time))
                         id [] m) ids m0) id
               = if in_dec string_dec id ids then Some []
                 else map_index m0 id).
    { induction ids as [|i ids IH]; intros m0 id; [reflexivity|].
      cbn [fold_left]. rewrite IH, map_index_map_set.
      destruct (in_dec string_dec id ids) as [Hin|Hn];
        destruct (in_dec string_dec id (i :: ids)) as [Hin'|Hn'];
        try reflexivity.
      - exfalso. apply Hn'. now right.
      - destruct Hin' as [->|Hin']; [|contradiction].
        now rewrite String.eqb_refl.
      - destruct (String.eqb i id) eqn:E; [|reflexivity].
        apply String.eqb_eq in E. exfalso. apply Hn'. now left. }
    intros id. apply H.
Qed.

End Retrievals.

Lemma RetrieveDeclarationStatus_reports_no_status_witness :
  exists m,
    fst (RetrieveDeclarationStatus string string Some Some ["EN1"]
           (Scenario.run
              (Scenario.storeDeclarationStatus "EN1" Scenario.quietReport)
              Scenario.linked))
    = Some (m, None)
    /\ forall id,
         map_index m id = if in_dec string_dec id ["EN1"]
                          then Some [] else None.
Proof.
  apply (RetrieveDeclarationStatus_reports_no_status string string Some Some
           ["EN1"]).
  vm_compute. intros it H.
  repeat (destruct H as [<-|H]; [reflexivity|]). destruct H.
Defined.

Section PackageTables.

Variable newHash : string -> string.
Variable JV : Type.
Variable JString : string -> JV.
Variable json_Unmarshal : string -> option (option (list (string * JV))).
Variable json_Marshal : list (string * JV) -> string.
Variable ParseDeclaration : string -> option Declaration.t.
Variable DeclarationItemsJSON : list Declaration.t -> string.
Variable TokensJSON : list Declaration.t -> string.
Variable rand_Read : nat -> string.
Variable MarshalText : nat -> option string.

Local Abbreviation mutateAll' :=
  (mutateAll newHash JV JString json_Unmarshal json_Marshal ParseDeclaration
     DeclarationItemsJSON TokensJSON rand_Read MarshalText).
Local Abbreviation StoreDeclaration' :=
  (StoreDeclaration newHash JV JString json_Unmarshal json_Marshal
     ParseDeclaration DeclarationItemsJSON TokensJSON rand_Read).
Local Abbreviation newRecord :=
  (newDeclarationRecord newHash JV JString json_Marshal).

Lemma packageTable_nil (w : World) : tbl w = [] -> packageTable (tbl w).
Proof. intros -> it []. Qed.

(** X10. Whatever sequence of mutations is run on a table, under whatever
    failure schedule, every item of the table they leave is under one of
    the keys of the package and has a string for a body, if every item was
    so before. *)
Theorem mutations_keep_package_table (ms : list Mutation) (w : World) :
  packageTable (tbl w) -> packageTable (tbl (mutateAll' ms w)).
Proof. apply packageTable_mutateAll. Qed.

(** X11. [RetrieveSets] reads the items with pk [set], and no mutation
    writes one: after any sequence of mutations on an empty table it
    returns the empty list, with no error when the backing store
    answers. *)
Theorem RetrieveSets_lists_no_set (ms : list Mutation) (w : World) :
  tbl w = [] ->
  fst (RetrieveSets (mutateAll' ms w))
  = Some ([], if hd false (faults (mutateAll' ms w))
              then Some ErrBackingStore else None).
Proof.
  intros Ht. rewrite RetrieveSets_run; [reflexivity|].
  apply packageTable_no_set_record, packageTable_mutateAll.
  now apply packageTable_nil.
Qed.

(** X12. [RetrieveDeclarationEnrollmentIDs] starts from the items with the
    declaration as pk and an sk that begins with [set#], and no mutation
    writes one: after any sequence of mutations on an empty table it
    returns the empty list for every declaration. *)
Theorem RetrieveDeclarationEnrollmentIDs_lists_no_enrollment
    (ms : list Mutation) (w : World) (declarationID : string) :
  tbl w = [] ->
  exists e,
    fst (RetrieveDeclarationEnrollmentIDs declarationID (mutateAll' ms w))
    = Some ([], e).
Proof.
  intros Ht. apply declarationEnrollmentIDs_forward_query.
  apply packageTable_no_set_under_declaration, packageTable_mutateAll.
  now apply packageTable_nil.
Qed.

(** X13. On a table of the package and a backing store that does not fail,
    [StoreDeclaration] of a payload that decodes into a JSON object (a map
    that is not nil) sends three requests, the read of the record, the put
    of the new record and the query for the sets of the declaration, and
    returns true: the table it leaves is the one it found with the record
    put, no document of any enrollment is written. *)
Theorem StoreDeclaration_writes_only_the_record (d : Declaration.t)
    (declaration : list (string * JV)) (w : World) :
  packageTable (tbl w) ->
  faults w = [] ->
  json_Unmarshal (Declaration.Raw d) = Some (Some declaration) ->
  let record := MarshalMap (newRecord d declaration (rand_Read (drawn w))) in
  StoreDeclaration' d w
  = (Some (true, None),
     mkWorld (put record (tbl w)) [] (S (drawn w)) (ticks w)
       (trace w
        ++ [ReqQuery ("dec#" +++ Declaration.Identifier d) "dec#";
            ReqPutItem record;
            ReqQuery ("dec#" +++ Declaration.Identifier d) "set#"])).
Proof.
  intros Hp Hf Hjson record. rewrite StoreDeclaration_steps, Hjson. cbv zeta.
  unfold afterRecord. unfold bind at 1.
  rewrite AddItem_ok
    by (cbn [faults withDrawn logged]; (now rewrite Hf) || reflexivity).
  unfold writeDeclarationDDM, declarationEnrollmentIDs.
  unfold bind at 1. unfold bind at 1. unfold bind at 1.
  rewrite GetItemsSKBeginsWith_run.
  cbn [faults tbl withTable withDrawn logged]. rewrite Hf. cbn [tl hd].
  rewrite packageTable_no_set_under_declaration.
  - unfold ret, logged, withTable, withDrawn.
    cbn [tbl faults drawn ticks trace]. rewrite Hf. cbn [tl].
    rewrite <- !app_assoc. reflexivity.
  - apply packageTable_put; [reflexivity | assumption].
Qed.

End PackageTables.

Lemma mutations_keep_package_table_witness :
  packageTable
    (tbl (mutateAll Scenario.digest string (fun s => s) Scenario.decode
            Scenario.marshal Scenario.parse Scenario.items Scenario.tokens
            Scenario.salt Scenario.timeText
            [MStoreDeclaration Scenario.D1; MStoreSetDeclaration "G1" "D1";
             MStoreEnrollmentSet "EN1" "G1";
             MStoreDeclarationStatus "EN1" Scenario.quietReport;
             MDeleteDeclaration "D1"]
            Scenario.emptyWorld)).
Proof.
  apply (mutations_keep_package_table Scenario.digest string (fun s => s)
           Scenario.decode Scenario.marshal Scenario.parse Scenario.items
           Scenario.tokens Scenario.salt Scenario.timeText).
  intros it H. destruct H.
Defined.

Lemma RetrieveSets_lists_no_set_witness :
  fst (RetrieveSets
         (mutateAll Scenario.digest string (fun s => s) Scenario.decode
            Scenario.marshal Scenario.parse Scenario.items Scenario.tokens
            Scenario.salt Scenario.timeText
            [MStoreDeclaration Scenario.D1; MStoreSetDeclaration "G1" "D1";
             MStoreEnrollmentSet "EN1" "G1"]
            Scenario.emptyWorld))
  = Some ([],
          if hd false
               (faults
                  (mutateAll Scenario.digest string (fun s => s)
                     Scenario.decode Scenario.marshal Scenario.parse
                     Scenario.items Scenario.tokens Scenario.salt
                     Scenario.timeText
                     [MStoreDeclaration Scenario.D1;
                      MStoreSetDeclaration "G1" "D1";
                      MStoreEnrollmentSet "EN1" "G1"]
                     Scenario.emptyWorld))
          then Some ErrBackingStore else None).
Proof.
  apply (RetrieveSets_lists_no_set Scenario.digest string (fun s => s)
           Scenario.decode Scenario.marshal Scenario.parse Scenario.items
           Scenario.tokens Scenario.salt Scenario.timeText
           [MStoreDeclaration Scenario.D1; MStoreSetDeclaration "G1" "D1";
            MStoreEnrollmentSet "EN1" "G1"]
           Scenario.emptyWorld).
  reflexivity.
Defined.

Lemma RetrieveDeclarationEnrollmentIDs_lists_no_enrollment_witness :
  exists e,
    fst (RetrieveDeclarationEnrollmentIDs "D1"
           (mutateAll Scenario.digest string (fun s => s) Scenario.decode
              Scenario.marshal Scenario.parse Scenario.items Scenario.tokens
              Scenario.salt Scenario.timeText
              [MStoreDeclaration Scenario.D1; MStoreSetDeclaration "G1" "D1";
               MStoreEnrollmentSet "EN1" "G1"]
              Scenario.emptyWorld))
    = Some ([], e).
Proof.
  apply (RetrieveDeclarationEnrollmentIDs_lists_no_enrollment
           Scenario.digest string (fun s => s)
           Scenario.decode Scenario.marshal Scenario.parse Scenario.items
           Scenario.tokens Scenario.salt Scenario.timeText
           [MStoreDeclaration Scenario.D1; MStoreSetDeclaration "G1" "D1";
            MStoreEnrollmentSet "EN1" "G1"]
           Scenario.emptyWorld "D1").
  reflexivity.
Defined.

Lemma StoreDeclaration_writes_only_the_record_witness :
  let record :=
    MarshalMap
      (newDeclarationRecord Scenario.digest string (fun s => s)
         Scenario.marshal Scenario.D1
         [("Identifier", "D1"); ("Type", "t"); ("Payload", "x")]
         (Scenario.salt 0)) in
  Scenario.storeDeclaration Scenario.D1 Scenario.emptyWorld
  = (Some (true, None),
     mkWorld (put record []) [] 1 0
       ([] ++ [ReqQuery "dec#D1" "dec#"; ReqPutItem record;
               ReqQuery "dec#D1" "set#"])).
Proof.
  apply (StoreDeclaration_writes_only_the_record Scenario.digest string
           (fun s => s) Scenario.decode Scenario.marshal Scenario.parse
           Scenario.items Scenario.tokens Scenario.salt Scenario.D1
           [("Identifier", "D1"); ("Type", "t"); ("Payload", "x")]
           Scenario.emptyWorld).
  - intros it H. destruct H.
  - reflexivity.
  - vm_compute. reflexivity.
Defined.

(** ** Enrollments and their sets *)

Lemma bind_Some {A B} (m : M A) (f : A -> M B) (w w1 : World) (b : option B) :
  bind m f w = (b, w1) ->
  (exists w', m w = (None, w') /\ b = None /\ w1 = w')
  \/ exists a w', m w = (Some a, w') /\ f a w' = (b, w1).
Proof.
  unfold bind. destruct (m w) as [[a|] w'].
  - intros H. right. now exists a, w'.
  - intros [= <- <-]. left. now exists w'.
Qed.

Lemma AddItem_done {X} `{Marshal X} (item : X) (w w1 : World) :
  AddItem item w = (Some None, w1) ->
  tbl w1 = put (MarshalMap item) (tbl w).
Proof.
  rewrite AddItem_run. destruct (_ || _); intros [= <-]; reflexivity.
Qed.

Section EnrollmentSets.

Variable ParseDeclaration : string -> option Declaration.t.
Variable DeclarationItemsJSON : list Declaration.t -> string.
Variable TokensJSON : list Declaration.t -> string.

Local Abbreviation writeEnrollmentDDM' :=
  (writeEnrollmentDDM ParseDeclaration DeclarationItemsJSON TokensJSON).
Local Abbreviation StoreEnrollmentSet' :=
  (StoreEnrollmentSet ParseDeclaration DeclarationItemsJSON TokensJSON).
Local Abbreviation RemoveEnrollmentSet' :=
  (RemoveEnrollmentSet ParseDeclaration DeclarationItemsJSON TokensJSON).

(** The recompute of an enrollment leaves every item that is not one of
    its two documents in the table. *)
Lemma writeEnrollmentDDM_keeps_item (enrollmentID : string) (it : Item)
    (w : World) :
  sk it <> "json" -> sk it <> "tokens" ->
  In it (tbl w) -> In it (tbl (snd (writeEnrollmentDDM' enrollmentID w))).
Proof.
  intros Hj Ht.
  apply (keeps_writeEnrollmentDDM ParseDeclaration DeclarationItemsJSON
           TokensJSON (fun t t' => In it t -> In it t')
           (fun t H => H) (fun t1 t2 t3 H12 H23 H => H23 (H12 H))
           (fun x => negb (key_eqb (keyOf it) (keyOf x)))).
  - intros x t Hx Hin. apply In_put_other; [assumption|].
    apply negb_true_iff, key_eqb_neq in Hx. exact Hx.
  - intros body. apply negb_true_iff, key_eqb_neq. unfold keyOf. cbn.
    congruence.
  - intros body. apply negb_true_iff, key_eqb_neq. unfold keyOf. cbn.
    congruence.
Qed.

(** The recompute of an enrollment does not change what a query on the
    reverse index for a set returns. *)
Lemma writeEnrollmentDDM_keeps_members (enrollmentID setName b : string)
    (w : World) :
  queryReverse (tbl (snd (writeEnrollmentDDM' enrollmentID w)))
    ("set#" +++ setName) b
  = queryReverse (tbl w) ("set#" +++ setName) b.
Proof.
  apply (keeps_writeEnrollmentDDM ParseDeclaration DeclarationItemsJSON
           TokensJSON
           (fun t t' =>
              queryReverse t' ("set#" +++ setName) b
              = queryReverse t ("set#" +++ setName) b)
           (fun t => eq_refl)
           (fun t1 t2 t3 H12 H23 => eq_trans H23 H12)
           (fun x =>
              negb (String.eqb (sk x) ("set#" +++ setName)
                    && HasPrefix (pk x) b))).
  - intros x t Hx. apply queryReverse_put_other. now apply negb_true_iff.
  - reflexivity.
  - reflexivity.
Qed.

(** X14. After a [StoreEnrollmentSet] whose put the backing store carried
    out, the enrollment is among the members [RetrieveSetEnrollmentIDs]
    lists for the set, whatever became of the recompute that follows the
    put. *)
Theorem StoreEnrollmentSet_then_member (enrollmentID setName : string)
    (w w2 : World) (ids : list string) :
  hd false (faults w) = false ->
  tbl w2 = tbl (snd (StoreEnrollmentSet' enrollmentID setName w)) ->
  fst (RetrieveSetEnrollmentIDs setName w2) = Some (ids, None) ->
  In enrollmentID ids.
Proof.
  intros Hf Ht.
  set (edge := mkItem ("enroll#" +++ enrollmentID) ("set#" +++ setName) []).
  assert (Hin : In edge (tbl w2)).
  { rewrite Ht. unfold StoreEnrollmentSet. unfold bind at 1.
    rewrite AddItem_run, Hf. cbn [orb].
    replace (validKey _) with true by reflexivity. cbn [negb].
    unfold bind.
    match goal with
    | |- context [writeEnrollmentDDM' ?e ?w1] =>
        pose proof (writeEnrollmentDDM_keeps_item e edge w1) as Hk;
        destruct (writeEnrollmentDDM' e w1) as [[err|] w3]
    end; cbn [snd ret] in *; apply Hk; try discriminate; apply In_put. }
  unfold RetrieveSetEnrollmentIDs. unfold bind at 1.
  rewrite GetReverseItems_run.
  destruct (hd false (faults w2)); [discriminate|].
  unfold UnmarshalListOfMaps, UnmarshalList_slice.
  destruct (decodeEach zero _) as [xs|] eqn:D; [|discriminate].
  unfold ret. cbn [fst]. intros [= <-].
  destruct (decodeEach_In zero _ xs edge D) as (x & Hx & Hxs).
  { apply filter_In. split; [assumption|]. cbn [sk pk edge].
    now rewrite String.eqb_refl, (HasPrefix_append "enroll#"). }
  apply in_map_iff. exists x. split; [|assumption].
  change edge
    with (MarshalMap
            (dsGenericItem.mk ("enroll#" +++ enrollmentID)
               ("set#" +++ setName) "")) in Hx.
  rewrite Unmarshal_Marshal_dsGenericItem in Hx. injection Hx as <-.
  apply (TrimPrefix_append "enroll#").
Qed.

(** X15. After a [RemoveEnrollmentSet] whose delete the backing store
    carried out, [RetrieveSetEnrollmentIDs] no longer lists the enrollment
    for the set, whatever became of the recompute that follows the
    delete. *)
Theorem RemoveEnrollmentSet_then_no_member (enrollmentID setName : string)
    (w w2 : World) (ids : list string) (err : option error) :
  hd false (faults w) = false ->
  tbl w2 = tbl (snd (RemoveEnrollmentSet' enrollmentID setName w)) ->
  fst (RetrieveSetEnrollmentIDs setName w2) = Some (ids, err) ->
  ~ In enrollmentID ids.
Proof.
  intros Hf Ht.
  unfold RetrieveSetEnrollmentIDs. unfold bind at 1.
  rewrite GetReverseItems_run.
  destruct (hd false (faults w2)); [intros [= <- <-]; intros []|].
  unfold UnmarshalListOfMaps, UnmarshalList_slice.
  destruct (decodeEach zero _) as [xs|] eqn:D;
    [|intros [= <- <-]; intros []].
  unfold ret. cbn [fst]. intros [= <- <-] Hin.
  apply in_map_iff in Hin as (x & Htrim & Hx).
  destruct (decodeEach_inv zero _ xs x D Hx) as (it & Hit & Hdec).
  apply Unmarshal_dsGenericItem_key in Hdec.
  revert Hit. rewrite Ht. unfold RemoveEnrollmentSet. unfold bind at 1.
  rewrite deleteSingleItem_run, Hf. cbn [orb].
  replace (validKey _) with true by reflexivity. cbn [negb].
  unfold bind.
  match goal with
  | |- context [writeEnrollmentDDM' ?e ?w1] =>
      pose proof (writeEnrollmentDDM_keeps_members e setName "enroll#" w1)
        as Hk;
      destruct (writeEnrollmentDDM' e w1) as [[e'|] w3]
  end; cbn [snd ret] in *; rewrite Hk; cbn [tbl withTable];
    intros Hit; apply filter_In in Hit as [Hit Hq];
    apply In_remove in Hit as [_ Hne]; apply Hne;
    apply andb_true_iff in Hq as [Hsk Hpk]; apply String.eqb_eq in Hsk;
    apply TrimPrefix_HasPrefix in Hpk;
    unfold keyOf in *; injection Hdec as Hp Hs; rewrite <- Hp in Hpk;
    rewrite Htrim in Hpk; rewrite <- Hp, Hpk, Hsk; reflexivity.
Qed.

End EnrollmentSets.

Lemma StoreEnrollmentSet_then_member_witness :
  fst (RetrieveSetEnrollmentIDs "G1" Scenario.enrolled)
  = Some (["EN1"], None)
  /\ In "EN1" ["EN1"].
Proof.
  split; [vm_compute; reflexivity|].
  apply (StoreEnrollmentSet_then_member Scenario.parse Scenario.items
           Scenario.tokens "EN1" "G1"
           (Scenario.run (Scenario.storeDeclaration Scenario.D1)
              Scenario.emptyWorld)
           Scenario.enrolled ["EN1"]).
  - vm_compute. reflexivity.
  - reflexivity.
  - vm_compute. reflexivity.
Defined.

Lemma RemoveEnrollmentSet_then_no_member_witness :
  fst (RetrieveSetEnrollmentIDs "G1"
         (snd (RemoveEnrollmentSet Scenario.parse Scenario.items
                 Scenario.tokens "EN1" "G1" Scenario.enrolled)))
  = Some ([], None)
  /\ ~ In "EN1" ([] : list string).
Proof.
  split; [vm_compute; reflexivity|].
  apply (RemoveEnrollmentSet_then_no_member Scenario.parse Scenario.items
           Scenario.tokens "EN1" "G1" Scenario.enrolled
           (snd (RemoveEnrollmentSet Scenario.parse Scenario.items
                   Scenario.tokens "EN1" "G1" Scenario.enrolled))
           [] None).
  - vm_compute. reflexivity.
  - reflexivity.
  - vm_compute. reflexivity.
Defined.

(** ** Documents *)

Lemma RetrieveDeclarationItemsJSON_run (enrollmentID : string) (w : World)
    (x : dsGenericItem.t) :
  hd false (faults w) = false ->
  lookup (tbl w) ("enroll#" +++ enrollmentID, "json") = Some (MarshalMap x) ->
  fst (RetrieveDeclarationItemsJSON enrollmentID w)
  = Some (dsGenericItem.Body x, None).
Proof.
  intros Hf Hl. unfold RetrieveDeclarationItemsJSON. unfold bind at 1.
  rewrite GetSingleItemPKSK_run, Hf, Hl, Unmarshal_Marshal_dsGenericItem.
  reflexivity.
Qed.

Lemma RetrieveTokensJSON_run (enrollmentID : string) (w : World)
    (x : dsGenericItem.t) :
  hd false (faults w) = false ->
  lookup (tbl w) ("enroll#" +++ enrollmentID, "tokens")
  = Some (MarshalMap x) ->
  fst (RetrieveTokensJSON enrollmentID w) = Some (dsGenericItem.Body x, None).
Proof.
  intros Hf Hl. unfold RetrieveTokensJSON. unfold bind at 1.
  rewrite GetSingleItemPKSK_run, Hf, Hl, Unmarshal_Marshal_dsGenericItem.
  reflexivity.
Qed.

Section Documents.

Variable ParseDeclaration : string -> option Declaration.t.
Variable DeclarationItemsJSON : list Declaration.t -> string.
Variable TokensJSON : list Declaration.t -> string.

Local Abbreviation writeEnrollmentDDM' :=
  (writeEnrollmentDDM ParseDeclaration DeclarationItemsJSON TokensJSON).

(** X16. After a [writeEnrollmentDDM] that returns no error, the two
    documents of the enrollment are built from one and the same list of
    declarations: [RetrieveDeclarationItemsJSON] returns the
    declaration-items document of that list and [RetrieveTokensJSON] its
    tokens document, on any read that the backing store answers. *)
Theorem writeEnrollmentDDM_then_documents (enrollmentID : string)
    (w w1 : World) :
  writeEnrollmentDDM' enrollmentID w = (Some None, w1) ->
  exists added,
    forall w2,
      tbl w2 = tbl w1 ->
      hd false (faults w2) = false ->
      fst (RetrieveDeclarationItemsJSON enrollmentID w2)
      = Some (DeclarationItemsJSON added, None)
      /\ fst (RetrieveTokensJSON enrollmentID w2)
         = Some (TokensJSON added, None).
Proof.
  unfold writeEnrollmentDDM. intros H.
  apply bind_Some in H as [(w' & _ & [= ] & _)|([sets [e|]] & wa & _ & H)];
    [discriminate|].
  apply bind_Some in H as [(w' & _ & [= ] & _)|([ids [e|]] & wb & _ & H)];
    [discriminate|].
  apply bind_Some in H as [(w' & _ & [= ] & _)|([added [e|]] & wc & _ & H)];
    [discriminate|].
  apply bind_Some in H as [(w' & _ & [= ] & _)|([e|] & wd & Hjson & H)];
    [discriminate|].
  apply bind_Some in H as [(w' & _ & [= ] & _)|([e|] & we & Htokens & H)];
    [discriminate|].
  injection H as <-.
  apply AddItem_done in Hjson, Htokens.
  exists added. intros w2 Ht Hf. rewrite <- Ht in Htokens. split.
  - apply (RetrieveDeclarationItemsJSON_run enrollmentID w2
             (dsGenericItem.mk ("enroll#" +++ enrollmentID) "json"
                (DeclarationItemsJSON added))); [assumption|].
    rewrite Htokens, lookup_put_other.
    + rewrite Hjson. apply lookup_put_same.
    + unfold keyOf. cbn. congruence.
  - apply (RetrieveTokensJSON_run enrollmentID w2
             (dsGenericItem.mk ("enroll#" +++ enrollmentID) "tokens"
                (TokensJSON added))); [assumption|].
    rewrite Htokens. apply lookup_put_same.
Qed.

End Documents.

Lemma writeEnrollmentDDM_then_documents_witness :
  exists added,
    forall w2,
      tbl w2 = tbl Scenario.linked ->
      hd false (faults w2) = false ->
      fst (RetrieveDeclarationItemsJSON "EN1" w2)
      = Some (Scenario.items added, None)
      /\ fst (RetrieveTokensJSON "EN1" w2)
         = Some (Scenario.tokens added, None).
Proof.
  apply (writeEnrollmentDDM_then_documents Scenario.parse Scenario.items
           Scenario.tokens "EN1"
           (snd (AddItem (dsGenericItem.mk "enroll#EN1" "set#G1" "")
                   (Scenario.run (StoreSetDeclaration "G1" "D1")
                      (Scenario.run (Scenario.storeDeclaration Scenario.D1)
                         Scenario.emptyWorld))))
           Scenario.linked).
  vm_compute. reflexivity.
Defined.

(** X17. The three document reads treat a key that is not in the table as
    an empty item: they return empty bytes and no error. *)
Theorem documents_of_missing_items_are_empty
    (declarationID declarationType enrollmentID : string) (w : World) :
  hd false (faults w) = false ->
  (lookup (tbl w) ("dec#" +++ declarationID, "dec#") = None ->
   fst (RetrieveEnrollmentDeclarationJSON declarationID declarationType
          enrollmentID w) = Some ("", None))
  /\ (lookup (tbl w) ("enroll#" +++ enrollmentID, "json") = None ->
      fst (RetrieveDeclarationItemsJSON enrollmentID w) = Some ("", None))
  /\ (lookup (tbl w) ("enroll#" +++ enrollmentID, "tokens") = None ->
      fst (RetrieveTokensJSON enrollmentID w) = Some ("", None)).
Proof.
  intros Hf. repeat split; intros Hl.
  - unfold RetrieveEnrollmentDeclarationJSON. unfold bind at 1.
    now rewrite GetSingleItemPKSK_run, Hf, Hl.
  - unfold RetrieveDeclarationItemsJSON. unfold bind at 1.
    now rewrite GetSingleItemPKSK_run, Hf, Hl.
  - unfold RetrieveTokensJSON. unfold bind at 1.
    now rewrite GetSingleItemPKSK_run, Hf, Hl.
Qed.

Lemma documents_of_missing_items_are_empty_witness :
  fst (RetrieveEnrollmentDeclarationJSON "D1" "t" "EN1" Scenario.emptyWorld)
  = Some ("", None)
  /\ fst (RetrieveDeclarationItemsJSON "EN1" Scenario.emptyWorld)
     = Some ("", None)
  /\ fst (RetrieveTokensJSON "EN1" Scenario.emptyWorld) = Some ("", None).
Proof.
  destruct (documents_of_missing_items_are_empty "D1" "t" "EN1"
              Scenario.emptyWorld eq_refl) as (H1 & H2 & H3).
  split; [apply H1; reflexivity|].
  split; [apply H2; reflexivity | apply H3; reflexivity].
Defined.

(** ** Declarations, stored and read back *)

Section StoredDeclarations.

Variable newHash : string -> string.
Variable JV : Type.
Variable JString : string -> JV.
Variable json_Unmarshal : string -> option (option (list (string * JV))).
Variable json_Marshal : list (string * JV) -> string.
Variable ParseDeclaration : string -> option Declaration.t.
Variable DeclarationItemsJSON : list Declaration.t -> string.
Variable TokensJSON : list Declaration.t -> string.
Variable rand_Read : nat -> string.

Local Abbreviation StoreDeclaration' :=
  (StoreDeclaration newHash JV JString json_Unmarshal json_Marshal
     ParseDeclaration DeclarationItemsJSON TokensJSON rand_Read).
Local Abbreviation newRecord :=
  (newDeclarationRecord newHash JV JString json_Marshal).

(** After a [StoreDeclaration] that succeeds, the record of the declaration
    is the one built in this call, whatever the cascade wrote. *)
Lemma StoreDeclaration_stores_record (d : Declaration.t)
    (declaration : list (string * JV)) (w w' : World) :
  json_Unmarshal (Declaration.Raw d) = Some (Some declaration) ->
  StoreDeclaration' d w = (Some (true, None), w') ->
  lookup (tbl w') ("dec#" +++ Declaration.Identifier d, "dec#")
  = Some (MarshalMap (newRecord d declaration (rand_Read (drawn w)))).
Proof.
  intros Hjson. rewrite StoreDeclaration_steps, Hjson. cbv zeta.
  set (record := newRecord d declaration (rand_Read (drawn w))).
  set (w1 := withDrawn _).
  unfold afterRecord. intros H.
  apply bind_Some in H as [(w2 & _ & [= ] & _)|([e|] & w2 & Hput & H)];
    [discriminate|].
  apply AddItem_done in Hput.
  pose proof (keeps_writeDeclarationDDM ParseDeclaration DeclarationItemsJSON
                TokensJSON
                (fun t t' =>
                   lookup t' (keyOf (MarshalMap record))
                   = lookup t (keyOf (MarshalMap record)))
                (fun t => eq_refl)
                (fun t1 t2 t3 H12 H23 => eq_trans H23 H12)
                (fun x =>
                   negb (key_eqb (keyOf x) (keyOf (MarshalMap record))))
                (fun x t Hx =>
                   lookup_put_other x t _
                     (proj1 (key_eqb_neq _ _)
                        (proj1 (negb_true_iff _) Hx)))
                (fun e body => eq_refl) (fun e body => eq_refl)
                (Declaration.Identifier d) w2) as Hk.
  apply bind_Some in H as [(w3 & _ & [= ] & _)|([e|] & w3 & Hddm & H)];
    [discriminate|].
  rewrite Hddm in Hk. cbn [snd] in Hk. injection H as <-.
  change ("dec#" +++ Declaration.Identifier d, "dec#")
    with (keyOf (MarshalMap record)).
  rewrite Hk, Hput. apply lookup_put_same.
Qed.

(** X18. After a [StoreDeclaration] that succeeds,
    [RetrieveEnrollmentDeclarationJSON] returns, for the identifier of the
    declaration, the payload re-marshalled with its [ServerToken] member
    set to the token of this call, the digest of the payload without that
    member followed by the salt drawn in this call. *)
Theorem StoreDeclaration_then_declaration_JSON (d : Declaration.t)
    (declaration : list (string * JV)) (w w' w2 : World)
    (declarationType enrollmentID : string) :
  json_Unmarshal (Declaration.Raw d) = Some (Some declaration) ->
  StoreDeclaration' d w = (Some (true, None), w') ->
  tbl w2 = tbl w' ->
  hd false (faults w2) = false ->
  let stripped := map_delete JV "ServerToken" declaration in
  let token := newHash (json_Marshal stripped +++ rand_Read (drawn w)) in
  fst (RetrieveEnrollmentDeclarationJSON (Declaration.Identifier d)
         declarationType enrollmentID w2)
  = Some (json_Marshal (map_set JV "ServerToken" (JString token) stripped),
          None).
Proof.
  intros Hjson Hstore Ht Hf stripped token.
  apply (StoreDeclaration_stores_record d declaration) in Hstore;
    [|assumption].
  unfold RetrieveEnrollmentDeclarationJSON. unfold bind at 1.
  rewrite GetSingleItemPKSK_run, Hf, Ht, Hstore,
    Unmarshal_Marshal_dsDeclaration.
  reflexivity.
Qed.

(** X19. After a [StoreDeclaration] that succeeds, [RetrieveDeclarations]
    lists the identifier of the declaration, whenever it returns without
    error. *)
Theorem StoreDeclaration_then_listed (d : Declaration.t)
    (declaration : list (string * JV)) (w w' w2 : World) (ids : list string) :
  json_Unmarshal (Declaration.Raw d) = Some (Some declaration) ->
  StoreDeclaration' d w = (Some (true, None), w') ->
  tbl w2 = tbl w' ->
  fst (RetrieveDeclarations w2) = Some (ids, None) ->
  In (Declaration.Identifier d) ids.
Proof.
  intros Hjson Hstore Ht.
  apply (StoreDeclaration_stores_record d declaration) in Hstore;
    [|assumption].
  apply lookup_In in Hstore. rewrite <- Ht in Hstore.
  unfold RetrieveDeclarations. unfold bind at 1.
  rewrite GetReverseItems_run.
  destruct (hd false (faults w2)); [discriminate|].
  unfold UnmarshalListOfMaps, UnmarshalList_slice.
  destruct (decodeEach zero _) as [xs|] eqn:D; [|discriminate].
  unfold ret. cbn [fst]. intros [= <-].
  destruct (decodeEach_In zero _ xs
              (MarshalMap (newRecord d declaration (rand_Read (drawn w)))) D)
    as (x & Hx & Hxs).
  { apply filter_In. split; [exact Hstore|]. reflexivity. }
  rewrite Unmarshal_Marshal_dsDeclaration in Hx. injection Hx as <-.
  apply in_map_iff. eexists. split; [|exact Hxs].
  apply (TrimPrefix_append "dec#").
Qed.

(** X20. [StoreDeclaration] of a payload that does not decode returns false
    and the JSON error after the read of the record and the draw of a
    salt: it sends no put and leaves the table as it was. *)
Theorem StoreDeclaration_rejects_payload (d : Declaration.t) (w : World) :
  json_Unmarshal (Declaration.Raw d) = None ->
  StoreDeclaration' d w
  = (Some (false, Some ErrJSON),
     mkWorld (tbl w) (tl (faults w)) (S (drawn w)) (ticks w)
       (trace w
        ++ [ReqQuery ("dec#" +++ Declaration.Identifier d) "dec#"])).
Proof. intros Hjson. now rewrite StoreDeclaration_steps, Hjson. Qed.

(** X29. [StoreDeclaration] of the payload [null], which [json.Unmarshal]
    accepts and which leaves the map nil, panics on the assignment of the
    token to the nil map, after the read of the record and the draw of a
    salt: it sends no put and leaves the table as it was. *)
Theorem StoreDeclaration_panics_on_null_payload (d : Declaration.t)
    (w : World) :
  json_Unmarshal (Declaration.Raw d) = Some None ->
  StoreDeclaration' d w
  = (None,
     mkWorld (tbl w) (tl (faults w)) (S (drawn w)) (ticks w)
       (trace w
        ++ [ReqQuery ("dec#" +++ Declaration.Identifier d) "dec#"])).
Proof. intros Hjson. now rewrite StoreDeclaration_steps, Hjson. Qed.

End StoredDeclarations.

Lemma StoreDeclaration_then_declaration_JSON_witness :
  fst (RetrieveEnrollmentDeclarationJSON "D1" "t" "EN1"
         (Scenario.run (Scenario.storeDeclaration Scenario.D1)
            Scenario.emptyWorld))
  = Some ("Identifier=D1;Type=t;Payload=x;ServerToken=h1203", None).
Proof.
  apply (StoreDeclaration_then_declaration_JSON Scenario.digest string
                (fun s => s) Scenario.decode Scenario.marshal
                Scenario.parse Scenario.items Scenario.tokens Scenario.salt
                Scenario.D1
                [("Identifier", "D1"); ("Type", "t"); ("Payload", "x")]
                Scenario.emptyWorld
                (Scenario.run (Scenario.storeDeclaration Scenario.D1)
                   Scenario.emptyWorld)
                (Scenario.run (Scenario.storeDeclaration Scenario.D1)
                   Scenario.emptyWorld)
                "t" "EN1").
  - vm_compute. reflexivity.
  - vm_compute. reflexivity.
  - reflexivity.
  - vm_compute. reflexivity.
Defined.

Lemma StoreDeclaration_then_listed_witness :
  fst (RetrieveDeclarations
         (Scenario.run (Scenario.storeDeclaration Scenario.D1)
            Scenario.emptyWorld))
  = Some (["D1"], None)
  /\ In "D1" ["D1"].
Proof.
  split; [vm_compute; reflexivity|].
  apply (StoreDeclaration_then_listed Scenario.digest string
           (fun s => s) Scenario.decode Scenario.marshal
           Scenario.parse Scenario.items Scenario.tokens Scenario.salt
           Scenario.D1
           [("Identifier", "D1"); ("Type", "t"); ("Payload", "x")]
           Scenario.emptyWorld
           (Scenario.run (Scenario.storeDeclaration Scenario.D1)
              Scenario.emptyWorld)
           (Scenario.run (Scenario.storeDeclaration Scenario.D1)
              Scenario.emptyWorld)
           ["D1"]).
  - vm_compute. reflexivity.
  - vm_compute. reflexivity.
  - reflexivity.
  - vm_compute. reflexivity.
Defined.

Lemma StoreDeclaration_rejects_payload_witness :
  Scenario.storeDeclaration (Declaration.mk "D2" "t" "x") Scenario.emptyWorld
  = (Some (false, Some ErrJSON),
     mkWorld [] [] 1 0 ([] ++ [ReqQuery "dec#D2" "dec#"])).
Proof.
  apply (StoreDeclaration_rejects_payload Scenario.digest string
           (fun s => s) Scenario.decode Scenario.marshal
           Scenario.parse Scenario.items Scenario.tokens Scenario.salt
           (Declaration.mk "D2" "t" "x") Scenario.emptyWorld).
  vm_compute. reflexivity.
Defined.

Lemma StoreDeclaration_panics_on_null_payload_witness :
  Scenario.storeDeclaration (Declaration.mk "D2" "t" "null")
    Scenario.linked
  = (None,
     mkWorld (tbl Scenario.linked) (tl (faults Scenario.linked))
       (S (drawn Scenario.linked)) (ticks Scenario.linked)
       (trace Scenario.linked ++ [ReqQuery "dec#D2" "dec#"])).
Proof.
  apply (StoreDeclaration_panics_on_null_payload Scenario.digest string
           (fun s => s) Scenario.decode Scenario.marshal
           Scenario.parse Scenario.items Scenario.tokens Scenario.salt
           (Declaration.mk "D2" "t" "null") Scenario.linked).
  reflexivity.
Defined.

(** ** The sets of a declaration *)

(** X21. After a [StoreSetDeclaration] that reports success, the set is
    among those [RetrieveDeclarationSets] lists for the declaration through
    the reverse index, whenever it returns without error. *)
Theorem StoreSetDeclaration_then_set_listed (setName declarationID : string)
    (w w1 w2 : World) (sets : list string) :
  StoreSetDeclaration setName declarationID w = (Some (true, None), w1) ->
  tbl w2 = tbl w1 ->
  fst (RetrieveDeclarationSets declarationID w2) = Some (sets, None) ->
  In setName sets.
Proof.
  intros Hstore Ht. apply StoreSetDeclaration_stored in Hstore.
  unfold RetrieveDeclarationSets. unfold bind at 1.
  rewrite GetReverseItems_run.
  destruct (hd false (faults w2)); [discriminate|].
  unfold UnmarshalListOfMaps, UnmarshalList_slice.
  destruct (decodeEach zero _) as [xs|] eqn:D; [|discriminate].
  unfold ret. cbn [fst]. intros [= <-].
  destruct (decodeEach_In zero _ xs
              (MarshalMap
                 (dsGenericItem.mk ("set#" +++ setName)
                    ("dec#" +++ declarationID) "")) D)
    as (x & Hx & Hxs).
  { apply filter_In. split.
    - rewrite Ht, Hstore. apply In_put.
    - cbn [sk pk MarshalMap Marshal_dsGenericItem dsGenericItem.PK
           dsGenericItem.SK].
      now rewrite String.eqb_refl, (HasPrefix_append "set#"). }
  rewrite Unmarshal_Marshal_dsGenericItem in Hx. injection Hx as <-.
  apply in_map_iff. eexists. split; [|exact Hxs].
  apply (TrimPrefix_append "set#").
Qed.

Lemma StoreSetDeclaration_then_set_listed_witness :
  fst (RetrieveDeclarationSets "D1"
         (Scenario.run (StoreSetDeclaration "G1" "D1")
            (Scenario.run (Scenario.storeDeclaration Scenario.D1)
               Scenario.emptyWorld)))
  = Some (["G1"], None)
  /\ In "G1" ["G1"].
Proof.
  split; [vm_compute; reflexivity|].
  apply (StoreSetDeclaration_then_set_listed "G1" "D1"
           (Scenario.run (Scenario.storeDeclaration Scenario.D1)
              Scenario.emptyWorld)
           (Scenario.run (StoreSetDeclaration "G1" "D1")
              (Scenario.run (Scenario.storeDeclaration Scenario.D1)
                 Scenario.emptyWorld))
           (Scenario.run (StoreSetDeclaration "G1" "D1")
              (Scenario.run (Scenario.storeDeclaration Scenario.D1)
                 Scenario.emptyWorld))
           ["G1"]).
  - vm_compute. reflexivity.
  - reflexivity.
  - vm_compute. reflexivity.
Defined.

(** ** Status items *)

Lemma lookup_fold_put_other (items : list Item) (t : Table) (k : Key) :
  (forall x, In x items -> keyOf x <> k) ->
  lookup (fold_left (fun t it => put it t) items t) k = lookup t k.
Proof.
  revert t; induction items as [|x items IH]; intros t H; simpl.
  - reflexivity.
  - rewrite IH by (intros y Hy; apply H; now right).
    apply lookup_put_other, H. now left.
Qed.

Lemma lookup_fold_put_last (pre post : list Item) (it : Item) (t : Table) :
  (forall x, In x post -> keyOf x <> keyOf it) ->
  lookup (fold_left (fun t it => put it t) (pre ++ it :: post) t) (keyOf it)
  = Some it.
Proof.
  intros H. rewrite fold_left_app. cbn [fold_left].
  rewrite lookup_fold_put_other by assumption. apply lookup_put_same.
Qed.

Lemma In_fold_put (items : list Item) (t : Table) (it : Item) :
  NoDup (map keyOf items) -> In it items ->
  In it (fold_left (fun t it => put it t) items t).
Proof.
  intros Hnd Hin. apply in_split in Hin as (pre & post & ->).
  apply (lookup_In _ (keyOf it)), lookup_fold_put_last.
  intros x Hx Heq. rewrite map_app in Hnd. cbn [map] in Hnd.
  apply NoDup_remove_2 in Hnd. apply Hnd, in_or_app. right.
  rewrite <- Heq. now apply in_map.
Qed.

Lemma In_fold_put_inv (items : list Item) (t : Table) (x : Item) :
  In x (fold_left (fun t it => put it t) items t) -> In x items \/ In x t.
Proof.
  revert t; induction items as [|it items IH]; intros t; simpl; [auto|].
  intros H. apply IH in H as [H|H]; [auto|].
  apply In_put_inv in H as [->|H]; auto.
Qed.

Section StatusItems.

Variable MarshalText : nat -> option string.
Hypothesis clock_ok : forall n, MarshalText n <> None.

Local Abbreviation storeStatusDeclarations' :=
  (storeStatusDeclarations MarshalText).
Local Abbreviation storeStatusErrors' := (storeStatusErrors MarshalText).
Local Abbreviation clockText' := (clockText MarshalText).

Lemma declarationStatusItems_app (enrollmentID : string) (n : nat)
    (pre post : list DeclarationStatus.t) :
  declarationStatusItems MarshalText enrollmentID n (pre ++ post)
  = declarationStatusItems MarshalText enrollmentID n pre
    ++ declarationStatusItems MarshalText enrollmentID (n + List.length pre)
         post.
Proof.
  revert n; induction pre as [|dec pre IH]; intros n; simpl.
  - now rewrite Nat.add_0_r.
  - rewrite IH. now rewrite Nat.add_succ_r.
Qed.

Lemma declarationStatusItems_In (enrollmentID : string) (n : nat)
    (declarations : list DeclarationStatus.t) (x : Item) :
  In x (declarationStatusItems MarshalText enrollmentID n declarations) ->
  exists dec,
    In dec declarations
    /\ keyOf x
       = ("enroll#" +++ enrollmentID,
          "status#dec#" +++ DeclarationStatus.Identifier dec).
Proof.
  revert n; induction declarations as [|dec rest IH]; intros n; simpl.
  - intros [].
  - intros [<-|H].
    + exists dec. split; [now left | reflexivity].
    + destruct (IH _ H) as (dec' & Hin & Hk). exists dec'. auto.
Qed.

(** X22. [storeStatusDeclarations] keeps one status item per declaration
    identifier under the enrollment: on a backing store that does not fail,
    the item of an identifier is the one built from the last entry of the
    list with that identifier, and carries the time of its own write. *)
Theorem storeStatusDeclarations_last_entry_wins (enrollmentID : string)
    (pre post : list DeclarationStatus.t) (dec : DeclarationStatus.t)
    (w : World) :
  faults w = [] ->
  (forall x, In x post ->
     DeclarationStatus.Identifier x <> DeclarationStatus.Identifier dec) ->
  lookup
    (tbl (snd (storeStatusDeclarations' enrollmentID (pre ++ dec :: post) w)))
    ("enroll#" +++ enrollmentID,
     "status#dec#" +++ DeclarationStatus.Identifier dec)
  = Some (MarshalMap
            (declarationStatusItem enrollmentID
               (clockText' (ticks w + List.length pre)) dec)).
Proof.
  intros Hf Hpost.
  rewrite (storeStatusDeclarations_ok MarshalText clock_ok) by assumption.
  cbn [snd tbl]. rewrite declarationStatusItems_app.
  cbn [declarationStatusItems].
  change ("enroll#" +++ enrollmentID,
          "status#dec#" +++ DeclarationStatus.Identifier dec)
    with (keyOf
            (MarshalMap
               (declarationStatusItem enrollmentID
                  (clockText' (ticks w + List.length pre)) dec))).
  apply (lookup_fold_put_last _ _
           (MarshalMap
              (declarationStatusItem enrollmentID
                 (clockText' (ticks w + List.length pre)) dec))).
  intros x Hx Heq. apply declarationStatusItems_In in Hx as (y & Hy & Hk).
  rewrite Hk in Heq. unfold keyOf in Heq. cbn in Heq.
  injection Heq as Heq. exact (Hpost y Hy Heq).
Qed.

End StatusItems.

Lemma storeStatusDeclarations_last_entry_wins_witness :
  lookup
    (tbl (snd (storeStatusDeclarations Scenario.timeText "EN1"
                 ([DeclarationStatus.mk "D1" false "unknown" "t0" "" ""]
                  ++ DeclarationStatus.mk "D1" true "valid" "t1" "" ""
                  :: [DeclarationStatus.mk "D2" true "valid" "t2" "" ""])
                 Scenario.emptyWorld)))
    ("enroll#EN1", "status#dec#D1")
  = Some (MarshalMap
            (declarationStatusItem "EN1" "T1"
               (DeclarationStatus.mk "D1" true "valid" "t1" "" ""))).
Proof.
  apply (storeStatusDeclarations_last_entry_wins Scenario.timeText).
  - intros n. discriminate.
  - reflexivity.
  - intros x [<-|[]]. discriminate.
Defined.

(** ** Status errors, stored and read back *)

Section StatusErrors.

Variable MarshalText : nat -> option string.
Hypothesis clock_ok : forall n, MarshalText n <> None.

Variable Time : Type.
Variable DeclarationItems : Type.
Variable UnmarshalText : string -> option Time.
Variable json_Unmarshal_items : string -> option DeclarationItems.

Local Abbreviation storeStatusErrors' := (storeStatusErrors MarshalText).
Local Abbreviation clockText' := (clockText MarshalText).
Local Abbreviation statusErrorItems' := (statusErrorItems MarshalText).
Local Abbreviation RetrieveStatusErrors' :=
  (RetrieveStatusErrors Time DeclarationItems UnmarshalText
     json_Unmarshal_items).

Lemma statusErrorItems_nth (enrollmentID : string) (n i : nat)
    (ddmErrors : list StatusError.t) (statusError : StatusError.t) :
  nth_error ddmErrors i = Some statusError ->
  In (MarshalMap
        (statusErrorItem enrollmentID (clockText' (n + i)) statusError))
    (statusErrorItems' enrollmentID n ddmErrors).
Proof.
  revert n i; induction ddmErrors as [|e rest IH]; intros n [|i]; simpl;
    try discriminate.
  - intros [= ->]. left. now rewrite Nat.add_0_r.
  - intros H. right. rewrite <- Nat.add_succ_comm. now apply IH.
Qed.

Lemma statusErrorItems_plain (enrollmentID : string) (n : nat)
    (ddmErrors : list StatusError.t) (x : Item) :
  In x (statusErrorItems' enrollmentID n ddmErrors) -> plainBody x = true.
Proof.
  revert n; induction ddmErrors as [|e rest IH]; intros n; simpl.
  - intros [].
  - intros [<-|H]; [reflexivity | eauto].
Qed.

Lemma statusErrorsOfItems_In (items : list dsDecError.t)
    (acc out : list (StorageStatusError.t Time)) :
  statusErrorsOfItems Time UnmarshalText items acc = (out, None) ->
  incl acc out
  /\ forall x, In x items ->
       exists ts,
         UnmarshalText (dsDecError.Time x) = Some ts
         /\ In (StorageStatusError.mk (dsDecError.Path x) (dsDecError.Body x)
                  ts) out.
Proof.
  revert acc; induction items as [|item rest IH]; intros acc; simpl.
  - intros [= <-]. split; [apply incl_refl | intros x []].
  - destruct (UnmarshalText (dsDecError.Time item)) as [ts|] eqn:E;
      [|discriminate].
    intros H. apply IH in H as [Hincl Hall]. split.
    + intros y Hy. apply Hincl, in_or_app. now left.
    + intros x [<-|Hx]; [|now apply Hall].
      exists ts. split; [assumption|]. apply Hincl, in_or_app. right.
      now left.
Qed.

(** X23. Status errors are kept one item per path and time of ingest. When
    [storeStatusErrors] has stored a list of errors whose keys are
    distinct, on a backing store that does not fail, every error of the
    list is among those a [RetrieveStatusErrors] that returns without error
    reports for the enrollment, with its path, its body and the time of its
    ingest. *)
Theorem storeStatusErrors_then_retrieved (enrollmentID : string)
    (ddmErrors : list StatusError.t) (w w2 : World) (offset limit : Z)
    (m : list (string * list (StorageStatusError.t Time))) (i : nat)
    (statusError : StatusError.t) :
  faults w = [] ->
  (forall it, In it (tbl w) -> plainBody it = true) ->
  NoDup (map keyOf (statusErrorItems' enrollmentID (ticks w) ddmErrors)) ->
  tbl w2 = tbl (snd (storeStatusErrors' enrollmentID ddmErrors w)) ->
  fst (RetrieveStatusErrors' [enrollmentID] offset limit w2)
  = Some (m, None) ->
  nth_error ddmErrors i = Some statusError ->
  exists ts out,
    UnmarshalText (clockText' (ticks w + i)) = Some ts
    /\ map_index m enrollmentID = Some out
    /\ In (StorageStatusError.mk (StatusError.Path statusError)
             (StatusError.ErrorJSON statusError) ts) out.
Proof.
  intros Hf Hp Hnd Ht Hret Hnth.
  rewrite (storeStatusErrors_ok MarshalText clock_ok) in Ht by assumption.
  cbn [snd tbl] in Ht.
  assert (Hp2 : forall it, In it (tbl w2) -> plainBody it = true).
  { intros it Hit. rewrite Ht in Hit.
    apply In_fold_put_inv in Hit as [Hit|Hit]; [|now apply Hp].
    now apply statusErrorItems_plain in Hit. }
  set (record := statusErrorItem enrollmentID (clockText' (ticks w + i))
                   statusError).
  assert (Hin : In (MarshalMap record) (tbl w2)).
  { rewrite Ht. apply In_fold_put; [assumption|].
    now apply statusErrorItems_nth. }
  revert Hret. unfold RetrieveStatusErrors. cbn [statusErrorsOf].
  unfold bind at 1. rewrite enrollmentDeclarations_run by assumption.
  cbn [checkDeclarationItems]. unfold bind at 1, ret at 1.
  unfold bind at 1. rewrite GetItemsSKBeginsWith_run.
  cbn [faults logged].
  destruct (hd false (tl (faults w2))); [discriminate|].
  unfold UnmarshalListOfMaps, UnmarshalList_slice. cbn [tbl].
  destruct (decodeEach zero _) as [xs|] eqn:D; [|discriminate].
  destruct (statusErrorsOfItems Time UnmarshalText xs []) as [out [e|]] eqn:S;
    [discriminate|].
  unfold ret. cbn [fst]. intros [= <-].
  destruct (decodeEach_In zero _ xs (MarshalMap record) D) as (x & Hx & Hxs).
  { apply filter_In. split; [assumption|]. cbn [pk sk].
    unfold record, statusErrorItem, MarshalMap, Marshal_dsDecError.
    cbn [pk sk dsDecError.PK dsDecError.SK].
    now rewrite String.eqb_refl, (HasPrefix_append "status#error#"). }
  rewrite Unmarshal_Marshal_dsDecError in Hx. injection Hx as <-.
  apply statusErrorsOfItems_In in S as [_ Hall].
  destruct (Hall record Hxs) as (ts & Hts & Hout).
  exists ts, out. split; [exact Hts|]. split; [|exact Hout].
  unfold map_set. cbn. now rewrite String.eqb_refl.
Qed.

End StatusErrors.

Lemma storeStatusErrors_then_retrieved_witness :
  exists ts out,
    Some "T0" = Some ts
    /\ map_index
         [("EN1", [StorageStatusError.mk ".p" "boom" "T0"])] "EN1"
       = Some out
    /\ In (StorageStatusError.mk ".p" "boom" ts) out.
Proof.
  apply (storeStatusErrors_then_retrieved Scenario.timeText
           (fun n H => eq_ind (Scenario.timeText n)
                         (fun o => match o with
                                   | Some _ => True
                                   | None => False
                                   end) I None H)
           string unit Some (fun _ => None) "EN1"
           [StatusError.mk ".p" "boom"] Scenario.emptyWorld
           (snd (storeStatusErrors Scenario.timeText "EN1"
                   [StatusError.mk ".p" "boom"] Scenario.emptyWorld))
           0%Z 0%Z
           [("EN1", [StorageStatusError.mk ".p" "boom" "T0"])] 0
           (StatusError.mk ".p" "boom")).
  - reflexivity.
  - intros it [].
  - repeat constructor. intros [].
  - reflexivity.
  - vm_compute. reflexivity.
  - reflexivity.
Defined.

(** ** Status values, retrieved *)

Lemma statusValuesOf_entries (enrollmentIDs : list string)
    (pathPrefix : string)
    (ret_ m : list (string * list StorageStatusValue.t)) (w : World)
    (id : string) (vs : list StorageStatusValue.t) :
  fst (statusValuesOf enrollmentIDs pathPrefix ret_ w) = Some (m, None) ->
  map_index m id = Some vs ->
  map_index ret_ id = Some vs \/ (In id enrollmentIDs /\ vs <> []).
Proof.
  revert ret_ w; induction enrollmentIDs as [|e rest IH]; intros ret_ w.
  - cbn. intros [= <-]. auto.
  - cbn [statusValuesOf]. unfold bind.
    destruct (readStatusValues e w) as [[[values [err|]]|] w1];
      try discriminate.
    destruct (if String.eqb pathPrefix "" then Some values
              else filterPathPrefix values pathPrefix) as [kept|];
      [|discriminate].
    intros Hrun Hm. destruct (IH _ _ Hrun Hm) as [Hret|[Hin Hne]].
    + destruct (0 <? List.length _)%nat eqn:Hlen; [|auto].
      rewrite map_index_map_set in Hret.
      destruct (String.eqb e id) eqn:E; [|auto].
      apply String.eqb_eq in E as ->. injection Hret as <-. right.
      split; [now left|]. apply Nat.ltb_lt in Hlen.
      intros Hnil. rewrite Hnil in Hlen. cbn in Hlen. lia.
    + right. split; [now right | assumption].
Qed.

(** X24. [RetrieveStatusValues] leaves an enrollment without values (none
    stored, or none selected by the pattern) out of the map it returns:
    every entry of the map is for one of the enrollments asked for and
    holds at least one value. *)
Theorem RetrieveStatusValues_omits_empty (enrollmentIDs : list string)
    (pathPrefix : string) (w : World)
    (m : list (string * list StorageStatusValue.t)) (id : string)
    (vs : list StorageStatusValue.t) :
  fst (RetrieveStatusValues enrollmentIDs pathPrefix w) = Some (m, None) ->
  map_index m id = Some vs ->
  In id enrollmentIDs /\ vs <> [].
Proof.
  intros Hrun Hm.
  destruct (statusValuesOf_entries _ _ _ _ _ _ _ Hrun Hm) as [H|H];
    [discriminate | exact H].
Qed.

(** X25. [RetrieveStatusValues] for one enrollment whose value set was
    written by [storeStatusValues] from values free of a carriage return
    followed by a line feed: with an empty pattern it returns the stored
    values, with a pattern those [filterPathPrefix] selects, each as its
    path and value; it panics where [filterPathPrefix] does, and it leaves
    the enrollment out when no value is left. *)
Theorem RetrieveStatusValues_of_stored (enrollmentID pathPrefix : string)
    (values : list StatusValue) (w : World) :
  faults w = [] ->
  lookup (tbl w) ("enroll#" +++ enrollmentID, "status#values")
  = Some (MarshalMap
            (dsGenericItem.mk ("enroll#" +++ enrollmentID) "status#values"
               (formatStatusValues values))) ->
  forallb cleanValue values = true ->
  fst (RetrieveStatusValues [enrollmentID] pathPrefix w)
  = match (if String.eqb pathPrefix "" then Some values
           else filterPathPrefix values pathPrefix) with
    | None => None
    | Some [] => Some ([], None)
    | Some kept =>
        Some ([(enrollmentID,
                map (fun v => StorageStatusValue.mk (Path v) (Value v)) kept)],
              None)
    end.
Proof.
  intros Hf Hl Hc.
  pose proof (readStatusValues_stored enrollmentID w values Hf Hl Hc) as Hr.
  unfold RetrieveStatusValues. cbn [statusValuesOf]. unfold bind.
  destruct (readStatusValues enrollmentID w) as [r w1].
  cbn [fst] in Hr. rewrite Hr.
  destruct (if String.eqb pathPrefix "" then Some values
            else filterPathPrefix values pathPrefix) as [[|v kept]|];
    reflexivity.
Qed.

Lemma RetrieveStatusValues_omits_empty_witness :
  fst (RetrieveStatusValues ["EN1"; "EN2"] ""
         (snd (storeStatusValues "EN1" storedValues Scenario.emptyWorld)))
  = Some ([("EN1", [StorageStatusValue.mk ".a" "1"])], None)
  /\ In "EN1" ["EN1"; "EN2"]
  /\ [StorageStatusValue.mk ".a" "1"] <> [].
Proof.
  split; [vm_compute; reflexivity|].
  apply (RetrieveStatusValues_omits_empty ["EN1"; "EN2"] ""
           (snd (storeStatusValues "EN1" storedValues Scenario.emptyWorld))
           [("EN1", [StorageStatusValue.mk ".a" "1"])] "EN1"
           [StorageStatusValue.mk ".a" "1"]).
  - vm_compute. reflexivity.
  - reflexivity.
Defined.

Lemma RetrieveStatusValues_of_stored_witness :
  fst (RetrieveStatusValues ["EN1"] "%"
         (snd (storeStatusValues "EN1" sampleValues Scenario.emptyWorld)))
  = None.
Proof.
  apply (RetrieveStatusValues_of_stored "EN1" "%" sampleValues
           (snd (storeStatusValues "EN1" sampleValues Scenario.emptyWorld))).
  - reflexivity.
  - vm_compute. reflexivity.
  - reflexivity.
Defined.

(** ** Deleting a declaration, edge by edge *)

Lemma deleteEach_run (items : list dsGenericItem.t) (w : World) :
  forallb negb (faults w) = true ->
  (forall x, In x items -> validKey (MarshalMap x) = true) ->
  tbl (snd (deleteEach items w))
  = fold_left (fun t x => remove (keyOf (MarshalMap x)) t) items (tbl w).
Proof.
  revert w; induction items as [|x items IH]; intros w Hf Hv.
  - reflexivity.
  - cbn [deleteEach fold_left]. unfold bind. rewrite deleteSingleItem_run.
    rewrite (Hv x (or_introl eq_refl)).
    assert (Hhd : hd false (faults w) = false /\
                  forallb negb (tl (faults w)) = true).
    { destruct (faults w) as [|f fs]; [auto|]. cbn in Hf.
      apply andb_true_iff in Hf as [Hf1 Hf2].
      apply negb_true_iff in Hf1. auto. }
    destruct Hhd as [-> Htl]. cbn [orb negb].
    rewrite IH; [reflexivity | exact Htl |].
    intros y Hy. apply Hv. now right.
Qed.

Lemma In_fold_remove (items : list dsGenericItem.t) (t : Table) (it : Item) :
  In it (fold_left (fun t x => remove (keyOf (MarshalMap x)) t) items t) ->
  In it t /\ forall x, In x items -> keyOf it <> keyOf (MarshalMap x).
Proof.
  revert t; induction items as [|x items IH]; intros t; cbn [fold_left].
  - intros H. split; [assumption | intros x []].
  - intros H. apply IH in H as [H Hrest]. apply In_remove in H as [H Hx].
    split; [assumption|]. intros y [<-|Hy]; auto.
Qed.

(** X26. After a [DeleteDeclaration] that returns true on a backing store
    that answers the reads and carries out the deletes of the edges
    (whatever it does with the delete of the record), no set lists the
    declaration any more: [RetrieveDeclarationSets] returns the empty
    list. *)
Theorem DeleteDeclaration_removes_edges (identifier : string) (w w2 : World)
    (recordDelete : bool) (later : list bool) :
  faults w = false :: recordDelete :: later ->
  forallb negb later = true ->
  fst (DeleteDeclaration identifier w) = Some (true, None) ->
  tbl w2 = tbl (snd (DeleteDeclaration identifier w)) ->
  hd false (faults w2) = false ->
  fst (RetrieveDeclarationSets identifier w2) = Some ([], None).
Proof.
  intros Hf Hlater Hres Ht Hf2.
  assert (Hq : queryReverse (tbl w2) ("dec#" +++ identifier) "set#" = []).
  { rewrite Ht. clear Ht Hf2 w2.
    destruct (DeleteDeclaration identifier w) as [r w'] eqn:E.
    cbn [fst snd] in *. subst r. unfold DeleteDeclaration in E.
    apply bind_Some in E
      as [(? & _ & [= ] & _)|([declaration [e|]] & wa & Hget & E)];
      [discriminate|].
    rewrite GetSingleItemPKSK_run in Hget. injection Hget as _ <-.
    apply bind_Some in E as [(? & _ & [= ] & _)|(b & wb & Hdel & E)].
    rewrite deleteSingleItem_run in Hdel.
    assert (Hwb : faults wb = later
                  /\ forall it, In it (tbl wb) -> In it (tbl w)).
    { destruct (_ || _); injection Hdel as _ <-;
        cbn [faults tbl logged withTable]; rewrite Hf; (split; [reflexivity|]);
        auto.
      intros it Hit. now apply In_remove in Hit as [Hit _]. }
    clear Hdel. destruct Hwb as [Hfb _].
    assert (Hhd : hd false later = false /\ forallb negb (tl later) = true).
    { destruct later as [|f fs]; [auto|]. cbn in Hlater.
      apply andb_true_iff in Hlater as [H1 H2].
      apply negb_true_iff in H1. auto. }
    destruct Hhd as [Hhd Htl].
    apply bind_Some in E
      as [(? & _ & [= ] & _)|([items [e|]] & wc & Hrev & E)];
      [discriminate|].
    rewrite GetReverseItems_run, Hfb, Hhd in Hrev.
    unfold UnmarshalListOfMaps, UnmarshalList_slice in Hrev.
    destruct (decodeEach zero _) as [xs|] eqn:D; [|discriminate].
    injection Hrev as -> Hwc.
    assert (Hfc : forallb negb (faults wc) = true)
      by (rewrite <- Hwc; cbn [faults logged]; now rewrite Hfb).
    assert (Htc : tbl wc = tbl wb) by now rewrite <- Hwc.
    clear Hwc.
    apply bind_Some in E as [(? & _ & [= ] & _)|(u & wd & Hde & E)].
    injection E as <-.
    assert (Hvalid : forall x, In x items -> validKey (MarshalMap x) = true).
    { intros x Hx.
      destruct (decodeEach_inv zero _ items x D Hx) as (it & Hit & Hdec).
      apply Unmarshal_dsGenericItem_key in Hdec.
      apply filter_In in Hit as [_ Hm].
      apply andb_true_iff in Hm as [Hsk Hpk].
      apply String.eqb_eq in Hsk. apply HasPrefix_iff in Hpk as [r Hr].
      unfold keyOf in Hdec. injection Hdec as Hp Hs.
      unfold validKey, MarshalMap, Marshal_dsGenericItem. cbn [pk sk].
      rewrite Hp, Hs, Hr, Hsk. reflexivity. }
    pose proof (deleteEach_run items wc Hfc Hvalid) as Hrun.
    rewrite Hde in Hrun. cbn [snd] in Hrun. rewrite Hrun, Htc.
    destruct (queryReverse (fold_left _ items (tbl wb))
                ("dec#" +++ identifier) "set#")
      as [|it rest] eqn:Q; [reflexivity|exfalso].
    assert (Hit : In it (queryReverse
                           (fold_left
                              (fun t x => remove (keyOf (MarshalMap x)) t)
                              items (tbl wb))
                           ("dec#" +++ identifier) "set#"))
      by (rewrite Q; now left).
    apply filter_In in Hit as [Hit Hmatch].
    apply In_fold_remove in Hit as [Hit Hne].
    destruct (decodeEach_In zero _ items it D) as (x & Hx & Hxs);
      [apply filter_In; now split|].
    apply (Hne x Hxs).
    apply Unmarshal_dsGenericItem_key in Hx. now rewrite <- Hx. }
  unfold RetrieveDeclarationSets. unfold bind at 1.
  now rewrite GetReverseItems_run, Hf2, Hq.
Qed.

Lemma DeleteDeclaration_removes_edges_witness :
  fst (RetrieveDeclarationSets "D1"
         (snd (DeleteDeclaration "D1"
                 (mkWorld
                    [mkItem "dec#D1" "dec#" [("json", AvS "x")];
                     mkItem "set#G1" "dec#D1" []]
                    [false; true] 0 0 []))))
  = Some ([], None).
Proof.
  apply (DeleteDeclaration_removes_edges "D1"
           (mkWorld
              [mkItem "dec#D1" "dec#" [("json", AvS "x")];
               mkItem "set#G1" "dec#D1" []]
              [false; true] 0 0 [])
           (snd (DeleteDeclaration "D1"
                   (mkWorld
                      [mkItem "dec#D1" "dec#" [("json", AvS "x")];
                       mkItem "set#G1" "dec#D1" []]
                      [false; true] 0 0 [])))
           true []).
  - reflexivity.
  - reflexivity.
  - vm_compute. reflexivity.
  - reflexivity.
  - vm_compute. reflexivity.
Defined.

(** ** Items, written and read back *)

Lemma Unmarshal_Marshal_dsDeclarationStatus (x : dsDeclarationStatus.t) :
  UnmarshalMap (MarshalMap x) (zero : dsDeclarationStatus.t) = (x, None).
Proof.
  destruct x as [p s time id active valid token ty reasons].
  unfold UnmarshalMap, Unmarshal_dsDeclarationStatus, MarshalMap,
    Marshal_dsDeclarationStatus, decodeS, decodeBOOL, S_omitempty, S_.
  cbn [dsDeclarationStatus.PK dsDeclarationStatus.SK dsDeclarationStatus.Time
       dsDeclarationStatus.Identifier dsDeclarationStatus.Active
       dsDeclarationStatus.Valid dsDeclarationStatus.ServerToken
       dsDeclarationStatus.ManifestType dsDeclarationStatus.ReasonsJSON
       pk sk attrs].
  destruct (String.eqb ty "") eqn:Ety, (String.eqb reasons "") eqn:Er;
    try (apply String.eqb_eq in Ety as ->);
    try (apply String.eqb_eq in Er as ->); reflexivity.
Qed.

Lemma AddItem_then_GetSingleItemPKSK {X} `{Marshal X} `{Unmarshal X}
    (z x : X) (w : World) :
  faults w = [] ->
  validKey (MarshalMap x) = true ->
  UnmarshalMap (MarshalMap x) z = (x, None) ->
  fst (bind (AddItem x)
         (fun _ =>
            GetSingleItemPKSK (pk (MarshalMap x)) (sk (MarshalMap x)) z) w)
  = Some (x, None).
Proof.
  intros Hf Hv Hu. unfold bind. rewrite AddItem_run, Hf, Hv. cbn [hd orb negb].
  rewrite GetSingleItemPKSK_run. cbn [faults tbl logged withTable].
  rewrite Hf. cbn [tl hd fst].
  change (pk (MarshalMap x), sk (MarshalMap x)) with (keyOf (MarshalMap x)).
  now rewrite lookup_put_same, Hu.
Qed.

(** X27. On a backing store that does not fail, an item put by [AddItem]
    under a key without an empty part is read back by [GetSingleItemPKSK]
    into the zero record as the record it was marshalled from, for each of
    the four record types of the package, fields left out of the item for
    being empty included. *)
Theorem AddItem_then_read_back (w : World) :
  faults w = [] ->
  (forall x : dsGenericItem.t,
     validKey (MarshalMap x) = true ->
     fst (bind (AddItem x)
            (fun _ =>
               GetSingleItemPKSK (dsGenericItem.PK x) (dsGenericItem.SK x)
                 (zero : dsGenericItem.t)) w)
     = Some (x, None))
  /\ (forall x : dsDeclaration.t,
        validKey (MarshalMap x) = true ->
        fst (bind (AddItem x)
               (fun _ =>
                  GetSingleItemPKSK (dsDeclaration.PK x) (dsDeclaration.SK x)
                    (zero : dsDeclaration.t)) w)
        = Some (x, None))
  /\ (forall x : dsDeclarationStatus.t,
        validKey (MarshalMap x) = true ->
        fst (bind (AddItem x)
               (fun _ =>
                  GetSingleItemPKSK (dsDeclarationStatus.PK x)
                    (dsDeclarationStatus.SK x)
                    (zero : dsDeclarationStatus.t)) w)
        = Some (x, None))
  /\ (forall x : dsDecError.t,
        validKey (MarshalMap x) = true ->
        fst (bind (AddItem x)
               (fun _ =>
                  GetSingleItemPKSK (dsDecError.PK x) (dsDecError.SK x)
                    (zero : dsDecError.t)) w)
        = Some (x, None)).
Proof.
  intros Hf. repeat split; intros x Hv.
  - apply (AddItem_then_GetSingleItemPKSK zero x w Hf Hv).
    apply Unmarshal_Marshal_dsGenericItem.
  - apply (AddItem_then_GetSingleItemPKSK zero x w Hf Hv).
    apply Unmarshal_Marshal_dsDeclaration.
  - apply (AddItem_then_GetSingleItemPKSK zero x w Hf Hv).
    apply Unmarshal_Marshal_dsDeclarationStatus.
  - apply (AddItem_then_GetSingleItemPKSK zero x w Hf Hv).
    apply Unmarshal_Marshal_dsDecError.
Qed.

Lemma AddItem_then_read_back_witness :
  fst (bind (AddItem (dsDeclarationStatus.mk "enroll#EN1" "status#dec#D1"
                        "T0" "D1" true "valid" "tok" "" ""))
         (fun _ =>
            GetSingleItemPKSK "enroll#EN1" "status#dec#D1"
              (zero : dsDeclarationStatus.t)) Scenario.emptyWorld)
  = Some (dsDeclarationStatus.mk "enroll#EN1" "status#dec#D1" "T0" "D1" true
            "valid" "tok" "" "", None).
Proof.
  destruct (AddItem_then_read_back Scenario.emptyWorld eq_refl)
    as (_ & _ & H & _).
  apply (H (dsDeclarationStatus.mk "enroll#EN1" "status#dec#D1" "T0" "D1"
              true "valid" "tok" "" "")).
  reflexivity.
Defined.

(** ** A recompute whose read of a declaration fails *)

Section FailedLoad.

Variable ParseDeclaration : string -> option Declaration.t.
Variable DeclarationItemsJSON : list Declaration.t -> string.
Variable TokensJSON : list Declaration.t -> string.

Local Abbreviation writeEnrollmentDDM' :=
  (writeEnrollmentDDM ParseDeclaration DeclarationItemsJSON TokensJSON).

(** X28. [writeEnrollmentDDM] drops the error of [RetrieveDeclaration] and
    reads the declaration it returned: when the sets of the enrollment hold
    a declaration and the backing store fails the read of the first one,
    the recompute panics on the nil declaration instead of returning the
    error. *)
Theorem writeEnrollmentDDM_panics_on_failed_read (enrollmentID : string)
    (w wa wb : World) (sets : list dsGenericItem.t) (declarationID : string)
    (others : list string) :
  GetItemsSKBeginsWith ("enroll#" +++ enrollmentID) "set#"
    ([] : list dsGenericItem.t) w
  = (Some (sets, None), wa) ->
  collectDeclarations
    (map (fun set => TrimPrefix (dsGenericItem.SK set) "set#") sets) [] wa
  = (Some (declarationID :: others, None), wb) ->
  hd false (faults wb) = true ->
  fst (writeEnrollmentDDM' enrollmentID w) = None.
Proof.
  intros Hsets Hdecs Hf. unfold writeEnrollmentDDM.
  unfold bind at 1. rewrite Hsets. unfold bind at 1. rewrite Hdecs.
  unfold bind at 1. cbn [addDeclarations]. unfold bind at 1.
  unfold RetrieveDeclaration. unfold bind at 1.
  rewrite GetSingleItemPKSK_run, Hf. reflexivity.
Qed.

End FailedLoad.

Lemma writeEnrollmentDDM_panics_on_failed_read_witness :
  fst (Scenario.recompute "EN1"
         (mkWorld
            [mkItem "dec#D1" "dec#" [("json", AvS "Identifier=D1;Type=t")];
             mkItem "enroll#EN1" "set#G1" [];
             mkItem "set#G1" "dec#D1" []]
            [false; false; true] 0 0 []))
  = None.
Proof.
  apply (writeEnrollmentDDM_panics_on_failed_read Scenario.parse
           Scenario.items Scenario.tokens "EN1"
           (mkWorld
              [mkItem "dec#D1" "dec#" [("json", AvS "Identifier=D1;Type=t")];
               mkItem "enroll#EN1" "set#G1" [];
               mkItem "set#G1" "dec#D1" []]
              [false; false; true] 0 0 [])
           (mkWorld
              [mkItem "dec#D1" "dec#" [("json", AvS "Identifier=D1;Type=t")];
               mkItem "enroll#EN1" "set#G1" [];
               mkItem "set#G1" "dec#D1" []]
              [false; true] 0 0 [ReqQuery "enroll#EN1" "set#"])
           (mkWorld
              [mkItem "dec#D1" "dec#" [("json", AvS "Identifier=D1;Type=t")];
               mkItem "enroll#EN1" "set#G1" [];
               mkItem "set#G1" "dec#D1" []]
              [true] 0 0
              [ReqQuery "enroll#EN1" "set#"; ReqQuery "set#G1" "dec#"])
           [dsGenericItem.mk "enroll#EN1" "set#G1" ""] "D1" []).
  - vm_compute. reflexivity.
  - vm_compute. reflexivity.
  - reflexivity.
Defined.
